(** * Mython interpreter: lexer, runtime object model and AST evaluator

    A shallow embedding of [lexer.cpp], [runtime.cpp] and [statement.cpp]
    (with the declarations of [lexer.h], [runtime.h] and [statement.h]),
    followed by the properties of the interpreter proved on it.

    Conventions of the embedding.
    - [int] is 32 bits wide; a value is a [Z] and arithmetic wraps around
      ([int_wrap]).  The one operation with no wrapped result is the
      division [INT_MIN / -1], whose quotient is no [int]: the division
      instruction traps there and the program ends.  [char] is signed, so
      that the byte 255 read through [peek] compares equal to
      [traits_type::eof()].
    - A [runtime::ClassInstance] lives at an address (a [nat]); its field
      table [closure_] is kept in the [World] under that address, so that
      every handle to the instance sees the same fields.
    - [throw] is an explicit result: [Raise (ThrowHolder h)] is the
      [ObjectHolder] thrown by [Return], [Raise (runtime_error what)] a
      [std::runtime_error].  What ends the program without being a C++
      exception (a failed [assert], an undefined operation) is a [Raise]
      too, which nothing catches.
    - Method calls can recurse without bound, hence [Execute] takes fuel. *)

From Stdlib Require Import ZArith String Ascii List Lia Bool.
From Stdlib Require DecimalString HexadecimalString.
From stdpp Require Import gmap strings.
Import ListNotations.

Local Open Scope Z_scope.
#[local] Set Warnings "-register-all".

(** ** Machine integers *)

Definition INT_MAX : Z := 2147483647.
Definition INT_MIN : Z := -2147483648.
Definition UINT32_MODULUS : Z := 4294967296.

(** Two's-complement reduction of a mathematical integer to [int]. *)
Definition int_wrap (z : Z) : Z :=
  (z - INT_MIN) mod UINT32_MODULUS + INT_MIN.


(** Reduction to [uint32_t]. *)
Definition uint32_wrap (z : Z) : Z := z mod UINT32_MODULUS.

(** [std::to_string] and [operator<<] on an integer. *)
Definition to_string (z : Z) : string :=
  DecimalString.NilZero.string_of_int (Z.to_int z).

(** ** AST nodes, classes and methods

    [runtime::Method] owns its body, an [Executable]; [runtime::Class] owns
    its methods and points to its parent; [ast::NewInstance] and
    [ast::ClassDefinition] refer to a class.  The three types are therefore
    mutually defined.  [Statement] is [runtime::Executable]. *)

Inductive Comparator : Type :=
| cmp_Equal
| cmp_NotEqual
| cmp_Less
| cmp_Greater
| cmp_LessOrEqual
| cmp_GreaterOrEqual.

Inductive Statement : Type :=
| NumericConst (value_ : Z)
| StringConst (value_ : string)
| BoolConst (value_ : bool)
| NoneConst
| VariableValue (var_name_ : string) (tail_ : list string)
| Assignment (var_ : string) (rv_ : Statement)
| FieldAssignment (object_var_name_ : string) (object_tail_ : list string)
                  (field_name_ : string) (rv_ : Statement)
| Print (args_ : list Statement)
| MethodCall (object_ : Statement) (method_ : string) (args_ : list Statement)
| NewInstance (class_instance_ : nat) (class_ : Class) (args_ : list Statement)
| Stringify (argument_ : Statement)
| Add (lhs_ rhs_ : Statement)
| Sub (lhs_ rhs_ : Statement)
| Mult (lhs_ rhs_ : Statement)
| Div (lhs_ rhs_ : Statement)
| Or (lhs_ rhs_ : Statement)
| And (lhs_ rhs_ : Statement)
| Not (argument_ : Statement)
| Compound (args_ : list Statement)
| MethodBody (body_ : Statement)
| Return (statement_ : Statement)
| ClassDefinition (cls_ : Class)
| IfElse (condition_ if_body_ : Statement) (else_body_ : option Statement)
| Comparison (cmp_ : Comparator) (lhs_ rhs_ : Statement)
with Class : Type :=
| mkClass (name_ : string) (methods_ : list Method) (parent_ : option Class)
with Method : Type :=
| mkMethod (name : string) (formal_params : list string) (body : Statement).

Definition Method_name (m : Method) : string :=
  match m with mkMethod n _ _ => n end.
Definition Method_formal_params (m : Method) : list string :=
  match m with mkMethod _ p _ => p end.
Definition Method_body (m : Method) : Statement :=
  match m with mkMethod _ _ b => b end.

Module runtime.

(** *** Objects and holders *)

(** The subclasses of [runtime::Object].  A [ClassInstance] is named by its
    address and carries the class it was built from (its [cls_]). *)
Inductive Object : Type :=
| Number (value_ : Z)
| String (value_ : string)
| Bool (value_ : bool)
| OfClass (c : Class)
| ClassInstance (addr : nat) (cls_ : Class).

(** [ObjectHolder]: empty ([ObjectHolder::None()]), owning
    ([ObjectHolder::Own]) or non-owning ([ObjectHolder::Share]). *)
Inductive ObjectHolder : Type :=
| None_
| Own (object : Object)
| Share (object : Object).

(** [ObjectHolder::Get]: the object pointed to, if any. *)
Definition Get (h : ObjectHolder) : option Object :=
  match h with
  | None_ => None
  | Own o | Share o => Some o
  end.

(** [explicit operator bool]. *)
Definition holds (h : ObjectHolder) : bool :=
  match Get h with Some _ => true | None => false end.

Abbreviation Closure := (gmap string ObjectHolder).

(** Everything an evaluation can change besides the closure it is given:
    the field tables of the class instances and the text written so far to
    [context.GetOutputStream()]. *)
Record World : Type := mkWorld {
  instances : gmap nat Closure;
  output : string
}.

(** [ClassInstance::Fields] of the instance at [addr]. *)
Definition Fields (w : World) (addr : nat) : Closure :=
  default ∅ (instances w !! addr).

Definition set_Fields (w : World) (addr : nat) (c : Closure) : World :=
  mkWorld (<[addr := c]> (instances w)) (output w).

(** *** Results *)

(** What leaves an evaluation other than a returned holder: the holder
    thrown by [Return], a [std::runtime_error], a failed [assert], an
    operation the language leaves undefined (the program does not go on
    from there), and the end of the fuel of the embedding. *)
Inductive signal : Type :=
| ThrowHolder (h : ObjectHolder)
| runtime_error (what : string)
| assert_failed
| undefined_behaviour
| out_of_fuel.

Inductive result (A : Type) : Type :=
| Ok (a : A)
| Raise (s : signal).
Arguments Ok {A} a.
Arguments Raise {A} s.

Abbreviation Exec :=
  (Statement -> Closure -> World -> result ObjectHolder * Closure * World).

(** *** IsTrue *)

Definition IsTrue (object : ObjectHolder) : bool :=
  match Get object with
  | Some (Bool v) => Bool.eqb v true
  | Some (Number v) => negb (v =? 0)
  | Some (String v) => negb (String.eqb v EmptyString)
  | _ => false
  end.

(** *** Classes *)

Definition GetName (c : Class) : string :=
  match c with mkClass n _ _ => n end.

Fixpoint GetMethod (c : Class) (name : string) : option Method :=
  match c with
  | mkClass _ methods_ parent_ =>
      match find (fun mtd => String.eqb (Method_name mtd) name) methods_ with
      | Some res => Some res
      | None =>
          match parent_ with
          | Some p => GetMethod p name
          | None => None
          end
      end
  end.

Definition HasMethod (cls_ : Class) (method : string) (argument_count : nat)
  : bool :=
  match GetMethod cls_ method with
  | Some mtd => Nat.eqb (length (Method_formal_params mtd)) argument_count
  | None => false
  end.

(** The loop of [ClassInstance::Call] binding formals to actuals. *)
Fixpoint bind_params (args : Closure) (formal_params : list string)
         (actual_args : list ObjectHolder) : Closure :=
  match formal_params, actual_args with
  | param :: ps, a :: rest => bind_params (<[param := a]> args) ps rest
  | _, _ => args
  end.

Definition Call (exec : Exec) (addr : nat) (cls_ : Class) (method : string)
           (actual_args : list ObjectHolder) (w : World)
  : result ObjectHolder * World :=
  if negb (HasMethod cls_ method (length actual_args)) then
    (Raise (runtime_error
              ("No method " +:+ method +:+ " in class " +:+ GetName cls_
               +:+ " with " +:+ to_string (Z.of_nat (length actual_args))
               +:+ " arguments.")), w)
  else
    match GetMethod cls_ method with
    | Some mtd =>
        let args :=
          bind_params (<["self" := Share (ClassInstance addr cls_)]> ∅)
                      (Method_formal_params mtd) actual_args in
        let '(r, _, w') := exec (Method_body mtd) args w in
        (r, w')
    | None => (Raise assert_failed, w)
    end.

(** *** Printing

    [Object::Print(os, context)] writes to [os], which is either the
    context's output stream or the local [std::ostringstream] of
    [Stringify::Execute]; the text of that local buffer is threaded next to
    the world. *)

Inductive ostream : Type :=
| context_stream
| local_buffer.

Definition write (os : ostream) (text : string) (buf : string) (w : World)
  : string * World :=
  match os with
  | context_stream => (buf, mkWorld (instances w) (output w +:+ text))
  | local_buffer => (buf +:+ text, w)
  end.

(** [os << this]: the address, as a pointer is printed. *)
Definition address_text (addr : nat) : string :=
  "0x" +:+ HexadecimalString.NilZero.string_of_uint
             (N.to_hex_uint (N.of_nat addr)).

Definition STR_METHOD : string := "__str__".
Definition EQ_METHOD : string := "__eq__".
Definition LESS_METHOD : string := "__lt__".

(** [Print] of every kind of object.  [ClassInstance::Print] prints what
    [__str__] returned, which may again be an instance: the recursion is
    bounded by [fuel].  [operator->] on an empty holder fails its
    assertion. *)
Fixpoint Object_Print (fuel : nat) (exec : Exec) (obj : Object)
         (os : ostream) (buf : string) (w : World)
  : result unit * (string * World) :=
  match obj with
  | Number v => (Ok tt, write os (to_string v) buf w)
  | String v => (Ok tt, write os v buf w)
  | Bool v => (Ok tt, write os (if v then "True" else "False") buf w)
  | OfClass c => (Ok tt, write os ("Class " +:+ GetName c) buf w)
  | ClassInstance addr cls_ =>
      if HasMethod cls_ STR_METHOD 0 then
        match fuel with
        | O => (Raise out_of_fuel, (buf, w))
        | S fuel' =>
            match Call exec addr cls_ STR_METHOD [] w with
            | (Ok h, w') =>
                match Get h with
                | Some o => Object_Print fuel' exec o os buf w'
                | None => (Raise assert_failed, (buf, w'))
                end
            | (Raise s, w') => (Raise s, (buf, w'))
            end
        end
      else (Ok tt, write os (address_text addr) buf w)
  end.

(** *** Comparison *)

(** The [BinaryPredicate] of [Comp], at the three types it is used at. *)
Record BinaryPredicate : Type := mkPred {
  on_bool : bool -> bool -> bool;
  on_int : Z -> Z -> bool;
  on_string : string -> string -> bool
}.

Definition bool_lt (a b : bool) : bool := negb a && b.

(** [std::equal_to()] and [std::less()]; strings compare byte-wise. *)
Definition equal_to : BinaryPredicate :=
  mkPred Bool.eqb Z.eqb String.eqb.
Definition less : BinaryPredicate :=
  mkPred bool_lt Z.ltb String.ltb.

(** [Comp]; [None] stands for the throw of "Cannot compare objects". *)
Definition Comp (lhs rhs : ObjectHolder) (pred : BinaryPredicate)
  : option bool :=
  match Get lhs, Get rhs with
  | Some (Bool l), Some (Bool r) => Some (on_bool pred l r)
  | Some (Number l), Some (Number r) => Some (on_int pred l r)
  | Some (String l), Some (String r) => Some (on_string pred l r)
  | _, _ => None
  end.

Definition Cannot_compare : signal := runtime_error "Cannot compare objects".

Definition result_map {A B : Type} (f : A -> B) (r : result A) : result B :=
  match r with
  | Ok a => Ok (f a)
  | Raise s => Raise s
  end.

Definition Equal (exec : Exec) (lhs rhs : ObjectHolder) (w : World)
  : result bool * World :=
  match Comp lhs rhs equal_to with
  | Some b => (Ok b, w)
  | None =>
      match Get lhs with
      | Some (ClassInstance addr cls_) =>
          let '(r, w') := Call exec addr cls_ EQ_METHOD [rhs] w in
          (result_map IsTrue r, w')
      | _ =>
          if negb (holds lhs) && negb (holds rhs) then (Ok true, w)
          else (Raise Cannot_compare, w)
      end
  end.

Definition Less (exec : Exec) (lhs rhs : ObjectHolder) (w : World)
  : result bool * World :=
  match Comp lhs rhs less with
  | Some b => (Ok b, w)
  | None =>
      match Get lhs with
      | Some (ClassInstance addr cls_) =>
          let '(r, w') := Call exec addr cls_ LESS_METHOD [rhs] w in
          (result_map IsTrue r, w')
      | _ => (Raise Cannot_compare, w)
      end
  end.

Definition NotEqual (exec : Exec) (lhs rhs : ObjectHolder) (w : World)
  : result bool * World :=
  let '(r, w') := Equal exec lhs rhs w in (result_map negb r, w').

Definition Greater (exec : Exec) (lhs rhs : ObjectHolder) (w : World)
  : result bool * World :=
  match Less exec lhs rhs w with
  | (Ok true, w1) => (Ok false, w1)
  | (Ok false, w1) =>
      let '(r, w2) := Equal exec lhs rhs w1 in (result_map negb r, w2)
  | (Raise s, w1) => (Raise s, w1)
  end.

Definition LessOrEqual (exec : Exec) (lhs rhs : ObjectHolder) (w : World)
  : result bool * World :=
  let '(r, w') := Greater exec lhs rhs w in (result_map negb r, w').

Definition GreaterOrEqual (exec : Exec) (lhs rhs : ObjectHolder) (w : World)
  : result bool * World :=
  let '(r, w') := Less exec lhs rhs w in (result_map negb r, w').

End runtime.

Module ast.

Import runtime(Closure, Exec, World, ObjectHolder, result, Ok, Raise).

Definition ADD_METHOD : string := "__add__".
Definition INIT_METHOD : string := "__init__".
Definition EMPTY_OBJECT : string := "None".

(** The line feed written by [os << "\n"s]. *)
Definition endl : string := String.String "010"%char EmptyString.

Abbreviation Res := (result ObjectHolder * Closure * World)%type.

(** Sequencing of two evaluations: anything thrown by the first one
    leaves through the second. *)
Definition bind {A B : Type} (r : result A * Closure * World)
           (k : A -> Closure -> World -> result B * Closure * World)
  : result B * Closure * World :=
  match r with
  | (Ok a, c, w) => k a c w
  | (Raise s, c, w) => (Raise s, c, w)
  end.

Notation "'perform' ( a , c , w ) <- e ; k" :=
  (bind e (fun a c w => k))
  (at level 10, a name, c name, w name, e at level 100, k at level 200).

Definition throw {A : Type} (what : string) (c : Closure) (w : World)
  : result A * Closure * World :=
  (Raise (runtime.runtime_error what), c, w).

(** [context.GetOutputStream() << text]. *)
Definition os_write (w : World) (text : string) : World :=
  snd (runtime.write runtime.context_stream text EmptyString w).

(** The loops [for (auto &arg : args_) actual_args.push_back(arg->Execute(...))]
    of [MethodCall] and [NewInstance]. *)
Fixpoint Execute_args (exec : Exec) (args_ : list Statement)
         (closure : Closure) (w : World)
  : result (list ObjectHolder) * Closure * World :=
  match args_ with
  | [] => (Ok [], closure, w)
  | arg :: rest =>
      perform (h, c1, w1) <- exec arg closure w;
      perform (hs, c2, w2) <- Execute_args exec rest c1 w1;
      (Ok (h :: hs), c2, w2)
  end.

(** [VariableValue::Execute]; the recursive case runs
    [VariableValue(tail_)] on the fields of the instance found. *)
Fixpoint VariableValue_Execute (var_name_ : string) (tail_ : list string)
         (closure : Closure) (w : World) {struct tail_}
  : result ObjectHolder :=
  match closure !! var_name_ with
  | Some result_ =>
      match tail_ with
      | [] => Ok result_
      | t0 :: rest =>
          match runtime.Get result_ with
          | Some (runtime.ClassInstance addr _) =>
              VariableValue_Execute t0 rest (runtime.Fields w addr) w
          | _ => Raise (runtime.runtime_error
                          ("Variable " +:+ var_name_ +:+ " is not class"))
          end
      end
  | None => Raise (runtime.runtime_error
                     ("Variable " +:+ var_name_ +:+ " not found"))
  end.

Definition Assignment_Execute (exec : Exec) (var_ : string) (rv_ : Statement)
           (closure : Closure) (w : World) : Res :=
  perform (h, c1, w1) <- exec rv_ closure w;
  (Ok h, <[var_ := h]> c1, w1).

Definition FieldAssignment_Execute (exec : Exec) (object_var_name_ : string)
           (object_tail_ : list string) (field_name_ : string)
           (rv_ : Statement) (closure : Closure) (w : World) : Res :=
  match VariableValue_Execute object_var_name_ object_tail_ closure w with
  | Ok h =>
      match runtime.Get h with
      | Some (runtime.ClassInstance addr _) =>
          perform (v, c1, w1) <- exec rv_ closure w;
          (Ok v, c1,
           runtime.set_Fields w1 addr (<[field_name_ := v]> (runtime.Fields w1 addr)))
      | _ => throw "Object is not class!" closure w
      end
  | Raise s => (Raise s, closure, w)
  end.

Fixpoint Print_loop (fuel : nat) (exec : Exec) (args_ : list Statement)
         (first : bool) (closure : Closure) (w : World)
  : result unit * Closure * World :=
  match args_ with
  | [] => (Ok tt, closure, w)
  | arg :: rest =>
      let w0 := if first then w else os_write w " " in
      perform (obj, c1, w1) <- exec arg closure w0;
      match runtime.Get obj with
      | Some o =>
          match runtime.Object_Print fuel exec o runtime.context_stream
                                     EmptyString w1 with
          | (Ok _, (_, w2)) => Print_loop fuel exec rest false c1 w2
          | (Raise s, (_, w2)) => (Raise s, c1, w2)
          end
      | None => Print_loop fuel exec rest false c1 (os_write w1 EMPTY_OBJECT)
      end
  end.

Definition Print_Execute (fuel : nat) (exec : Exec) (args_ : list Statement)
           (closure : Closure) (w : World) : Res :=
  perform (_u, c1, w1) <- Print_loop fuel exec args_ true closure w;
  (Ok runtime.None_, c1, os_write w1 endl).

Definition MethodCall_Execute (exec : Exec) (object_ : Statement)
           (method_ : string) (args_ : list Statement)
           (closure : Closure) (w : World) : Res :=
  perform (h, c1, w1) <- exec object_ closure w;
  match runtime.Get h with
  | Some (runtime.ClassInstance addr cls_) =>
      perform (actual_args, c2, w2) <- Execute_args exec args_ c1 w1;
      let '(r, w3) := runtime.Call exec addr cls_ method_ actual_args w2 in
      (r, c2, w3)
  | _ => throw "Object is not class instance" c1 w1
  end.

Definition Stringify_Execute (fuel : nat) (exec : Exec) (argument_ : Statement)
           (closure : Closure) (w : World) : Res :=
  perform (obj, c1, w1) <- exec argument_ closure w;
  match runtime.Get obj with
  | Some o =>
      match runtime.Object_Print fuel exec o runtime.local_buffer
                                 EmptyString w1 with
      | (Ok _, (os, w2)) => (Ok (runtime.Own (runtime.String os)), c1, w2)
      | (Raise s, (_, w2)) => (Raise s, c1, w2)
      end
  | None => (Ok (runtime.Own (runtime.String EMPTY_OBJECT)), c1, w1)
  end.

(** The macro [BINARY_OPERATION(type, operation)] at [runtime::Number] and
    at [runtime::String]: [Some] is its [return]. *)
Definition BINARY_OPERATION_Number (operation : Z -> Z -> Z)
           (left_holder right_holder : ObjectHolder) : option ObjectHolder :=
  match runtime.Get left_holder, runtime.Get right_holder with
  | Some (runtime.Number l), Some (runtime.Number r) =>
      Some (runtime.Own (runtime.Number (operation l r)))
  | _, _ => None
  end.

Definition BINARY_OPERATION_String (operation : string -> string -> string)
           (left_holder right_holder : ObjectHolder) : option ObjectHolder :=
  match runtime.Get left_holder, runtime.Get right_holder with
  | Some (runtime.String l), Some (runtime.String r) =>
      Some (runtime.Own (runtime.String (operation l r)))
  | _, _ => None
  end.

(** The operators of [int]. *)
Definition int_add (l r : Z) : Z := int_wrap (l + r).
Definition int_sub (l r : Z) : Z := int_wrap (l - r).
Definition int_mul (l r : Z) : Z := int_wrap (l * r).

(** [l / r] on [int] is the quotient truncated toward zero.  It is
    undefined for a zero divisor and for [INT_MIN / -1], whose quotient is
    no [int]: [None]. *)
Definition int_div (l r : Z) : option Z :=
  if (r =? 0) || ((l =? INT_MIN) && (r =? -1)) then None
  else Some (int_wrap (Z.quot l r)).

Definition Add_Execute (exec : Exec) (lhs_ rhs_ : Statement)
           (closure : Closure) (w : World) : Res :=
  perform (left_holder, c1, w1) <- exec lhs_ closure w;
  perform (right_holder, c2, w2) <- exec rhs_ c1 w1;
  match BINARY_OPERATION_Number int_add left_holder right_holder with
  | Some res => (Ok res, c2, w2)
  | None =>
      match BINARY_OPERATION_String String.append left_holder right_holder with
      | Some res => (Ok res, c2, w2)
      | None =>
          match runtime.Get left_holder with
          | Some (runtime.ClassInstance addr cls_) =>
              let '(r, w3) :=
                runtime.Call exec addr cls_ ADD_METHOD [right_holder] w2 in
              (r, c2, w3)
          | _ => throw ("Can add only numbers, strings and class instances with "
                        +:+ ADD_METHOD) c2 w2
          end
      end
  end.

Definition Sub_Execute (exec : Exec) (lhs_ rhs_ : Statement)
           (closure : Closure) (w : World) : Res :=
  perform (left_holder, c1, w1) <- exec lhs_ closure w;
  perform (right_holder, c2, w2) <- exec rhs_ c1 w1;
  match BINARY_OPERATION_Number int_sub left_holder right_holder with
  | Some res => (Ok res, c2, w2)
  | None => throw "Can subtract only numbers" c2 w2
  end.

Definition Mult_Execute (exec : Exec) (lhs_ rhs_ : Statement)
           (closure : Closure) (w : World) : Res :=
  perform (left_holder, c1, w1) <- exec lhs_ closure w;
  perform (right_holder, c2, w2) <- exec rhs_ c1 w1;
  match BINARY_OPERATION_Number int_mul left_holder right_holder with
  | Some res => (Ok res, c2, w2)
  | None => throw "Can multiply only numbers" c2 w2
  end.

(** [right && right->GetValue() == 0]. *)
Definition is_Number_zero (right_holder : ObjectHolder) : bool :=
  match runtime.Get right_holder with
  | Some (runtime.Number v) => v =? 0
  | _ => false
  end.

(** [BINARY_OPERATION(runtime::Number, /)] is written out: of the four
    operators [/] alone has operands without a result. *)
Definition Div_Execute (exec : Exec) (lhs_ rhs_ : Statement)
           (closure : Closure) (w : World) : Res :=
  perform (left_holder, c1, w1) <- exec lhs_ closure w;
  perform (right_holder, c2, w2) <- exec rhs_ c1 w1;
  if is_Number_zero right_holder then throw "Division by zero" c2 w2
  else
    match runtime.Get left_holder, runtime.Get right_holder with
    | Some (runtime.Number l), Some (runtime.Number r) =>
        match int_div l r with
        | Some quotient =>
            (Ok (runtime.Own (runtime.Number quotient)), c2, w2)
        | None => (Raise runtime.undefined_behaviour, c2, w2)
        end
    | _, _ => throw "Can divide only numbers" c2 w2
    end.

Fixpoint Compound_loop (exec : Exec) (args_ : list Statement)
         (closure : Closure) (w : World) : result unit * Closure * World :=
  match args_ with
  | [] => (Ok tt, closure, w)
  | arg :: rest =>
      perform (_h, c1, w1) <- exec arg closure w;
      Compound_loop exec rest c1 w1
  end.

Definition Compound_Execute (exec : Exec) (args_ : list Statement)
           (closure : Closure) (w : World) : Res :=
  perform (_u, c1, w1) <- Compound_loop exec args_ closure w;
  (Ok runtime.None_, c1, w1).

(** [throw statement_->Execute(closure, context)]. *)
Definition Return_Execute (exec : Exec) (statement_ : Statement)
           (closure : Closure) (w : World) : Res :=
  perform (h, c1, w1) <- exec statement_ closure w;
  (Raise (runtime.ThrowHolder h), c1, w1).

(** The holder [cls_] of a [ClassDefinition] is guaranteed to hold a
    [runtime::Class]; it refers to a class owned elsewhere. *)
Definition ClassDefinition_Execute (cls_ : Class)
           (closure : Closure) (w : World) : Res :=
  (Ok runtime.None_,
   <[runtime.GetName cls_ := runtime.Share (runtime.OfClass cls_)]> closure, w).

Definition IfElse_Execute (exec : Exec) (condition_ if_body_ : Statement)
           (else_body_ : option Statement)
           (closure : Closure) (w : World) : Res :=
  perform (cond, c1, w1) <- exec condition_ closure w;
  if runtime.IsTrue cond then exec if_body_ c1 w1
  else
    match else_body_ with
    | Some else_body => exec else_body c1 w1
    | None => (Ok runtime.None_, c1, w1)
    end.

Definition Or_Execute (exec : Exec) (lhs_ rhs_ : Statement)
           (closure : Closure) (w : World) : Res :=
  perform (l, c1, w1) <- exec lhs_ closure w;
  if runtime.IsTrue l then (Ok (runtime.Own (runtime.Bool true)), c1, w1)
  else
    perform (r, c2, w2) <- exec rhs_ c1 w1;
    (Ok (runtime.Own (runtime.Bool (runtime.IsTrue r))), c2, w2).

Definition And_Execute (exec : Exec) (lhs_ rhs_ : Statement)
           (closure : Closure) (w : World) : Res :=
  perform (l, c1, w1) <- exec lhs_ closure w;
  if runtime.IsTrue l then
    perform (r, c2, w2) <- exec rhs_ c1 w1;
    (Ok (runtime.Own (runtime.Bool (runtime.IsTrue r))), c2, w2)
  else (Ok (runtime.Own (runtime.Bool false)), c1, w1).

Definition Not_Execute (exec : Exec) (argument_ : Statement)
           (closure : Closure) (w : World) : Res :=
  perform (a, c1, w1) <- exec argument_ closure w;
  (Ok (runtime.Own (runtime.Bool (negb (runtime.IsTrue a)))), c1, w1).

(** The comparators a [Comparison] is built with are the six of
    [runtime.h]. *)
Definition apply_Comparator (cmp_ : Comparator) (exec : Exec)
           (lhs rhs : ObjectHolder) (w : World) : result bool * World :=
  match cmp_ with
  | cmp_Equal => runtime.Equal exec lhs rhs w
  | cmp_NotEqual => runtime.NotEqual exec lhs rhs w
  | cmp_Less => runtime.Less exec lhs rhs w
  | cmp_Greater => runtime.Greater exec lhs rhs w
  | cmp_LessOrEqual => runtime.LessOrEqual exec lhs rhs w
  | cmp_GreaterOrEqual => runtime.GreaterOrEqual exec lhs rhs w
  end.

(** [cmp_(lhs_->Execute(...), rhs_->Execute(...), context)]: the two
    operands are arguments of one call, and the language does not say which
    is evaluated first.  They are taken in the order of the compiled
    program, which evaluates the arguments of a call from the last to the
    first: [rhs_], then [lhs_]. *)
Definition Comparison_Execute (exec : Exec) (cmp_ : Comparator)
           (lhs_ rhs_ : Statement) (closure : Closure) (w : World) : Res :=
  perform (r, c1, w1) <- exec rhs_ closure w;
  perform (l, c2, w2) <- exec lhs_ c1 w1;
  match apply_Comparator cmp_ exec l r w2 with
  | (Ok b, w3) => (Ok (runtime.Own (runtime.Bool b)), c2, w3)
  | (Raise s, w3) => (Raise s, c2, w3)
  end.

Definition NewInstance_Execute (exec : Exec) (class_instance_ : nat)
           (class_ : Class) (args_ : list Statement)
           (closure : Closure) (w : World) : Res :=
  let self := runtime.Share (runtime.ClassInstance class_instance_ class_) in
  if runtime.HasMethod class_ INIT_METHOD (length args_) then
    perform (actual_args, c1, w1) <- Execute_args exec args_ closure w;
    match runtime.Call exec class_instance_ class_ INIT_METHOD actual_args w1 with
    | (Ok _, w2) => (Ok self, c1, w2)
    | (Raise s, w2) => (Raise s, c1, w2)
    end
  else (Ok self, closure, w).

(** [try { body_->Execute; return None } catch (ObjectHolder &result)
    { return result; } catch (...) { throw; }]. *)
Definition MethodBody_Execute (exec : Exec) (body_ : Statement)
           (closure : Closure) (w : World) : Res :=
  match exec body_ closure w with
  | (Ok _, c1, w1) => (Ok runtime.None_, c1, w1)
  | (Raise (runtime.ThrowHolder result_), c1, w1) => (Ok result_, c1, w1)
  | (Raise s, c1, w1) => (Raise s, c1, w1)
  end.

(** The virtual [Execute]: dispatch on the node, children run with one
    unit of fuel less. *)
Fixpoint Execute (fuel : nat) (s : Statement) (closure : Closure) (w : World)
  : Res :=
  match fuel with
  | O => (Raise runtime.out_of_fuel, closure, w)
  | S n =>
      let exec := Execute n in
      match s with
      | NumericConst v => (Ok (runtime.Share (runtime.Number v)), closure, w)
      | StringConst v => (Ok (runtime.Share (runtime.String v)), closure, w)
      | BoolConst v => (Ok (runtime.Share (runtime.Bool v)), closure, w)
      | NoneConst => (Ok runtime.None_, closure, w)
      | VariableValue var_name_ tail_ =>
          (VariableValue_Execute var_name_ tail_ closure w, closure, w)
      | Assignment var_ rv_ => Assignment_Execute exec var_ rv_ closure w
      | FieldAssignment v t f rv_ =>
          FieldAssignment_Execute exec v t f rv_ closure w
      | Print args_ => Print_Execute n exec args_ closure w
      | MethodCall object_ method_ args_ =>
          MethodCall_Execute exec object_ method_ args_ closure w
      | NewInstance addr class_ args_ =>
          NewInstance_Execute exec addr class_ args_ closure w
      | Stringify argument_ => Stringify_Execute n exec argument_ closure w
      | Add lhs_ rhs_ => Add_Execute exec lhs_ rhs_ closure w
      | Sub lhs_ rhs_ => Sub_Execute exec lhs_ rhs_ closure w
      | Mult lhs_ rhs_ => Mult_Execute exec lhs_ rhs_ closure w
      | Div lhs_ rhs_ => Div_Execute exec lhs_ rhs_ closure w
      | Or lhs_ rhs_ => Or_Execute exec lhs_ rhs_ closure w
      | And lhs_ rhs_ => And_Execute exec lhs_ rhs_ closure w
      | Not argument_ => Not_Execute exec argument_ closure w
      | Compound args_ => Compound_Execute exec args_ closure w
      | MethodBody body_ => MethodBody_Execute exec body_ closure w
      | Return statement_ => Return_Execute exec statement_ closure w
      | ClassDefinition cls_ => ClassDefinition_Execute cls_ closure w
      | IfElse c t e => IfElse_Execute exec c t e closure w
      | Comparison cmp_ lhs_ rhs_ =>
          Comparison_Execute exec cmp_ lhs_ rhs_ closure w
      end
  end.

End ast.

(** ** Lexer *)

Module token_type.

(** The alternatives of [parse::TokenBase], in the order of the variant. *)
Inductive Token : Type :=
| Number (value : Z)
| Id (value : string)
| Char (value : ascii)
| String (value : string)
| Class
| Return
| If
| Else
| Def
| Newline
| Print
| Indent
| Dedent
| And
| Or
| Not
| Eq
| NotEq
| LessOrEq
| GreaterOrEq
| None
| True
| False
| Eof.

End token_type.

Abbreviation Token := token_type.Token.

(** What the lexer can throw: [ReadString] throws a [std::runtime_error],
    [std::stoi] a [std::out_of_range]. *)
Inductive exception : Type :=
| std_runtime_error (what : string)
| std_out_of_range (what : string).

Inductive lex_result (A : Type) : Type :=
| LexOk (a : A)
| LexThrow (e : exception)
| LexOutOfFuel.
Arguments LexOk {A} a.
Arguments LexThrow {A} e.
Arguments LexOutOfFuel {A}.

Module util.

(** [(char) std::ios::traits_type::eof()]: what [char ch = input.peek()]
    holds at the end of the stream. *)
Definition EOF_char : ascii := "255"%char.

Definition peek (input : list ascii) : ascii :=
  match input with
  | [] => EOF_char
  | c :: _ => c
  end.

Definition code (ch : ascii) : N := N_of_ascii ch.

Definition in_range (lo hi : ascii) (ch : ascii) : bool :=
  (N.leb (code lo) (code ch) && N.leb (code ch) (code hi))%bool.

Definition IsNum (ch : ascii) : bool := in_range "0" "9" ch.

Definition IsAlpha (ch : ascii) : bool :=
  (in_range "A" "Z" ch || in_range "a" "z" ch)%bool.

Definition IsAlNum (ch : ascii) : bool := (IsAlpha ch || IsNum ch)%bool.

Definition IsAlNumLL (ch : ascii) : bool :=
  (IsAlNum ch || Ascii.eqb ch "_")%bool.

(** [line += c]. *)
Definition push_back (line : string) (c : ascii) : string :=
  line +:+ String.String c EmptyString.

(** The loops [while (input.get(c)) { if (p c) ... else { putback; break } }]
    of [ReadName], [ReadNumber] and [CountSpaces]. *)
Fixpoint read_while (p : ascii -> bool) (line : string) (input : list ascii)
  : string * list ascii :=
  match input with
  | [] => (line, [])
  | c :: rest =>
      if p c then read_while p (push_back line c) rest
      else (line, input)
  end.

Definition quote : ascii := "034"%char.
Definition apostrophe : ascii := "'"%char.
Definition backslash : ascii := "\"%char.
Definition line_feed : ascii := "010"%char.
Definition tab : ascii := "009"%char.

(** The loop of [ReadString]; [c] is the character read last ([None]
    while nothing was read).  A backslash at the very end of the input
    leaves [next] unread and the loop ends on the following [get]. *)
Fixpoint ReadString_loop (first : ascii) (line : string) (c : option ascii)
         (input : list ascii) : string * option ascii * list ascii :=
  match input with
  | [] => (line, c, [])
  | ch :: rest =>
      if Ascii.eqb ch backslash then
        match rest with
        | [] => (line, Some ch, [])
        | next :: rest' =>
            let line' :=
              if Ascii.eqb next quote then push_back line quote
              else if Ascii.eqb next apostrophe then push_back line apostrophe
              else if Ascii.eqb next "n" then push_back line line_feed
              else if Ascii.eqb next "t" then push_back line tab
              else line in
            ReadString_loop first line' (Some ch) rest'
        end
      else if Ascii.eqb ch first then (line, Some ch, rest)
      else ReadString_loop first (push_back line ch) (Some ch) rest
  end.

(** [ReadString]; the stream is at the opening quote.  When the input ends
    right after the opening quote, [c] was never written; the comparison
    [c != first] is then taken to hold. *)
Definition ReadString (input : list ascii) : lex_result string * list ascii :=
  match input with
  | [] => (LexThrow (std_runtime_error "Failed to parse string : "), [])
  | first :: rest =>
      let '(line, c, rest') := ReadString_loop first EmptyString None rest in
      match c with
      | Some c' =>
          if Ascii.eqb c' first then (LexOk line, rest')
          else (LexThrow (std_runtime_error
                            ("Failed to parse string : " +:+ line)), rest')
      | None => (LexThrow (std_runtime_error
                             ("Failed to parse string : " +:+ line)), rest')
      end
  end.

Definition ReadName (input : list ascii) : string * list ascii :=
  read_while IsAlNumLL EmptyString input.

(** [CountSpaces]: the number of spaces skipped, a [size_t]. *)
Definition CountSpaces (input : list ascii) : Z * list ascii :=
  let '(spaces, rest) := read_while (Ascii.eqb " ") EmptyString input in
  (Z.of_nat (String.length spaces), rest).

(** [getline]: drops the rest of the line with its line feed. *)
Fixpoint ReadLine (input : list ascii) : list ascii :=
  match input with
  | [] => []
  | c :: rest => if Ascii.eqb c line_feed then rest else ReadLine rest
  end.

(** The value of a string of decimal digits. *)
Definition digit_value (c : ascii) : Z := Z.of_N (code c) - 48.

Fixpoint decimal_value (acc : Z) (num : string) : Z :=
  match num with
  | EmptyString => acc
  | String.String c rest => decimal_value (acc * 10 + digit_value c) rest
  end.

(** [std::stoi] on a non-empty string of decimal digits: the value when it
    is an [int], [std::out_of_range] otherwise. *)
Definition stoi (num : string) : lex_result Z :=
  let v := decimal_value 0 num in
  if v <=? INT_MAX then LexOk v
  else LexThrow (std_out_of_range "stoi").

Definition ReadNumber (input : list ascii) : lex_result Z * list ascii :=
  let '(num, rest) := read_while IsNum EmptyString input in
  if String.eqb num EmptyString then (LexOk 0, rest)
  else (stoi num, rest).

Definition KeyWords (name : string) : option Token :=
  if String.eqb name "class" then Some token_type.Class
  else if String.eqb name "return" then Some token_type.Return
  else if String.eqb name "if" then Some token_type.If
  else if String.eqb name "else" then Some token_type.Else
  else if String.eqb name "def" then Some token_type.Def
  else if String.eqb name "print" then Some token_type.Print
  else if String.eqb name "and" then Some token_type.And
  else if String.eqb name "or" then Some token_type.Or
  else if String.eqb name "not" then Some token_type.Not
  else if String.eqb name "None" then Some token_type.None
  else if String.eqb name "True" then Some token_type.True
  else if String.eqb name "False" then Some token_type.False
  else None.

Definition DualSymbols (sym_pair : string) : option Token :=
  if String.eqb sym_pair "==" then Some token_type.Eq
  else if String.eqb sym_pair "!=" then Some token_type.NotEq
  else if String.eqb sym_pair ">=" then Some token_type.GreaterOrEq
  else if String.eqb sym_pair "<=" then Some token_type.LessOrEq
  else None.

End util.

Module parse.

Record Lexer : Type := mkLexer {
  input_ : list ascii;
  start_of_line_ : bool;
  current_indent_ : Z;
  line_indent_ : Z;
  current_token_ : Token
}.

Definition set_token (lx : Lexer) (t : Token) : Lexer :=
  mkLexer (input_ lx) (start_of_line_ lx) (current_indent_ lx)
          (line_indent_ lx) t.

(** [NextLine]: skip the line, the next one starts with no indent seen. *)
Definition NextLine (lx : Lexer) : Lexer :=
  mkLexer (util.ReadLine (input_ lx)) true (current_indent_ lx) 0
          (current_token_ lx).

Definition ParseEOF (lx : Lexer) : Lexer :=
  if negb (start_of_line_ lx) then
    set_token (NextLine lx) token_type.Newline
  else if 0 <? current_indent_ lx then
    mkLexer (input_ lx) (start_of_line_ lx)
            (uint32_wrap (current_indent_ lx - 1)) (line_indent_ lx)
            token_type.Dedent
  else set_token lx token_type.Eof.

Definition ParseIndent (lx : Lexer) : Lexer :=
  if current_indent_ lx <? line_indent_ lx then
    mkLexer (input_ lx) (start_of_line_ lx)
            (uint32_wrap (current_indent_ lx + 1)) (line_indent_ lx)
            token_type.Indent
  else if line_indent_ lx <? current_indent_ lx then
    mkLexer (input_ lx) (start_of_line_ lx)
            (uint32_wrap (current_indent_ lx - 1)) (line_indent_ lx)
            token_type.Dedent
  else lx.

Definition ParseName (lx : Lexer) : Lexer :=
  let '(name, rest) := util.ReadName (input_ lx) in
  let t := match util.KeyWords name with
           | Some kw => kw
           | None => token_type.Id name
           end in
  mkLexer rest (start_of_line_ lx) (current_indent_ lx) (line_indent_ lx) t.

(** [sym_pair] is the character read followed by the one peeked. *)
Definition ParseChar (lx : Lexer) : Lexer :=
  match input_ lx with
  | [] => set_token lx (token_type.Char util.EOF_char)
  | c :: rest =>
      let sym_pair :=
        String.String c (String.String (util.peek rest) EmptyString) in
      match util.DualSymbols sym_pair with
      | Some t =>
          mkLexer (tl rest) (start_of_line_ lx) (current_indent_ lx)
                  (line_indent_ lx) t
      | None =>
          mkLexer rest (start_of_line_ lx) (current_indent_ lx)
                  (line_indent_ lx) (token_type.Char c)
      end
  end.

Definition with_input (lx : Lexer) (rest : list ascii) (t : Token) : Lexer :=
  mkLexer rest (start_of_line_ lx) (current_indent_ lx) (line_indent_ lx) t.

Definition ParseToken (lx : Lexer) : lex_result Lexer :=
  let ch := util.peek (input_ lx) in
  if util.IsNum ch then
    match util.ReadNumber (input_ lx) with
    | (LexOk v, rest) => LexOk (with_input lx rest (token_type.Number v))
    | (LexThrow e, _) => LexThrow e
    | (LexOutOfFuel, _) => LexOutOfFuel
    end
  else if util.IsAlNumLL ch then LexOk (ParseName lx)
  else if (Ascii.eqb ch util.quote || Ascii.eqb ch util.apostrophe)%bool then
    match util.ReadString (input_ lx) with
    | (LexOk s, rest) => LexOk (with_input lx rest (token_type.String s))
    | (LexThrow e, _) => LexThrow e
    | (LexOutOfFuel, _) => LexOutOfFuel
    end
  else LexOk (ParseChar lx).

(** [ParseComment]: skip up to the line feed, which is put back. *)
Fixpoint skip_comment (input : list ascii) : list ascii :=
  match input with
  | [] => []
  | c :: rest => if Ascii.eqb c util.line_feed then input else skip_comment rest
  end.

Definition ParseComment (next : Lexer -> lex_result Lexer) (lx : Lexer)
  : lex_result Lexer :=
  next (mkLexer (skip_comment (input_ lx)) (start_of_line_ lx)
                (current_indent_ lx) (line_indent_ lx) (current_token_ lx)).

Definition ParseLineEnd (next : Lexer -> lex_result Lexer) (lx : Lexer)
  : lex_result Lexer :=
  if start_of_line_ lx then next (NextLine lx)
  else LexOk (set_token (NextLine lx) token_type.Newline).

Definition ParseSpaces (next : Lexer -> lex_result Lexer) (lx : Lexer)
  : lex_result Lexer :=
  let '(spaces_count, rest) := util.CountSpaces (input_ lx) in
  let line_indent :=
    if start_of_line_ lx then uint32_wrap (spaces_count / 2)
    else line_indent_ lx in
  next (mkLexer rest (start_of_line_ lx) (current_indent_ lx) line_indent
                (current_token_ lx)).

(** [ReadNextToken].  It calls itself after a blank line, a comment or a
    run of spaces, each time on a shorter input; [fuel] bounds these
    calls. *)
Fixpoint ReadNextToken_fuel (fuel : nat) (lx : Lexer) : lex_result Lexer :=
  match fuel with
  | O => LexOutOfFuel
  | S n =>
      let ch := util.peek (input_ lx) in
      if Ascii.eqb ch util.EOF_char then LexOk (ParseEOF lx)
      else if Ascii.eqb ch util.line_feed then
        ParseLineEnd (ReadNextToken_fuel n) lx
      else if Ascii.eqb ch "#" then ParseComment (ReadNextToken_fuel n) lx
      else if Ascii.eqb ch " " then ParseSpaces (ReadNextToken_fuel n) lx
      else if (start_of_line_ lx
               && negb (current_indent_ lx =? line_indent_ lx))%bool then
        LexOk (ParseIndent lx)
      else
        match ParseToken lx with
        | LexOk lx' =>
            LexOk (mkLexer (input_ lx') false (current_indent_ lx')
                           (line_indent_ lx') (current_token_ lx'))
        | LexThrow e => LexThrow e
        | LexOutOfFuel => LexOutOfFuel
        end
  end.

(** One more call than there are characters left is always enough. *)
Definition ReadNextToken (lx : Lexer) : lex_result Lexer :=
  ReadNextToken_fuel (S (length (input_ lx))) lx.

(** The constructor: the members' initial values, then [ReadNextToken]. *)
Definition Lexer_new (input : list ascii) : lex_result Lexer :=
  ReadNextToken (mkLexer input true 0 0 (token_type.Number 0)).

Definition CurrentToken (lx : Lexer) : Token := current_token_ lx.

(** [NextToken] returns [current_token_] of the lexer it leaves. *)
Definition NextToken (lx : Lexer) : lex_result Lexer := ReadNextToken lx.

Definition is_Eof (t : Token) : bool :=
  match t with token_type.Eof => true | _ => false end.

(** How a reader of the whole stream ends: at [Eof], on an exception, or
    with calls left to make. *)
Inductive stream_end : Type :=
| at_Eof
| threw (e : exception)
| more_calls.

(** The tokens a client sees: [CurrentToken], then [NextToken] until
    [Eof]; at most [calls] tokens are taken. *)
Fixpoint tokens_from (calls : nat) (lx : Lexer) : list Token * stream_end :=
  match calls with
  | O => ([], more_calls)
  | S n =>
      let t := CurrentToken lx in
      if is_Eof t then ([t], at_Eof)
      else
        match NextToken lx with
        | LexOk lx' =>
            let '(ts, e) := tokens_from n lx' in (t :: ts, e)
        | LexThrow e => ([t], threw e)
        | LexOutOfFuel => ([t], more_calls)
        end
  end.

(** The tokens returned by successive calls of [NextToken], up to [Eof]. *)
Definition tokens_after (calls : nat) (lx : Lexer) : list Token * stream_end :=
  match NextToken lx with
  | LexOk lx' => tokens_from calls lx'
  | LexThrow e => ([], threw e)
  | LexOutOfFuel => ([], more_calls)
  end.

Definition tokenize (calls : nat) (input : list ascii)
  : list Token * stream_end :=
  match Lexer_new input with
  | LexOk lx => tokens_from calls lx
  | LexThrow e => ([], threw e)
  | LexOutOfFuel => ([], more_calls)
  end.

End parse.

(** ** Sample programs *)

Module samples.

Definition w0 : runtime.World := runtime.mkWorld ∅ EmptyString.

Definition self : Statement := VariableValue "self" [].

(** [g] returns from inside an [if]; [f] calls [g], goes on and returns a
    value of its own; [h] calls [g] and ends without a [return]. *)
Definition class_T : Class :=
  mkClass "T"
    [ mkMethod "g" []
        (MethodBody
           (Compound
              [ IfElse (BoolConst true)
                       (Compound [Return (NumericConst 5)]) None;
                Print [StringConst "not reached"] ]));
      mkMethod "f" []
        (MethodBody
           (Compound
              [ Assignment "r" (MethodCall self "g" []);
                Return (Add (VariableValue "r" []) (NumericConst 2)) ]));
      mkMethod "h" []
        (MethodBody (Compound [ MethodCall self "g" [] ])) ]
    None.

(** [Base.__init__] takes one argument, [Derived.__init__] none. *)
Definition class_Base : Class :=
  mkClass "Base"
    [ mkMethod "__init__" ["a"]
        (MethodBody (Compound [FieldAssignment "self" [] "a"
                                               (VariableValue "a" [])])) ]
    None.

Definition class_Derived : Class :=
  mkClass "Derived"
    [ mkMethod "__init__" [] (MethodBody (Compound [])) ]
    (Some class_Base).

(** An argument with a visible effect: it assigns and prints. *)
Definition noisy : Statement :=
  Compound [ Assignment "seen" (NumericConst 1); Print [StringConst "noisy"] ].

(** A class whose [__str__] prints before it returns its text. *)
Definition class_Loud : Class :=
  mkClass "Loud"
    [ mkMethod "__str__" []
        (MethodBody (Compound [ Print [StringConst "asked"];
                                Return (StringConst "loud") ])) ]
    None.

(** [class A: def f(): return 1], [class B(A): def g(): return self.f() + 10],
    [print B().g()]. *)
Definition class_A : Class :=
  mkClass "A"
    [ mkMethod "f" [] (MethodBody (Compound [Return (NumericConst 1)])) ]
    None.

Definition class_B : Class :=
  mkClass "B"
    [ mkMethod "g" []
        (MethodBody
           (Compound [Return (Add (MethodCall self "f" []) (NumericConst 10))])) ]
    (Some class_A).

Definition inheritance_program : Statement :=
  Compound [ ClassDefinition class_A; ClassDefinition class_B;
             Print [MethodCall (NewInstance 0 class_B []) "g" []] ].

(** [x = 0], [y = x or "fallback"], [print y]. *)
Definition fallback_program : Statement :=
  Compound [ Assignment "x" (NumericConst 0);
             Assignment "y" (Or (VariableValue "x" []) (StringConst "fallback"));
             Print [VariableValue "y" []] ].

(** [print T().f(), T().h()] with the class [T] above. *)
Definition nested_return_program : Statement :=
  Print [ MethodCall (NewInstance 0 class_T []) "f" [];
          MethodCall (NewInstance 1 class_T []) "h" [] ].

(** Two nested blocks closed by the end of the input. *)
Definition indented_source : list ascii :=
  list_ascii_of_string
    ("class A:" +:+ String.String "010"%char
       ("  def f():" +:+ String.String "010"%char "    return 1")).

(** [g(a)] returns from inside an [if], two nodes below its [MethodBody];
    [f] uses the value of [self.g(4)] inside a sum, goes on and returns a
    value of its own; [h] is the call alone. *)
Definition g_call : Statement := MethodCall self "g" [NumericConst 4].

Definition class_R : Class :=
  mkClass "R"
    [ mkMethod "g" ["a"]
        (MethodBody
           (Compound
              [ IfElse (Comparison cmp_Less (VariableValue "a" [])
                                   (NumericConst 10))
                       (Compound
                          [ Return (Add (VariableValue "a" [])
                                        (NumericConst 1));
                            Print [StringConst "not reached"] ])
                       None;
                Print [StringConst "not reached either"] ]));
      mkMethod "f" []
        (MethodBody
           (Compound
              [ Assignment "r" (Add g_call (NumericConst 100));
                Return (VariableValue "r" []) ]));
      mkMethod "h" [] (MethodBody g_call) ]
    None.

(** The closure of a method of the instance of [R] at address 0, called
    without arguments. *)
Definition in_R : runtime.Closure :=
  <["self" := runtime.Share (runtime.ClassInstance 0 class_R)]> ∅.

End samples.

(** ** Vocabulary of the properties *)

Module properties.

(** A holder of a [Bool], a [Number] or a [String]. *)
Definition is_primitive (h : runtime.ObjectHolder) : bool :=
  match runtime.Get h with
  | Some (runtime.Bool _) | Some (runtime.Number _)
  | Some (runtime.String _) => true
  | _ => false
  end.

(** Two holders of the same primitive kind. *)
Definition same_primitive_kind (a b : runtime.ObjectHolder) : bool :=
  match runtime.Get a, runtime.Get b with
  | Some (runtime.Bool _), Some (runtime.Bool _)
  | Some (runtime.Number _), Some (runtime.Number _)
  | Some (runtime.String _), Some (runtime.String _) => true
  | _, _ => false
  end.

Definition exactly_one (p q r : bool) : bool :=
  match p, q, r with
  | true, false, false | false, true, false | false, false, true => true
  | _, _, _ => false
  end.

(** [Less(a,b)], [Equal(a,b)] and [Less(b,a)] all return, leave the world
    alone, and exactly one of "less and not equal", "equal", "greater and
    not equal" holds. *)
Definition comparison_total (exec : runtime.Exec) (w : runtime.World)
           (a b : runtime.ObjectHolder) : Prop :=
  exists lt eq gt : bool,
    runtime.Less exec a b w = (runtime.Ok lt, w)
    /\ runtime.Equal exec a b w = (runtime.Ok eq, w)
    /\ runtime.Less exec b a w = (runtime.Ok gt, w)
    /\ exactly_one (lt && negb eq) eq (gt && negb eq) = true.

(** *** Token streams *)

Definition is_Indent (t : Token) : bool :=
  match t with token_type.Indent => true | _ => false end.

Definition is_Dedent (t : Token) : bool :=
  match t with token_type.Dedent => true | _ => false end.

Definition count (p : Token -> bool) (toks : list Token) : nat :=
  length (List.filter p toks).

(** A stream that ends with its only [Eof], with as many [Indent]s as
    [Dedent]s before it. *)
Definition balanced_up_to_Eof (toks : list Token) : Prop :=
  exists body,
    toks = body ++ [token_type.Eof]
    /\ forallb (fun t => negb (parse.is_Eof t)) body = true
    /\ count is_Indent body = count is_Dedent body.

(** Reading the input token by token reaches [Eof], and the stream read is
    balanced. *)
Definition lexes_to_Eof (input : list ascii) : Prop :=
  exists calls toks,
    parse.tokenize calls input = (toks, parse.at_Eof)
    /\ balanced_up_to_Eof toks.

(** Reading the input token by token ends on an exception. *)
Definition lexing_throws (input : list ascii) : Prop :=
  exists calls toks e, parse.tokenize calls input = (toks, parse.threw e).

(** What a token adds to the indent counter. *)
Definition delta (t : Token) : Z :=
  match t with
  | token_type.Indent => 1
  | token_type.Dedent => -1
  | _ => 0
  end.

(** Both counters hold a [uint32_t]. *)
Definition counters_ok (lx : parse.Lexer) : Prop :=
  0 <= parse.current_indent_ lx < UINT32_MODULUS
  /\ 0 <= parse.line_indent_ lx < UINT32_MODULUS.

Definition at_end (lx : parse.Lexer) : bool :=
  Ascii.eqb (util.peek (parse.input_ lx)) util.EOF_char.

(** The number of calls of [NextToken] that can still follow without a
    character being consumed. *)
Definition pending (lx : parse.Lexer) : Z :=
  if at_end lx then
    if parse.start_of_line_ lx then parse.current_indent_ lx
    else parse.current_indent_ lx + 1
  else
    if parse.start_of_line_ lx
    then Z.abs (parse.current_indent_ lx - parse.line_indent_ lx)
    else 0.

(** A quantity that every call of [NextToken] which does not return [Eof]
    decreases. *)
Definition measure (lx : parse.Lexer) : Z :=
  Z.of_nat (length (parse.input_ lx)) * (UINT32_MODULUS + 1) + pending lx.

(** What is asked of the stream read from a lexer: it ends, at [Eof] or on
    an exception, and at [Eof] the [Indent]s and [Dedent]s read make up for
    the indent counter. *)
Definition stream_ends (lx : parse.Lexer) : Prop :=
  exists calls toks e,
    parse.tokens_from calls lx = (toks, e)
    /\ e <> parse.more_calls
    /\ (e = parse.at_Eof ->
        exists body,
          toks = body ++ [token_type.Eof]
          /\ forallb (fun t => negb (parse.is_Eof t)) body = true
          /\ Z.of_nat (count is_Indent body)
             - Z.of_nat (count is_Dedent body)
             = delta (parse.current_token_ lx) - parse.current_indent_ lx).

End properties.

(** ** Positions inside a method body *)

Module position.

Import runtime(Closure, World, Ok, Raise).

(** The nodes with a left and a right operand. *)
Inductive BinaryOperation : Type :=
| op_Add
| op_Sub
| op_Mult
| op_Div
| op_Or
| op_And
| op_Comparison (cmp_ : Comparator).

Definition binary (op : BinaryOperation) (lhs_ rhs_ : Statement) : Statement :=
  match op with
  | op_Add => Add lhs_ rhs_
  | op_Sub => Sub lhs_ rhs_
  | op_Mult => Mult lhs_ rhs_
  | op_Div => Div lhs_ rhs_
  | op_Or => Or lhs_ rhs_
  | op_And => And lhs_ rhs_
  | op_Comparison cmp_ => Comparison cmp_ lhs_ rhs_
  end.

(** A [Return], or a call, is executed somewhere inside the body of a
    method: under [Compound]s and branches of [IfElse]s, as an operand, as
    an argument.  A [Position] is a statement with one node taken out; it
    names, from the outside in, the child of every node on the way that
    leads to the missing node.  Every kind of node with children is there
    but [MethodBody]: a position stays inside one method invocation. *)
Inductive Position : Type :=
| Here
| in_Assignment (var_ : string) (P : Position)
| in_FieldAssignment (object_var_name_ : string) (object_tail_ : list string)
                     (field_name_ : string) (P : Position)
| in_Print (before : list Statement) (P : Position) (after : list Statement)
| in_MethodCall_object (P : Position) (method_ : string)
                       (args_ : list Statement)
| in_MethodCall_args (object_ : Statement) (method_ : string)
                     (before : list Statement) (P : Position)
                     (after : list Statement)
| in_NewInstance (class_instance_ : nat) (class_ : Class)
                 (before : list Statement) (P : Position)
                 (after : list Statement)
| in_Stringify (P : Position)
| in_lhs (op : BinaryOperation) (P : Position) (rhs_ : Statement)
| in_rhs (op : BinaryOperation) (lhs_ : Statement) (P : Position)
| in_Not (P : Position)
| in_Compound (before : list Statement) (P : Position)
              (after : list Statement)
| in_Return (P : Position)
| in_condition (P : Position) (if_body_ : Statement)
               (else_body_ : option Statement)
| in_if_body (condition_ : Statement) (P : Position)
             (else_body_ : option Statement)
| in_else_body (condition_ if_body_ : Statement) (P : Position).

(** The statement with [s] at the position. *)
Fixpoint plug (P : Position) (s : Statement) : Statement :=
  match P with
  | Here => s
  | in_Assignment var_ P => Assignment var_ (plug P s)
  | in_FieldAssignment v t f P => FieldAssignment v t f (plug P s)
  | in_Print before P after => Print (before ++ plug P s :: after)
  | in_MethodCall_object P method_ args_ =>
      MethodCall (plug P s) method_ args_
  | in_MethodCall_args object_ method_ before P after =>
      MethodCall object_ method_ (before ++ plug P s :: after)
  | in_NewInstance addr class_ before P after =>
      NewInstance addr class_ (before ++ plug P s :: after)
  | in_Stringify P => Stringify (plug P s)
  | in_lhs op P rhs_ => binary op (plug P s) rhs_
  | in_rhs op lhs_ P => binary op lhs_ (plug P s)
  | in_Not P => Not (plug P s)
  | in_Compound before P after => Compound (before ++ plug P s :: after)
  | in_Return P => Return (plug P s)
  | in_condition P if_body_ else_body_ =>
      IfElse (plug P s) if_body_ else_body_
  | in_if_body condition_ P else_body_ =>
      IfElse condition_ (plug P s) else_body_
  | in_else_body condition_ if_body_ P =>
      IfElse condition_ if_body_ (Some (plug P s))
  end.

Definition is_nil {A : Type} (l : list A) : bool :=
  match l with [] => true | _ :: _ => false end.

(** What a node does before it evaluates the child on the way: [Some] of
    the closure and the world it evaluates that child in, [None] when the
    child is not evaluated (something before it threw, or the node took
    another way).  Operands are evaluated from left to right, but for those
    of a [Comparison], see [ast.Comparison_Execute]. *)
Definition before_child (n : nat) (P : Position) (closure : Closure)
           (w : World) : option (Closure * World) :=
  let exec := ast.Execute n in
  match P with
  | Here => None
  | in_Assignment _ _ | in_MethodCall_object _ _ _ | in_Stringify _
  | in_Not _ | in_Return _ | in_condition _ _ _ => Some (closure, w)
  | in_FieldAssignment v t _ _ =>
      match ast.VariableValue_Execute v t closure w with
      | Ok h =>
          match runtime.Get h with
          | Some (runtime.ClassInstance _ _) => Some (closure, w)
          | _ => None
          end
      | Raise _ => None
      end
  | in_Print before _ _ =>
      match ast.Print_loop n exec before true closure w with
      | (Ok _, c1, w1) =>
          Some (c1, if is_nil before then w1 else ast.os_write w1 " ")
      | (Raise _, _, _) => None
      end
  | in_MethodCall_args object_ _ before _ _ =>
      match exec object_ closure w with
      | (Ok h, c1, w1) =>
          match runtime.Get h with
          | Some (runtime.ClassInstance _ _) =>
              match ast.Execute_args exec before c1 w1 with
              | (Ok _, c2, w2) => Some (c2, w2)
              | (Raise _, _, _) => None
              end
          | _ => None
          end
      | (Raise _, _, _) => None
      end
  | in_NewInstance _ class_ before _ after =>
      if runtime.HasMethod class_ ast.INIT_METHOD
                           (length before + S (length after)) then
        match ast.Execute_args exec before closure w with
        | (Ok _, c1, w1) => Some (c1, w1)
        | (Raise _, _, _) => None
        end
      else None
  | in_lhs op _ rhs_ =>
      match op with
      | op_Comparison _ =>
          match exec rhs_ closure w with
          | (Ok _, c1, w1) => Some (c1, w1)
          | (Raise _, _, _) => None
          end
      | _ => Some (closure, w)
      end
  | in_rhs op lhs_ _ =>
      match op with
      | op_Comparison _ => Some (closure, w)
      | _ =>
          match exec lhs_ closure w with
          | (Ok l, c1, w1) =>
              match op with
              | op_Or => if runtime.IsTrue l then None else Some (c1, w1)
              | op_And => if runtime.IsTrue l then Some (c1, w1) else None
              | _ => Some (c1, w1)
              end
          | (Raise _, _, _) => None
          end
      end
  | in_Compound before _ _ =>
      match ast.Compound_loop exec before closure w with
      | (Ok _, c1, w1) => Some (c1, w1)
      | (Raise _, _, _) => None
      end
  | in_if_body condition_ _ _ =>
      match exec condition_ closure w with
      | (Ok cond, c1, w1) =>
          if runtime.IsTrue cond then Some (c1, w1) else None
      | (Raise _, _, _) => None
      end
  | in_else_body condition_ _ _ =>
      match exec condition_ closure w with
      | (Ok cond, c1, w1) =>
          if runtime.IsTrue cond then None else Some (c1, w1)
      | (Raise _, _, _) => None
      end
  end.

(** Whether the evaluation of the statement around the position, started
    with [fuel] in [closure] and [w], comes to evaluate the node at the
    position, and then with which fuel, in which closure and world.  The
    node itself plays no part: it has not run yet. *)
Fixpoint reach (fuel : nat) (P : Position) (closure : Closure) (w : World)
         {struct P} : option (nat * Closure * World) :=
  match P with
  | Here => Some (fuel, closure, w)
  | in_Assignment _ P' | in_FieldAssignment _ _ _ P' | in_Print _ P' _
  | in_MethodCall_object P' _ _ | in_MethodCall_args _ _ _ P' _
  | in_NewInstance _ _ _ P' _ | in_Stringify P' | in_lhs _ P' _
  | in_rhs _ _ P' | in_Not P' | in_Compound _ P' _ | in_Return P'
  | in_condition P' _ _ | in_if_body _ P' _ | in_else_body _ _ P' =>
      match fuel with
      | O => None
      | S n =>
          match before_child n P closure w with
          | Some (c1, w1) => reach n P' c1 w1
          | None => None
          end
      end
  end.

End position.

(** ** Vocabulary of the invariants of an evaluation *)

Module invariants.

Import runtime(Closure, World, Exec).

(** Every name bound in [c] is bound in [c']. *)
Definition keeps_names (c c' : Closure) : Prop :=
  forall x, is_Some (c !! x) -> is_Some (c' !! x).

(** Every field an instance has in [w] it has in [w']. *)
Definition keeps_fields (w w' : World) : Prop :=
  forall addr, keeps_names (runtime.Fields w addr) (runtime.Fields w' addr).

(** The output of [w'] is the output of [w] with text added at its end. *)
Definition appends_output (w w' : World) : Prop :=
  exists text, runtime.output w' = runtime.output w +:+ text.

Definition grows (c : Closure) (w : World) (c' : Closure) (w' : World)
  : Prop :=
  keeps_names c c' /\ keeps_fields w w' /\ appends_output w w'.

(** The world part of [grows], for the functions that take no closure. *)
Definition world_grows (w w' : World) : Prop :=
  keeps_fields w w' /\ appends_output w w'.

(** An evaluator all of whose runs grow the closure and the world. *)
Definition exec_grows (exec : Exec) : Prop :=
  forall s c w r c' w', exec s c w = (r, c', w') -> grows c w c' w'.

End invariants.

(** ** Vocabulary of the print law *)

Module printing.

(** The nodes that only read: literals and (dotted) variables. *)
Definition is_atom (s : Statement) : bool :=
  match s with
  | NumericConst _ | StringConst _ | BoolConst _ | NoneConst
  | VariableValue _ _ => true
  | _ => false
  end.

(** The text [Print] writes for a holder without calling into the
    program: every holder but an instance with a [__str__]. *)
Definition str (h : runtime.ObjectHolder) : option string :=
  match runtime.Get h with
  | None => Some ast.EMPTY_OBJECT
  | Some (runtime.Number v) => Some (to_string v)
  | Some (runtime.String v) => Some v
  | Some (runtime.Bool v) => Some (if v then "True" else "False")
  | Some (runtime.OfClass c) => Some ("Class " +:+ runtime.GetName c)
  | Some (runtime.ClassInstance addr cls_) =>
      if runtime.HasMethod cls_ runtime.STR_METHOD 0 then None
      else Some (runtime.address_text addr)
  end.

(** Each text with a space before it. *)
Fixpoint spaced (texts : list string) : string :=
  match texts with
  | [] => EmptyString
  | t :: rest => " " +:+ t +:+ spaced rest
  end.

(** The texts separated by single spaces. *)
Definition join (texts : list string) : string :=
  match texts with
  | [] => EmptyString
  | t :: rest => t +:+ spaced rest
  end.

(** [arg] is an atom that evaluates, in [c] and [w], to a holder printed
    as [text]. *)
Definition prints_as (c : runtime.Closure) (w : runtime.World)
           (arg : Statement) (text : string) : Prop :=
  is_atom arg = true
  /\ exists h, fst (fst (ast.Execute 1 arg c w)) = runtime.Ok h
               /\ str h = Some text.

End printing.

(** ** More sample programs *)

Module more_samples.

(** A method that assigns to a variable named like one of its caller. *)
Definition class_Setter : Class :=
  mkClass "Setter"
    [ mkMethod "run" ["x"]
        (MethodBody (Compound [ Assignment "x" (NumericConst 2);
                                Assignment "y" (NumericConst 3) ])) ]
    None.

End more_samples.

(** ** Operations on tokens and lexers used by the parser *)

Module token_ops.

(** [Token::index()]: the position of the alternative in [TokenBase]. *)
Definition index (t : Token) : nat :=
  match t with
  | token_type.Number _ => 0
  | token_type.Id _ => 1
  | token_type.Char _ => 2
  | token_type.String _ => 3
  | token_type.Class => 4
  | token_type.Return => 5
  | token_type.If => 6
  | token_type.Else => 7
  | token_type.Def => 8
  | token_type.Newline => 9
  | token_type.Print => 10
  | token_type.Indent => 11
  | token_type.Dedent => 12
  | token_type.And => 13
  | token_type.Or => 14
  | token_type.Not => 15
  | token_type.Eq => 16
  | token_type.NotEq => 17
  | token_type.LessOrEq => 18
  | token_type.GreaterOrEq => 19
  | token_type.None => 20
  | token_type.True => 21
  | token_type.False => 22
  | token_type.Eof => 23
  end.

(** [operator==(const Token&, const Token&)]. *)
Definition Token_eq (lhs rhs : Token) : bool :=
  if negb (Nat.eqb (index lhs) (index rhs)) then false
  else
    match lhs, rhs with
    | token_type.Char l, token_type.Char r => Ascii.eqb l r
    | token_type.Number l, token_type.Number r => Z.eqb l r
    | token_type.String l, token_type.String r => String.eqb l r
    | token_type.Id l, token_type.Id r => String.eqb l r
    | _, _ => true
    end.

(** [operator!=(const Token&, const Token&)]. *)
Definition Token_ne (lhs rhs : Token) : bool := negb (Token_eq lhs rhs).

(** [calls] calls of [NextToken] in a row; an exception ends them. *)
Fixpoint advance (calls : nat) (lx : parse.Lexer) : lex_result parse.Lexer :=
  match calls with
  | O => LexOk lx
  | S n =>
      match parse.NextToken lx with
      | LexOk lx' => advance n lx'
      | LexThrow e => LexThrow e
      | LexOutOfFuel => LexOutOfFuel
      end
  end.

End token_ops.

(** ** Vocabulary of the lexer laws *)

Module literals.

Definition is_Newline (t : Token) : bool :=
  match t with token_type.Newline => true | _ => false end.

Definition not_backslash (c : ascii) : bool :=
  negb (Ascii.eqb c util.backslash).

(** No backslash occurs in the string. *)
Fixpoint no_backslash (s : string) : bool :=
  match s with
  | EmptyString => true
  | String.String c rest => (not_backslash c && no_backslash rest)%bool
  end.

(** A character as it can be written inside a string literal: the two
    quotes, the line feed and the tab by their escapes, any other character
    as it is. *)
Definition escape (c : ascii) : list ascii :=
  if Ascii.eqb c util.quote then [util.backslash; util.quote]
  else if Ascii.eqb c util.apostrophe then [util.backslash; util.apostrophe]
  else if Ascii.eqb c util.line_feed then [util.backslash; "n"%char]
  else if Ascii.eqb c util.tab then [util.backslash; "t"%char]
  else [c].

Fixpoint escape_all (s : string) : list ascii :=
  match s with
  | EmptyString => []
  | String.String c rest => escape c ++ escape_all rest
  end.

(** A character that starts a token: no end of input, line feed, [#] or
    space. *)
Definition significant (c : ascii) : bool :=
  (negb (Ascii.eqb c util.EOF_char) && negb (Ascii.eqb c util.line_feed)
   && negb (Ascii.eqb c "#") && negb (Ascii.eqb c " "))%bool.

(** Every character of the string satisfies [p]. *)
Fixpoint string_forall (p : ascii -> bool) (s : string) : bool :=
  match s with
  | EmptyString => true
  | String.String c rest => (p c && string_forall p rest)%bool
  end.

(** What [NextToken] never returns for a significant token, and the range
    of the payload of a [Number]. *)
Definition plain_token (t : Token) : Prop :=
  match t with
  | token_type.Newline | token_type.Indent | token_type.Dedent
  | token_type.Eof => False
  | token_type.Number v => 0 <= v <= INT_MAX
  | _ => True
  end.

(** Nothing or the rest of a comment: no line feed in it. *)
Definition no_line_feed (body : list ascii) : bool :=
  forallb (fun c => negb (Ascii.eqb c util.line_feed)) body.

End literals.

(** * Properties of the evaluator *)

Section Evaluator.

Import runtime(Closure, World, ObjectHolder, Ok, Raise, Own, Share, None_).

Implicit Types (closure c : Closure) (w : World) (n : nat).

Lemma bind_Ok {A B : Type} (a : A) c w
      (k : A -> Closure -> World -> runtime.result B * Closure * World) :
  ast.bind (Ok a, c, w) k = k a c w.
Proof. reflexivity. Qed.

Lemma bind_Raise {A B : Type} (s : runtime.signal) c w
      (k : A -> Closure -> World -> runtime.result B * Closure * World) :
  ast.bind (Raise s, c, w) k = (Raise s, c, w).
Proof. reflexivity. Qed.

(** Anything raised by the first statement of a [Compound] leaves the
    [Compound] as it is; the statements after it are not run. *)
Lemma Compound_abandons_rest n first rest closure w s c1 w1 :
  ast.Execute n first closure w = (Raise s, c1, w1) ->
  ast.Execute (S n) (Compound (first :: rest)) closure w = (Raise s, c1, w1).
Proof.
  intros Hfirst. simpl. unfold ast.Compound_Execute. simpl.
  rewrite Hfirst. reflexivity.
Qed.

(** A [Compound] whose first statement completes goes on with the rest. *)
Lemma Compound_continues n first rest closure w h c1 w1 :
  ast.Execute n first closure w = (Ok h, c1, w1) ->
  ast.Execute (S n) (Compound (first :: rest)) closure w
  = ast.Execute (S n) (Compound rest) c1 w1.
Proof.
  intros Hfirst. simpl. unfold ast.Compound_Execute. simpl.
  rewrite Hfirst. reflexivity.
Qed.

(** [Return] raises the holder its expression evaluates to. *)
Lemma Return_throws n statement_ closure w x c1 w1 :
  ast.Execute n statement_ closure w = (Ok x, c1, w1) ->
  ast.Execute (S n) (Return statement_) closure w
  = (Raise (runtime.ThrowHolder x), c1, w1).
Proof.
  intros H. simpl. unfold ast.Return_Execute. rewrite H. reflexivity.
Qed.

(** The branch taken by an [IfElse] hands on whatever it raises. *)
Lemma IfElse_hands_on n condition_ if_body_ else_body_ closure w cond c1 w1 :
  ast.Execute n condition_ closure w = (Ok cond, c1, w1) ->
  runtime.IsTrue cond = true ->
  ast.Execute (S n) (IfElse condition_ if_body_ else_body_) closure w
  = ast.Execute n if_body_ c1 w1.
Proof.
  intros Hc Ht. simpl. unfold ast.IfElse_Execute.
  rewrite Hc. simpl. rewrite Ht. reflexivity.
Qed.

(** What [MethodBody::Execute] makes of the result of its body. *)
Lemma MethodBody_Execute_cases n body_ closure w :
  ast.Execute (S n) (MethodBody body_) closure w
  = match ast.Execute n body_ closure w with
    | (Ok _, c1, w1) => (Ok None_, c1, w1)
    | (Raise (runtime.ThrowHolder x), c1, w1) => (Ok x, c1, w1)
    | (Raise s, c1, w1) => (Raise s, c1, w1)
    end.
Proof. reflexivity. Qed.

(** [ClassInstance::Call] on a method found with the right arity runs its
    body in a closure of its own. *)
Lemma Call_runs_body (exec : runtime.Exec) addr cls_ method mtd actual_args w :
  runtime.GetMethod cls_ method = Some mtd ->
  length (Method_formal_params mtd) = length actual_args ->
  runtime.Call exec addr cls_ method actual_args w
  = let '(r, _, w') :=
      exec (Method_body mtd)
           (runtime.bind_params
              (<["self" := Share (runtime.ClassInstance addr cls_)]> ∅)
              (Method_formal_params mtd) actual_args) w in
    (r, w').
Proof.
  intros Hget Hlen. unfold runtime.Call, runtime.HasMethod.
  rewrite Hget. rewrite Hlen. rewrite Nat.eqb_refl. reflexivity.
Qed.

(** ** Loops over lists of nodes *)

Lemma Compound_loop_app (exec : runtime.Exec) xs ys c w :
  ast.Compound_loop exec (xs ++ ys) c w
  = ast.bind (ast.Compound_loop exec xs c w)
             (fun _ c1 w1 => ast.Compound_loop exec ys c1 w1).
Proof.
  revert c w. induction xs as [|x xs IH]; intros c w; [reflexivity|].
  cbn [app ast.Compound_loop].
  destruct (exec x c w) as [[[h|s] c1] w1]; cbn [ast.bind]; [|reflexivity].
  apply IH.
Qed.

Lemma Execute_args_app (exec : runtime.Exec) xs ys c w :
  ast.Execute_args exec (xs ++ ys) c w
  = ast.bind (ast.Execute_args exec xs c w)
      (fun hs c1 w1 =>
         ast.bind (ast.Execute_args exec ys c1 w1)
                  (fun hs' c2 w2 => (Ok (hs ++ hs'), c2, w2))).
Proof.
  revert c w. induction xs as [|x xs IH]; intros c w.
  - cbn [app ast.Execute_args ast.bind].
    destruct (ast.Execute_args exec ys c w) as [[[hs|s] c1] w1]; reflexivity.
  - cbn [app ast.Execute_args].
    destruct (exec x c w) as [[[h|s] c1] w1]; cbn [ast.bind]; [|reflexivity].
    rewrite IH.
    destruct (ast.Execute_args exec xs c1 w1) as [[[hs|s] c2] w2];
      cbn [ast.bind]; [|reflexivity].
    destruct (ast.Execute_args exec ys c2 w2) as [[[hs'|s] c3] w3];
      reflexivity.
Qed.

Lemma Print_loop_app fuel (exec : runtime.Exec) xs ys first c w :
  ast.Print_loop fuel exec (xs ++ ys) first c w
  = ast.bind (ast.Print_loop fuel exec xs first c w)
      (fun _ c1 w1 =>
         ast.Print_loop fuel exec ys (first && position.is_nil xs) c1 w1).
Proof.
  revert first c w. induction xs as [|x xs IH]; intros first c w.
  - cbn [app ast.Print_loop ast.bind position.is_nil].
    now rewrite andb_true_r.
  - cbn [app ast.Print_loop position.is_nil]. rewrite andb_false_r.
    destruct (exec x c (if first then w else ast.os_write w " "))
      as [[[h|s] c1] w1]; cbn [ast.bind]; [|reflexivity].
    destruct (runtime.Get h) as [o|].
    + destruct (runtime.Object_Print fuel exec o runtime.context_stream
                                     EmptyString w1) as [[u|s] [b w2]];
        [|reflexivity].
      rewrite IH. reflexivity.
    + rewrite IH. reflexivity.
Qed.

(** ** What surrounds a node inside a method body *)

Ltac node_of_plug :=
  cbn [position.plug position.binary ast.Execute].

(** The nodes on the way to a position add nothing to what the node at
    the position raises, and see nothing of that node but its result:
    whatever it raises leaves the whole statement, as raised, and two nodes
    with the same result there give the whole statement the same result. *)
Lemma reach_plug P :
  forall fuel c w m c' w',
    position.reach fuel P c w = Some (m, c', w') ->
    (forall s sig c'' w'',
        ast.Execute m s c' w' = (Raise sig, c'', w'') ->
        ast.Execute fuel (position.plug P s) c w = (Raise sig, c'', w''))
    /\ (forall s1 s2,
          ast.Execute m s1 c' w' = ast.Execute m s2 c' w' ->
          ast.Execute fuel (position.plug P s1) c w
          = ast.Execute fuel (position.plug P s2) c w).
Proof.
  induction P; intros fuel c w m c' w' Hreach;
    [ cbn [position.reach] in Hreach;
      injection Hreach as <- <- <-; split; [intros s sig c'' w'' Hs; exact Hs
                                           | intros s1 s2 Hs; exact Hs]
    | .. ];
    (destruct fuel as [|n]; [discriminate Hreach|]);
    cbn [position.reach] in Hreach;
    (destruct (position.before_child n _ c w) as [[c1 w1]|] eqn:Hb;
     [|discriminate Hreach]);
    destruct (IHP _ _ _ _ _ _ Hreach) as [IHr IHs]; clear IHP Hreach;
    cbn [position.before_child] in Hb;
    (split; [ intros s sig c'' w'' Hs; apply IHr in Hs
            | intros s1 s2 Hs; apply (IHs s1 s2) in Hs ]);
    clear IHr IHs.
  (* Assignment *)
  1-2: injection Hb as <- <-; node_of_plug;
    unfold ast.Assignment_Execute; rewrite Hs; reflexivity.
  (* FieldAssignment *)
  1-2: destruct (ast.VariableValue_Execute _ _ c w) as [h|] eqn:Hv;
    [|discriminate Hb];
    destruct (runtime.Get h) as [[| | | |addr cls_]|] eqn:Hg;
    try discriminate Hb; injection Hb as <- <-; node_of_plug;
    unfold ast.FieldAssignment_Execute; rewrite Hv, Hg, Hs; reflexivity.
  (* Print *)
  1-2: destruct (ast.Print_loop n _ before true c w)
      as [[[u|s0] cb] wb] eqn:Hp; [|discriminate Hb];
    injection Hb as <- <-; node_of_plug;
    unfold ast.Print_Execute; rewrite !(Print_loop_app _ _ before), !Hp;
    cbn [ast.bind andb ast.Print_loop]; rewrite Hs; reflexivity.
  (* the object of a MethodCall *)
  1-2: injection Hb as <- <-; node_of_plug;
    unfold ast.MethodCall_Execute; rewrite Hs; reflexivity.
  (* an argument of a MethodCall *)
  1-2: destruct (ast.Execute n object_ c w) as [[[h|s0] co] wo] eqn:Ho;
    [|discriminate Hb];
    destruct (runtime.Get h) as [[| | | |addr cls_]|] eqn:Hg;
    try discriminate Hb;
    destruct (ast.Execute_args _ before co wo) as [[[hs|s0] ca] wa] eqn:Ha;
    [|discriminate Hb];
    injection Hb as <- <-; node_of_plug;
    unfold ast.MethodCall_Execute; rewrite Ho; cbn [ast.bind];
    rewrite Hg, !(Execute_args_app _ before), !Ha; cbn [ast.bind ast.Execute_args];
    rewrite Hs; reflexivity.
  (* an argument of a NewInstance *)
  1-2: destruct (runtime.HasMethod _ _ _) eqn:Hinit; [|discriminate Hb];
    destruct (ast.Execute_args _ before c w) as [[[hs|s0] ca] wa] eqn:Ha;
    [|discriminate Hb];
    injection Hb as <- <-; node_of_plug;
    unfold ast.NewInstance_Execute; rewrite !length_app; cbn [length];
    rewrite Hinit, !(Execute_args_app _ before), !Ha; cbn [ast.bind ast.Execute_args];
    rewrite Hs; reflexivity.
  (* Stringify *)
  1-2: injection Hb as <- <-; node_of_plug;
    unfold ast.Stringify_Execute; rewrite Hs; reflexivity.
  (* a left operand *)
  1-2: destruct op;
    try (injection Hb as <- <-; node_of_plug;
         unfold ast.Add_Execute, ast.Sub_Execute, ast.Mult_Execute,
           ast.Div_Execute, ast.Or_Execute, ast.And_Execute;
         rewrite Hs; reflexivity);
    destruct (ast.Execute n rhs_ c w) as [[[r|s0] cr] wr] eqn:Hr;
    [|discriminate Hb];
    injection Hb as <- <-; node_of_plug;
    unfold ast.Comparison_Execute; rewrite Hr; cbn [ast.bind];
    rewrite Hs; reflexivity.
  (* a right operand *)
  1-2: destruct op;
    try (injection Hb as <- <-; node_of_plug;
         unfold ast.Comparison_Execute; rewrite Hs; reflexivity);
    (destruct (ast.Execute n lhs_ c w) as [[[l|s0] cl] wl] eqn:Hl;
     [|discriminate Hb]);
    try (destruct (runtime.IsTrue l) eqn:Htrue; try discriminate Hb);
    injection Hb as <- <-; node_of_plug;
    unfold ast.Add_Execute, ast.Sub_Execute, ast.Mult_Execute,
      ast.Div_Execute, ast.Or_Execute, ast.And_Execute;
    rewrite Hl; cbn [ast.bind]; rewrite ?Htrue, Hs; reflexivity.
  (* Not *)
  1-2: injection Hb as <- <-; node_of_plug;
    unfold ast.Not_Execute; rewrite Hs; reflexivity.
  (* Compound *)
  1-2: destruct (ast.Compound_loop _ before c w)
      as [[[u|s0] cb] wb] eqn:Hp; [|discriminate Hb];
    injection Hb as <- <-; node_of_plug;
    unfold ast.Compound_Execute; rewrite !(Compound_loop_app _ before), !Hp;
    cbn [ast.bind ast.Compound_loop]; rewrite Hs; reflexivity.
  (* Return *)
  1-2: injection Hb as <- <-; node_of_plug;
    unfold ast.Return_Execute; rewrite Hs; reflexivity.
  (* the condition of an IfElse *)
  1-2: injection Hb as <- <-; node_of_plug;
    unfold ast.IfElse_Execute; rewrite Hs; reflexivity.
  (* its branches *)
  all: destruct (ast.Execute n condition_ c w)
      as [[[cond|s0] cc] wc] eqn:Hc; [|discriminate Hb];
    destruct (runtime.IsTrue cond) eqn:Htrue; try discriminate Hb;
    injection Hb as <- <-; node_of_plug;
    unfold ast.IfElse_Execute; rewrite Hc; cbn [ast.bind];
    rewrite Htrue, Hs; reflexivity.
Qed.

(** ** Return and errors *)

(** C1. Return locality.  Let [f] call the method [method_], whose body
    under its [MethodBody] executes a [Return e] at any position [G], with
    [e] evaluating to [x].  Then the [Return] leaves every node of that
    body around it, up to the [MethodBody]; the [MethodCall] hands [x] to
    its caller as an ordinary value, in the caller's own closure; a
    [MethodBody] around the call alone returns the empty holder, not [x];
    wherever the call stands in the body of [f], the nodes around it see
    of it what they would see of any node with the result [x].  For every
    [MethodBody]: a [Return] executed at any position of its body makes it
    return the value of that [Return], abandoning the nodes in between; a
    body that completes makes it return the empty holder; and it never
    lets a thrown holder through to the nodes around it. *)
Theorem return_locality n object_ method_ args_ closure w h c1 w1 addr cls_
        actual_args c2 w2 name formal_params G e m c' w' x c3 w3 :
  ast.Execute (S n) object_ closure w = (Ok h, c1, w1) ->
  runtime.Get h = Some (runtime.ClassInstance addr cls_) ->
  ast.Execute_args (ast.Execute (S n)) args_ c1 w1 = (Ok actual_args, c2, w2) ->
  runtime.GetMethod cls_ method_
  = Some (mkMethod name formal_params
                   (MethodBody (position.plug G (Return e)))) ->
  length formal_params = length actual_args ->
  position.reach n G
    (runtime.bind_params
       (<["self" := Share (runtime.ClassInstance addr cls_)]> ∅)
       formal_params actual_args) w2
  = Some (S m, c', w') ->
  ast.Execute m e c' w' = (Ok x, c3, w3) ->
  ast.Execute n (position.plug G (Return e))
    (runtime.bind_params
       (<["self" := Share (runtime.ClassInstance addr cls_)]> ∅)
       formal_params actual_args) w2
  = (Raise (runtime.ThrowHolder x), c3, w3)
  /\ ast.Execute (S (S n)) (MethodCall object_ method_ args_) closure w
     = (Ok x, c2, w3)
  /\ ast.Execute (S (S (S n))) (MethodBody (MethodCall object_ method_ args_))
                 closure w
     = (Ok None_, c2, w3)
  /\ (forall N F cf wf v,
        position.reach N F cf wf = Some (S (S n), closure, w) ->
        ast.Execute (S (S n)) v closure w = (Ok x, c2, w3) ->
        ast.Execute N (position.plug F (MethodCall object_ method_ args_))
                    cf wf
        = ast.Execute N (position.plug F v) cf wf)
  /\ (forall N K c0 w0 m' c'' w'' e' y c4 w4,
        position.reach N K c0 w0 = Some (S m', c'', w'') ->
        ast.Execute m' e' c'' w'' = (Ok y, c4, w4) ->
        ast.Execute N (position.plug K (Return e')) c0 w0
        = (Raise (runtime.ThrowHolder y), c4, w4)
        /\ ast.Execute (S N) (MethodBody (position.plug K (Return e'))) c0 w0
           = (Ok y, c4, w4))
  /\ (forall N body_ c0 w0 r c4 w4,
        ast.Execute N body_ c0 w0 = (Ok r, c4, w4) ->
        ast.Execute (S N) (MethodBody body_) c0 w0 = (Ok None_, c4, w4))
  /\ (forall N body_ c0 w0 y c4 w4,
        ast.Execute N (MethodBody body_) c0 w0
        <> (Raise (runtime.ThrowHolder y), c4, w4)).
Proof.
  intros Hobj Hinst Hargs Hget Hlen Hreach He.
  assert (Hunwind : forall N K c0 w0 m' c'' w'' e' y c4 w4,
    position.reach N K c0 w0 = Some (S m', c'', w'') ->
    ast.Execute m' e' c'' w'' = (Ok y, c4, w4) ->
    ast.Execute N (position.plug K (Return e')) c0 w0
    = (Raise (runtime.ThrowHolder y), c4, w4)).
  { intros N K c0 w0 m' c'' w'' e' y c4 w4 HK He'.
    apply (proj1 (reach_plug K N c0 w0 (S m') c'' w'' HK)).
    apply Return_throws. exact He'. }
  pose proof (Hunwind _ _ _ _ _ _ _ _ _ _ _ Hreach He) as Hbody.
  assert (Hcall :
    ast.Execute (S (S n)) (MethodCall object_ method_ args_) closure w
    = (Ok x, c2, w3)).
  { change (ast.MethodCall_Execute (ast.Execute (S n)) object_ method_ args_
                                   closure w = (Ok x, c2, w3)).
    unfold ast.MethodCall_Execute.
    rewrite Hobj, bind_Ok, Hinst, Hargs, bind_Ok.
    rewrite (Call_runs_body _ _ _ _ _ _ _ Hget) by exact Hlen.
    cbn [Method_body Method_formal_params].
    rewrite MethodBody_Execute_cases, Hbody. reflexivity. }
  split; [exact Hbody|]. split; [exact Hcall|]. split.
  { rewrite MethodBody_Execute_cases, Hcall. reflexivity. }
  split.
  { intros N F cf wf v HF Hv.
    apply (proj2 (reach_plug F N cf wf (S (S n)) closure w HF)).
    rewrite Hcall, Hv. reflexivity. }
  split.
  { intros N K c0 w0 m' c'' w'' e' y c4 w4 HK He'.
    pose proof (Hunwind _ _ _ _ _ _ _ _ _ _ _ HK He') as Hthrown.
    split; [exact Hthrown|].
    rewrite MethodBody_Execute_cases, Hthrown. reflexivity. }
  split.
  { intros N body_ c0 w0 r c4 w4 Hdone.
    rewrite MethodBody_Execute_cases, Hdone. reflexivity. }
  intros N body_ c0 w0 y c4 w4. destruct N as [|N].
  - discriminate.
  - rewrite MethodBody_Execute_cases.
    destruct (ast.Execute N body_ c0 w0) as [[[u|s] c6] w6];
      [discriminate|]. destruct s; discriminate.
Qed.

Lemma return_locality_witness :
  ast.Execute 8 samples.g_call samples.in_R samples.w0
  = (Ok (Own (runtime.Number 5)), samples.in_R, samples.w0)
  /\ ast.Execute 9 (MethodBody samples.g_call) samples.in_R samples.w0
     = (Ok None_, samples.in_R, samples.w0)
  /\ ast.Execute 11
       (Compound [ Assignment "r" (Add samples.g_call (NumericConst 100));
                   Return (VariableValue "r" []) ])
       samples.in_R samples.w0
     = ast.Execute 11
         (Compound [ Assignment "r"
                       (Add (Add (NumericConst 4) (NumericConst 1))
                            (NumericConst 100));
                     Return (VariableValue "r" []) ])
         samples.in_R samples.w0
  /\ ast.Execute 12
       (MethodBody
          (Compound [ Assignment "r" (Add samples.g_call (NumericConst 100));
                      Return (VariableValue "r" []) ]))
       samples.in_R samples.w0
     = (Ok (Own (runtime.Number 105)),
        <["r" := Own (runtime.Number 105)]> samples.in_R, samples.w0).
Proof.
  destruct (return_locality 6 samples.self "g" [NumericConst 4]
              samples.in_R samples.w0
              (Share (runtime.ClassInstance 0 samples.class_R))
              samples.in_R samples.w0 0%nat samples.class_R
              [Share (runtime.Number 4)] samples.in_R samples.w0
              "g" ["a"]
              (position.in_Compound []
                 (position.in_if_body
                    (Comparison cmp_Less (VariableValue "a" [])
                                (NumericConst 10))
                    (position.in_Compound [] position.Here
                       [Print [StringConst "not reached"]])
                    None)
                 [Print [StringConst "not reached either"]])
              (Add (VariableValue "a" []) (NumericConst 1))
              2%nat
              (<["a" := Share (runtime.Number 4)]> samples.in_R) samples.w0
              (Own (runtime.Number 5))
              (<["a" := Share (runtime.Number 4)]> samples.in_R) samples.w0)
    as (_ & Hcall & Halone & Hseen & Hown & _ & _);
    [ reflexivity | reflexivity | reflexivity | reflexivity | reflexivity
    | vm_compute; reflexivity | vm_compute; reflexivity | ].
  split; [exact Hcall|]. split; [exact Halone|]. split.
  - apply (Hseen 11%nat
             (position.in_Compound []
                (position.in_Assignment "r"
                   (position.in_lhs position.op_Add position.Here
                                    (NumericConst 100)))
                [Return (VariableValue "r" [])])
             samples.in_R samples.w0
             (Add (NumericConst 4) (NumericConst 1)));
      vm_compute; reflexivity.
  - apply (Hown 11%nat
             (position.in_Compound
                [Assignment "r" (Add samples.g_call (NumericConst 100))]
                position.Here [])
             samples.in_R samples.w0 9%nat
             (<["r" := Own (runtime.Number 105)]> samples.in_R) samples.w0
             (VariableValue "r" []) (Own (runtime.Number 105))
             (<["r" := Own (runtime.Number 105)]> samples.in_R) samples.w0);
      vm_compute; reflexivity.
Defined.

(** C2. A [std::runtime_error] raised by the body of a [MethodBody] leaves
    [MethodBody::Execute] as it was raised, with the closure and the world
    of that moment; and when a [MethodBody] does return a holder, its body
    either completed (the holder is empty) or threw that very holder. *)
Theorem MethodBody_catches_only_Return n body_ closure w :
  (forall what c1 w1,
      ast.Execute n body_ closure w
      = (Raise (runtime.runtime_error what), c1, w1) ->
      ast.Execute (S n) (MethodBody body_) closure w
      = (Raise (runtime.runtime_error what), c1, w1))
  /\ (forall h c1 w1,
      ast.Execute (S n) (MethodBody body_) closure w = (Ok h, c1, w1) ->
      ast.Execute n body_ closure w = (Raise (runtime.ThrowHolder h), c1, w1)
      \/ (h = None_
          /\ exists h', ast.Execute n body_ closure w = (Ok h', c1, w1))).
Proof.
  split.
  - intros what c1 w1 Hbody.
    rewrite MethodBody_Execute_cases, Hbody. reflexivity.
  - intros h c1 w1. rewrite MethodBody_Execute_cases.
    destruct (ast.Execute n body_ closure w) as [[[h'|s] c'] w'].
    + intros [= <- <- <-]. right. split; [reflexivity|]. eexists; reflexivity.
    + destruct s; intros [= <- <- <-] || intros [=]. left. reflexivity.
Qed.

Lemma MethodBody_catches_only_Return_witness :
  ast.Execute 3 (MethodBody (Div (NumericConst 1) (NumericConst 0)))
              ∅ samples.w0
  = (Raise (runtime.runtime_error "Division by zero"), ∅, samples.w0)
  /\ ast.Execute 2 (MethodBody (VariableValue "x" [])) ∅ samples.w0
     = (Raise (runtime.runtime_error "Variable x not found"), ∅, samples.w0)
  /\ ast.Execute 3 (MethodBody (MethodCall (NumericConst 1) "m" []))
                 ∅ samples.w0
     = (Raise (runtime.runtime_error "Object is not class instance"),
        ∅, samples.w0).
Proof.
  split; [|split].
  - apply (proj1 (MethodBody_catches_only_Return
                    2 (Div (NumericConst 1) (NumericConst 0)) ∅ samples.w0)).
    reflexivity.
  - apply (proj1 (MethodBody_catches_only_Return
                    1 (VariableValue "x" []) ∅ samples.w0)).
    reflexivity.
  - apply (proj1 (MethodBody_catches_only_Return
                    2 (MethodCall (NumericConst 1) "m" []) ∅ samples.w0)).
    reflexivity.
Defined.

(** ** Logical operations *)

(** C3. Once the left operand has evaluated to [l]: [Or] returns an owning
    [Bool(true)] when [l] is truthy, and otherwise an owning [Bool] of the
    truthiness of what the right operand evaluates to; [And] returns an
    owning [Bool(false)] when [l] is falsy, and otherwise an owning [Bool]
    of the truthiness of the right operand.  [0 or "fallback"] is
    [Bool(true)]. *)
Theorem logical_result_is_Bool n lhs_ rhs_ closure w l c1 w1 :
  ast.Execute n lhs_ closure w = (Ok l, c1, w1) ->
  (runtime.IsTrue l = true ->
   ast.Execute (S n) (Or lhs_ rhs_) closure w
   = (Ok (Own (runtime.Bool true)), c1, w1))
  /\ (runtime.IsTrue l = false ->
      forall r c2 w2,
        ast.Execute n rhs_ c1 w1 = (Ok r, c2, w2) ->
        ast.Execute (S n) (Or lhs_ rhs_) closure w
        = (Ok (Own (runtime.Bool (runtime.IsTrue r))), c2, w2))
  /\ (runtime.IsTrue l = false ->
      ast.Execute (S n) (And lhs_ rhs_) closure w
      = (Ok (Own (runtime.Bool false)), c1, w1))
  /\ (runtime.IsTrue l = true ->
      forall r c2 w2,
        ast.Execute n rhs_ c1 w1 = (Ok r, c2, w2) ->
        ast.Execute (S n) (And lhs_ rhs_) closure w
        = (Ok (Own (runtime.Bool (runtime.IsTrue r))), c2, w2))
  /\ ast.Execute 2 (Or (NumericConst 0) (StringConst "fallback")) closure w
     = (Ok (Own (runtime.Bool true)), closure, w).
Proof.
  intros Hl.
  change (ast.Execute (S n) (Or lhs_ rhs_) closure w)
    with (ast.Or_Execute (ast.Execute n) lhs_ rhs_ closure w).
  change (ast.Execute (S n) (And lhs_ rhs_) closure w)
    with (ast.And_Execute (ast.Execute n) lhs_ rhs_ closure w).
  unfold ast.Or_Execute, ast.And_Execute. rewrite Hl, !bind_Ok.
  split; [|split; [|split; [|split]]].
  - intros ->. reflexivity.
  - intros -> r c2 w2 ->. reflexivity.
  - intros ->. reflexivity.
  - intros -> r c2 w2 ->. reflexivity.
  - reflexivity.
Qed.

Lemma logical_result_is_Bool_witness :
  ast.Execute 2 (Or (NumericConst 0) (StringConst "")) ∅ samples.w0
  = (Ok (Own (runtime.Bool false)), ∅, samples.w0)
  /\ ast.Execute 2 (And (StringConst "a") (NumericConst 7)) ∅ samples.w0
     = (Ok (Own (runtime.Bool true)), ∅, samples.w0).
Proof.
  split.
  - apply (proj1 (proj2
      (logical_result_is_Bool 1 (NumericConst 0) (StringConst "") ∅ samples.w0
         (Share (runtime.Number 0)) ∅ samples.w0 eq_refl))
      eq_refl (Share (runtime.String "")) ∅ samples.w0 eq_refl).
  - apply (proj1 (proj2 (proj2 (proj2
      (logical_result_is_Bool 1 (StringConst "a") (NumericConst 7) ∅ samples.w0
         (Share (runtime.String "a")) ∅ samples.w0 eq_refl))))
      eq_refl (Share (runtime.Number 7)) ∅ samples.w0 eq_refl).
Defined.

(** C4. Short circuit.  When the left operand of an [And] evaluates to a
    falsy holder, or the left operand of an [Or] to a truthy one, the
    closure and the world after the node are those the left operand left:
    the right operand, whatever it is, has not run. *)
Theorem short_circuit_skips_rhs n lhs_ rhs_ closure w l c1 w1 :
  ast.Execute n lhs_ closure w = (Ok l, c1, w1) ->
  (runtime.IsTrue l = false ->
   ast.Execute (S n) (And lhs_ rhs_) closure w
   = (Ok (Own (runtime.Bool false)), c1, w1))
  /\ (runtime.IsTrue l = true ->
      ast.Execute (S n) (Or lhs_ rhs_) closure w
      = (Ok (Own (runtime.Bool true)), c1, w1)).
Proof.
  intros Hl.
  change (ast.Execute (S n) (Or lhs_ rhs_) closure w)
    with (ast.Or_Execute (ast.Execute n) lhs_ rhs_ closure w).
  change (ast.Execute (S n) (And lhs_ rhs_) closure w)
    with (ast.And_Execute (ast.Execute n) lhs_ rhs_ closure w).
  unfold ast.Or_Execute, ast.And_Execute. rewrite Hl, !bind_Ok.
  split; intros ->; reflexivity.
Qed.

Lemma short_circuit_skips_rhs_witness :
  ast.Execute 5 (And (NumericConst 0) samples.noisy) ∅ samples.w0
  = (Ok (Own (runtime.Bool false)), ∅, samples.w0)
  /\ ast.Execute 5 (Or (NumericConst 3) samples.noisy) ∅ samples.w0
     = (Ok (Own (runtime.Bool true)), ∅, samples.w0)
  /\ ast.Execute 5 (Or (NumericConst 0) samples.noisy) ∅ samples.w0
     = (Ok (Own (runtime.Bool false)),
        <["seen" := Share (runtime.Number 1)]> ∅,
        runtime.mkWorld ∅ ("noisy" +:+ ast.endl)).
Proof.
  split; [|split].
  - apply (proj1 (short_circuit_skips_rhs 4 (NumericConst 0) samples.noisy
                    ∅ samples.w0 (Share (runtime.Number 0)) ∅ samples.w0
                    eq_refl) eq_refl).
  - apply (proj2 (short_circuit_skips_rhs 4 (NumericConst 3) samples.noisy
                    ∅ samples.w0 (Share (runtime.Number 3)) ∅ samples.w0
                    eq_refl) eq_refl).
  - vm_compute. reflexivity.
Defined.

(** ** Division *)






(** ** Construction of instances *)

(** [GetMethod] stops at the first class of the chain that has a method of
    that name: the parent is not consulted. *)
Lemma GetMethod_nearest name_ methods_ parent_ method mtd :
  find (fun m => String.eqb (Method_name m) method) methods_ = Some mtd ->
  runtime.GetMethod (mkClass name_ methods_ parent_) method = Some mtd.
Proof. intros H. simpl. rewrite H. reflexivity. Qed.

(** C10. When [HasMethod("__init__", |args|)] fails on the class of a
    [NewInstance], be it for want of any [__init__] or because the nearest
    one has another arity, the node returns a non-owning holder of its
    instance and leaves the closure and the world as they were: no
    argument has been evaluated and no field set. *)
Theorem NewInstance_without_init n addr class_ args_ closure w :
  runtime.HasMethod class_ ast.INIT_METHOD (length args_) = false ->
  ast.Execute (S n) (NewInstance addr class_ args_) closure w
  = (Ok (Share (runtime.ClassInstance addr class_)), closure, w).
Proof.
  intros Hno.
  change (ast.Execute (S n) (NewInstance addr class_ args_) closure w)
    with (ast.NewInstance_Execute (ast.Execute n) addr class_ args_ closure w).
  unfold ast.NewInstance_Execute. rewrite Hno. reflexivity.
Qed.

Lemma NewInstance_without_init_witness :
  runtime.HasMethod samples.class_Base ast.INIT_METHOD 1 = true
  /\ ast.Execute 6 (NewInstance 3 samples.class_Derived [samples.noisy])
                 ∅ samples.w0
     = (Ok (Share (runtime.ClassInstance 3 samples.class_Derived)),
        ∅, samples.w0).
Proof.
  split; [reflexivity|].
  apply (NewInstance_without_init 5 3%nat samples.class_Derived
           [samples.noisy] ∅ samples.w0).
  reflexivity.
Defined.

(** ** Stringify and Print *)

(** Printing an object into the local buffer of [Stringify] and printing
    it to the context's stream run the same calls; the text that ends up
    in the buffer is the text appended to the stream, and a failure
    happens before anything is written. *)
Lemma Object_Print_either_stream fuel (exec : runtime.Exec) o buf w :
  match runtime.Object_Print fuel exec o runtime.local_buffer buf w with
  | (Ok _, (buf', w')) =>
      exists text,
        buf' = buf +:+ text
        /\ runtime.Object_Print fuel exec o runtime.context_stream buf w
           = (Ok tt, (buf, ast.os_write w' text))
  | (Raise s, (buf', w')) =>
      buf' = buf
      /\ runtime.Object_Print fuel exec o runtime.context_stream buf w
         = (Raise s, (buf, w'))
  end.
Proof.
  revert o w. induction fuel as [|fuel IH]; intros o w.
  - destruct o as [v|v|v|cl|addr cls_]; simpl;
      try (eexists; split; reflexivity).
    destruct (runtime.HasMethod cls_ runtime.STR_METHOD 0).
    + split; reflexivity.
    + eexists; split; reflexivity.
  - destruct o as [v|v|v|cl|addr cls_]; simpl;
      try (eexists; split; reflexivity).
    destruct (runtime.HasMethod cls_ runtime.STR_METHOD 0).
    + destruct (runtime.Call exec addr cls_ runtime.STR_METHOD [] w)
        as [[h|s] w'].
      * destruct (runtime.Get h) as [o'|].
        -- apply IH.
        -- split; reflexivity.
      * split; reflexivity.
    + eexists; split; reflexivity.
Qed.

(** C9. [Print(Stringify(v))] and [Print(v)] give the same result, the same
    closure and the same world, hence the same text on the output stream,
    whatever [v] evaluates to.  [Stringify] of the empty holder is an
    owning [String] "None"; [Stringify] of an object is an owning [String]
    of the text its [Print] writes, which is also the text [Print] appends
    to the output stream. *)
Theorem Stringify_Print_consistent n argument_ closure w :
  ast.Execute (S (S n)) (Print [Stringify argument_]) closure w
  = ast.Execute (S n) (Print [argument_]) closure w
  /\ (forall c1 w1,
        ast.Execute n argument_ closure w = (Ok None_, c1, w1) ->
        ast.Execute (S n) (Stringify argument_) closure w
        = (Ok (Own (runtime.String "None")), c1, w1))
  /\ (forall v o c1 w1 text w2,
        ast.Execute n argument_ closure w = (Ok v, c1, w1) ->
        runtime.Get v = Some o ->
        runtime.Object_Print n (ast.Execute n) o runtime.local_buffer
                             EmptyString w1 = (Ok tt, (text, w2)) ->
        ast.Execute (S n) (Stringify argument_) closure w
        = (Ok (Own (runtime.String text)), c1, w2)
        /\ runtime.Object_Print n (ast.Execute n) o runtime.context_stream
                                EmptyString w1
           = (Ok tt, (EmptyString, ast.os_write w2 text))).
Proof.
  split; [|split].
  - change (ast.Execute (S (S n)) (Print [Stringify argument_]) closure w)
      with (ast.Print_Execute (S n) (ast.Execute (S n))
                              [Stringify argument_] closure w).
    change (ast.Execute (S n) (Print [argument_]) closure w)
      with (ast.Print_Execute n (ast.Execute n) [argument_] closure w).
    unfold ast.Print_Execute. cbn [ast.Print_loop].
    change (ast.Execute (S n) (Stringify argument_) closure w)
      with (ast.Stringify_Execute n (ast.Execute n) argument_ closure w).
    unfold ast.Stringify_Execute.
    destruct (ast.Execute n argument_ closure w) as [[[v|s] c1] w1];
      [|reflexivity].
    rewrite !bind_Ok.
    destruct (runtime.Get v) as [o|]; [|reflexivity].
    pose proof (Object_Print_either_stream n (ast.Execute n) o EmptyString w1)
      as Hboth.
    destruct (runtime.Object_Print n (ast.Execute n) o runtime.local_buffer
                                   EmptyString w1) as [[u|s] [buf' w2]].
    + destruct Hboth as (text & -> & ->). reflexivity.
    + destruct Hboth as (-> & ->). reflexivity.
  - intros c1 w1 Harg.
    change (ast.Execute (S n) (Stringify argument_) closure w)
      with (ast.Stringify_Execute n (ast.Execute n) argument_ closure w).
    unfold ast.Stringify_Execute. rewrite Harg. reflexivity.
  - intros v o c1 w1 text w2 Harg Hget Hprint.
    split.
    + change (ast.Execute (S n) (Stringify argument_) closure w)
        with (ast.Stringify_Execute n (ast.Execute n) argument_ closure w).
      unfold ast.Stringify_Execute.
      rewrite Harg, bind_Ok, Hget, Hprint. reflexivity.
    + pose proof (Object_Print_either_stream n (ast.Execute n) o EmptyString w1)
        as Hboth.
      rewrite Hprint in Hboth. destruct Hboth as (text' & -> & ->).
      reflexivity.
Qed.

Lemma Stringify_Print_consistent_witness :
  ast.Execute 2 (Stringify NoneConst) ∅ samples.w0
  = (Ok (Own (runtime.String "None")), ∅, samples.w0)
  /\ ast.Execute 8 (Stringify (NewInstance 1 samples.class_Loud []))
                 ∅ samples.w0
     = (Ok (Own (runtime.String "loud")), ∅,
        runtime.mkWorld ∅ ("asked" +:+ ast.endl))
  /\ ast.Execute 9 (Print [Stringify (NewInstance 1 samples.class_Loud [])])
                 ∅ samples.w0
     = (Ok None_, ∅,
        runtime.mkWorld ∅ ("asked" +:+ ast.endl +:+ "loud" +:+ ast.endl))
  /\ ast.Execute 8 (Print [NewInstance 1 samples.class_Loud []])
                 ∅ samples.w0
     = (Ok None_, ∅,
        runtime.mkWorld ∅ ("asked" +:+ ast.endl +:+ "loud" +:+ ast.endl)).
Proof.
  destruct (Stringify_Print_consistent
              7 (NewInstance 1 samples.class_Loud []) ∅ samples.w0)
    as (Hsame & _ & Hobj).
  destruct (Stringify_Print_consistent 1 NoneConst ∅ samples.w0)
    as (_ & Hnone & _).
  split; [|split; [|split]].
  - apply (Hnone ∅ samples.w0). reflexivity.
  - apply (Hobj (Share (runtime.ClassInstance 1 samples.class_Loud))
                (runtime.ClassInstance 1 samples.class_Loud)
                ∅ samples.w0 "loud"%string
                (runtime.mkWorld ∅ ("asked" +:+ ast.endl)));
      vm_compute; reflexivity.
  - rewrite Hsame. vm_compute. reflexivity.
  - vm_compute. reflexivity.
Defined.

End Evaluator.

(** * Properties of the comparisons *)

Section Comparisons.

Import runtime(World, ObjectHolder, Ok, Raise, Own, Share, None_).

Lemma String_compare_refl s : String.compare s s = Datatypes.Eq.
Proof.
  pose proof (String.compare_antisym s s) as H.
  destruct (String.compare s s); simpl in H; congruence.
Qed.

(** On strings exactly one of [<], [=], [>] holds. *)
Lemma String_trichotomy l r :
  properties.exactly_one
    (String.ltb l r && negb (String.eqb l r)) (String.eqb l r)
    (String.ltb r l && negb (String.eqb l r)) = true.
Proof.
  unfold String.ltb.
  pose proof (String.compare_antisym l r) as Hanti.
  destruct (String.compare l r) eqn:Hc;
    destruct (String.compare r l) eqn:Hc'; simpl in Hanti; try discriminate.
  - apply String.compare_eq_iff in Hc. subst r.
    rewrite String.eqb_refl. reflexivity.
  - destruct (String.eqb l r) eqn:He; [|reflexivity].
    apply String.eqb_eq in He. subst r.
    rewrite String_compare_refl in Hc. discriminate.
  - destruct (String.eqb l r) eqn:He; [|reflexivity].
    apply String.eqb_eq in He. subst r.
    rewrite String_compare_refl in Hc. discriminate.
Qed.

Lemma Z_trichotomy l r :
  properties.exactly_one
    ((l <? r) && negb (l =? r)) (l =? r) ((r <? l) && negb (l =? r)) = true.
Proof.
  destruct (Z.ltb_spec l r), (Z.eqb_spec l r), (Z.ltb_spec r l);
    simpl; try reflexivity; lia.
Qed.

(** C7, amended.  For two holders of the same primitive kind ([Bool],
    [Number] or [String]) [Less] and [Equal] return without raising and
    without calling into the program, and exactly one of
    [Less(a,b) and not Equal], [Equal(a,b)], [Less(b,a) and not Equal]
    holds.  For two primitives of different kinds [Equal] and [Less] throw
    "Cannot compare objects". *)
Theorem comparison_of_primitives (exec : runtime.Exec) w a b :
  properties.is_primitive a = true ->
  properties.is_primitive b = true ->
  if properties.same_primitive_kind a b
  then properties.comparison_total exec w a b
  else runtime.Equal exec a b w = (Raise runtime.Cannot_compare, w)
       /\ runtime.Less exec a b w = (Raise runtime.Cannot_compare, w).
Proof.
  unfold properties.is_primitive, properties.same_primitive_kind,
    properties.comparison_total.
  unfold runtime.Less, runtime.Equal, runtime.Comp, runtime.holds.
  intros Ha Hb.
  destruct (runtime.Get a) as [[l|l|l|l|l1 l2]|]; try discriminate;
    destruct (runtime.Get b) as [[r|r|r|r|r1 r2]|]; try discriminate;
    cbn [runtime.on_bool runtime.on_int runtime.on_string
         runtime.less runtime.equal_to negb andb];
    try (split; reflexivity).
  - eexists _, _, _. repeat (split; [reflexivity|]). apply Z_trichotomy.
  - eexists _, _, _. repeat (split; [reflexivity|]). apply String_trichotomy.
  - eexists _, _, _. repeat (split; [reflexivity|]).
    destruct l, r; reflexivity.
Qed.

Lemma comparison_of_primitives_witness :
  properties.comparison_total (ast.Execute 0) samples.w0
    (Own (runtime.String "abc")) (Share (runtime.String "abd"))
  /\ runtime.Less (ast.Execute 0) (Share (runtime.Number 1))
                  (Share (runtime.String "1")) samples.w0
     = (Raise runtime.Cannot_compare, samples.w0).
Proof.
  split.
  - apply (comparison_of_primitives (ast.Execute 0) samples.w0
             (Own (runtime.String "abc")) (Share (runtime.String "abd"))
             eq_refl eq_refl).
  - apply (comparison_of_primitives (ast.Execute 0) samples.w0
             (Share (runtime.Number 1)) (Share (runtime.String "1"))
             eq_refl eq_refl).
Defined.

(** C7 as stated fails on two primitives of different kinds: [Equal] of a
    [Bool] and a [Number] throws "Cannot compare objects". *)
Lemma comparison_not_total_across_kinds :
  properties.is_primitive (Own (runtime.Bool true)) = true
  /\ properties.is_primitive (Own (runtime.Number 1)) = true
  /\ runtime.Equal (ast.Execute 0) (Own (runtime.Bool true))
                   (Own (runtime.Number 1)) samples.w0
     = (Raise (runtime.runtime_error "Cannot compare objects"), samples.w0)
  /\ ~ properties.comparison_total (ast.Execute 0) samples.w0
         (Own (runtime.Bool true)) (Own (runtime.Number 1)).
Proof.
  split; [reflexivity|]. split; [reflexivity|]. split; [reflexivity|].
  intros (lt & eq & gt & Hlt & _). discriminate Hlt.
Qed.

End Comparisons.

(** * Properties of the lexer *)

Section LexerNumbers.

Lemma append_assoc (a b c : string) : (a +:+ b) +:+ c = a +:+ (b +:+ c).
Proof.
  induction a as [|x a IH]; [reflexivity|].
  change (String.String x ((a +:+ b) +:+ c) = String.String x (a +:+ b +:+ c)).
  now rewrite IH.
Qed.

Lemma append_nil_r (a : string) : a +:+ EmptyString = a.
Proof.
  induction a as [|x a IH]; [reflexivity|].
  change (String.String x (a +:+ EmptyString) = String.String x a).
  now rewrite IH.
Qed.

(** [read_while] takes a run of characters that satisfy [p] up to the
    first character that does not. *)
Lemma read_while_run p line run rest :
  forallb p run = true ->
  p (util.peek rest) = false ->
  p util.EOF_char = false ->
  util.read_while p line (run ++ rest)
  = (line +:+ string_of_list_ascii run, rest).
Proof.
  intros Hrun Hstop Heof. revert line Hrun.
  induction run as [|c run IH]; intros line Hrun; simpl in *.
  - destruct rest as [|c rest]; simpl in *.
    + now rewrite append_nil_r.
    + now rewrite Hstop, append_nil_r.
  - apply andb_true_iff in Hrun as [Hc Hrun]. rewrite Hc.
    rewrite IH by exact Hrun. unfold util.push_back.
    rewrite append_assoc. reflexivity.
Qed.

Lemma IsNum_not_special c :
  util.IsNum c = true ->
  Ascii.eqb c util.EOF_char = false
  /\ Ascii.eqb c util.line_feed = false
  /\ Ascii.eqb c "#" = false
  /\ Ascii.eqb c " " = false.
Proof.
  destruct c as [[] [] [] [] [] [] [] []]; intros H; try discriminate H;
    repeat split; reflexivity.
Qed.

Lemma string_of_list_ascii_nonempty run :
  run <> [] -> String.eqb (string_of_list_ascii run) EmptyString = false.
Proof. destruct run; [congruence|reflexivity]. Qed.

(** [ReadNumber] on a maximal run of digits. *)
Lemma ReadNumber_run digits rest :
  digits <> [] ->
  forallb util.IsNum digits = true ->
  util.IsNum (util.peek rest) = false ->
  util.ReadNumber (digits ++ rest)
  = (util.stoi (string_of_list_ascii digits), rest).
Proof.
  intros Hne Hdigits Hstop. unfold util.ReadNumber.
  rewrite (read_while_run util.IsNum EmptyString digits rest Hdigits Hstop)
    by reflexivity.
  change (EmptyString +:+ string_of_list_ascii digits)
    with (string_of_list_ascii digits).
  rewrite string_of_list_ascii_nonempty by exact Hne. reflexivity.
Qed.

(** C8, amended.  At a maximal run of decimal digits, with no indentation
    change pending, [NextToken] yields a [Number] token whose payload is
    the value of the run when that value is at most [INT_MAX], the input
    being left right after the run; a run of a larger value makes it throw
    [std::out_of_range]. *)
Theorem digit_run_is_int_token lx digits rest :
  digits <> [] ->
  forallb util.IsNum digits = true ->
  util.IsNum (util.peek rest) = false ->
  parse.input_ lx = digits ++ rest ->
  (parse.start_of_line_ lx
   && negb (parse.current_indent_ lx =? parse.line_indent_ lx))%bool = false ->
  parse.NextToken lx
  = if util.decimal_value 0 (string_of_list_ascii digits) <=? INT_MAX then
      LexOk (parse.mkLexer rest false (parse.current_indent_ lx)
               (parse.line_indent_ lx)
               (token_type.Number
                  (util.decimal_value 0 (string_of_list_ascii digits))))
    else LexThrow (std_out_of_range "stoi").
Proof.
  intros Hne Hdigits Hstop Hinput Hpending.
  unfold parse.NextToken, parse.ReadNextToken.
  cbn [parse.ReadNextToken_fuel].
  destruct digits as [|d digits]; [congruence|].
  assert (Hd : util.IsNum d = true).
  { simpl in Hdigits. apply andb_true_iff in Hdigits. tauto. }
  assert (Hpeek : util.peek (parse.input_ lx) = d) by (now rewrite Hinput).
  rewrite Hpeek.
  destruct (IsNum_not_special d Hd) as (-> & -> & -> & ->).
  rewrite Hpending.
  unfold parse.ParseToken. rewrite Hpeek, Hd, Hinput.
  rewrite (ReadNumber_run (d :: digits) rest Hne Hdigits Hstop).
  unfold util.stoi.
  destruct (util.decimal_value 0 (string_of_list_ascii (d :: digits))
            <=? INT_MAX); reflexivity.
Qed.

Lemma digit_run_is_int_token_witness :
  parse.NextToken
    (parse.mkLexer (list_ascii_of_string "2147483647+1") false 0 0
                   (token_type.Char "="))
  = LexOk (parse.mkLexer (list_ascii_of_string "+1") false 0 0
                         (token_type.Number 2147483647)).
Proof.
  apply (digit_run_is_int_token
           (parse.mkLexer (list_ascii_of_string "2147483647+1") false 0 0
                          (token_type.Char "="))
           (list_ascii_of_string "2147483647") (list_ascii_of_string "+1")).
  - discriminate.
  - reflexivity.
  - reflexivity.
  - reflexivity.
  - reflexivity.
Defined.

(** C8 as stated fails on a run that is a 64-bit value but no [int]: the
    lexer throws and the run yields no token. *)
Lemma digit_run_beyond_int_throws :
  util.decimal_value 0 "4294967296" = 4294967296
  /\ parse.Lexer_new (list_ascii_of_string "4294967296")
     = LexThrow (std_out_of_range "stoi")
  /\ parse.tokenize 8 (list_ascii_of_string "x = 4294967296")
     = ([token_type.Id "x"; token_type.Char "="],
        parse.threw (std_out_of_range "stoi")).
Proof. split; [|split]; vm_compute; reflexivity. Qed.

End LexerNumbers.

Section LexerStream.

Import properties.

(** *** Consumption of the input *)

Lemma read_while_length p line input :
  (length (snd (util.read_while p line input)) <= length input)%nat.
Proof.
  revert line. induction input as [|c rest IH]; intros line; simpl.
  - lia.
  - destruct (p c); simpl; [|lia]. specialize (IH (util.push_back line c)). lia.
Qed.

Lemma read_while_consumes p line c rest :
  p c = true ->
  (length (snd (util.read_while p line (c :: rest))) < length (c :: rest))%nat.
Proof.
  intros Hc. simpl. rewrite Hc.
  pose proof (read_while_length p (util.push_back line c) rest). lia.
Qed.

Lemma ReadLine_length input :
  (length (util.ReadLine input) <= length input)%nat.
Proof.
  induction input as [|c rest IH]; simpl; [lia|].
  destruct (Ascii.eqb c util.line_feed); simpl; lia.
Qed.

Lemma skip_comment_length input :
  (length (parse.skip_comment input) <= length input)%nat.
Proof.
  induction input as [|c rest IH]; simpl; [lia|].
  destruct (Ascii.eqb c util.line_feed); simpl; lia.
Qed.

Lemma ReadString_loop_length first input :
  forall line c,
    (length (snd (util.ReadString_loop first line c input)) <= length input)%nat.
Proof.
  induction input as [input IH] using (well_founded_induction
                                         (Wf_nat.well_founded_ltof _ (@length ascii))).
  intros line c. destruct input as [|ch rest]; simpl; [lia|].
  destruct (Ascii.eqb ch util.backslash).
  - destruct rest as [|next rest']; simpl; [lia|].
    match goal with
    | |- context [util.ReadString_loop first ?l ?c' rest'] =>
        specialize (IH rest' ltac:(unfold Wf_nat.ltof; simpl; lia) l c')
    end.
    lia.
  - destruct (Ascii.eqb ch first); simpl; [lia|].
    specialize (IH rest ltac:(unfold Wf_nat.ltof; simpl; lia)
                   (util.push_back line ch) (Some ch)).
    lia.
Qed.

Lemma peek_is c input :
  Ascii.eqb (util.peek input) c = true ->
  Ascii.eqb c util.EOF_char = false ->
  exists rest, input = c :: rest.
Proof.
  intros Hpeek Hc. destruct input as [|c' rest]; cbn [util.peek] in Hpeek.
  - apply Ascii.eqb_eq in Hpeek. subst c. discriminate Hc.
  - apply Ascii.eqb_eq in Hpeek. subst c'. eauto.
Qed.

Lemma peek_not_EOF input :
  Ascii.eqb (util.peek input) util.EOF_char = false ->
  exists c rest, input = c :: rest.
Proof.
  destruct input as [|c rest]; cbn [util.peek]; [discriminate|eauto].
Qed.

(** *** Tokens of [ParseToken] *)

Lemma KeyWords_plain name t :
  util.KeyWords name = Some t -> delta t = 0 /\ parse.is_Eof t = false.
Proof.
  unfold util.KeyWords.
  repeat match goal with
         | |- context [if ?b then _ else _] => destruct b
         end; intros [= <-]; split; reflexivity.
Qed.

Lemma DualSymbols_plain sym_pair t :
  util.DualSymbols sym_pair = Some t -> delta t = 0 /\ parse.is_Eof t = false.
Proof.
  unfold util.DualSymbols.
  repeat match goal with
         | |- context [if ?b then _ else _] => destruct b
         end; intros [= <-]; split; reflexivity.
Qed.

(** [ParseToken] consumes at least one character, leaves the counters
    alone and produces neither [Indent], [Dedent] nor [Eof]. *)
Lemma ParseToken_plain lx lx' :
  Ascii.eqb (util.peek (parse.input_ lx)) util.EOF_char = false ->
  parse.ParseToken lx = LexOk lx' ->
  (length (parse.input_ lx') < length (parse.input_ lx))%nat
  /\ parse.current_indent_ lx' = parse.current_indent_ lx
  /\ parse.line_indent_ lx' = parse.line_indent_ lx
  /\ delta (parse.current_token_ lx') = 0
  /\ parse.is_Eof (parse.current_token_ lx') = false.
Proof.
  intros Hpeek. destruct (peek_not_EOF _ Hpeek) as (c & rest & Hinput).
  unfold parse.ParseToken. rewrite Hinput. cbn [util.peek].
  destruct (util.IsNum c) eqn:Hnum.
  - unfold util.ReadNumber.
    pose proof (read_while_consumes util.IsNum EmptyString c rest Hnum) as Hlen.
    destruct (util.read_while util.IsNum EmptyString (c :: rest)) as [num r].
    destruct (String.eqb num EmptyString).
    + intros [= <-]. simpl in *. repeat split; try reflexivity. lia.
    + unfold util.stoi. destruct (_ <=? INT_MAX); [|discriminate].
      intros [= <-]. simpl in *. repeat split; try reflexivity. lia.
  - destruct (util.IsAlNumLL c) eqn:Hal.
    + intros [= <-]. unfold parse.ParseName, util.ReadName. rewrite Hinput.
      pose proof (read_while_consumes util.IsAlNumLL EmptyString c rest Hal)
        as Hlen.
      destruct (util.read_while util.IsAlNumLL EmptyString (c :: rest))
        as [name r].
      simpl in *. repeat split; try reflexivity; try lia.
      * destruct (util.KeyWords name) eqn:Hkw; [|reflexivity].
        apply (KeyWords_plain _ _ Hkw).
      * destruct (util.KeyWords name) eqn:Hkw; [|reflexivity].
        apply (KeyWords_plain _ _ Hkw).
    + destruct (Ascii.eqb c util.quote || Ascii.eqb c util.apostrophe)%bool.
      * unfold util.ReadString.
        pose proof (ReadString_loop_length c rest EmptyString None) as Hlen.
        destruct (util.ReadString_loop c EmptyString None rest)
          as [[line last] r].
        destruct last as [c'|]; [|discriminate].
        destruct (Ascii.eqb c' c); [|discriminate].
        intros [= <-]. simpl in *. repeat split; try reflexivity. lia.
      * intros [= <-]. unfold parse.ParseChar. rewrite Hinput.
        destruct (util.DualSymbols _) eqn:Hdual; simpl.
        -- destruct (DualSymbols_plain _ _ Hdual) as [Hd He].
           repeat split; try assumption; try reflexivity.
           destruct rest; simpl; lia.
        -- repeat split; try reflexivity. lia.
Qed.

(** *** One call of [ReadNextToken] *)

Lemma pending_bounds lx :
  counters_ok lx -> 0 <= pending lx <= UINT32_MODULUS.
Proof.
  unfold counters_ok, pending, UINT32_MODULUS. intros [Hc Hl].
  destruct (at_end lx), (parse.start_of_line_ lx); lia.
Qed.

Lemma measure_nonneg lx : counters_ok lx -> 0 <= measure lx.
Proof.
  intros Hok. pose proof (pending_bounds lx Hok) as Hp.
  unfold measure, UINT32_MODULUS in *. lia.
Qed.

(** Consuming a character pays for everything that can be pending. *)
Lemma measure_shorter lx lx' :
  counters_ok lx -> counters_ok lx' ->
  (length (parse.input_ lx') < length (parse.input_ lx))%nat ->
  measure lx' < measure lx.
Proof.
  intros Hok Hok' Hlen.
  pose proof (pending_bounds lx Hok) as Hp.
  pose proof (pending_bounds lx' Hok') as Hp'.
  unfold measure, UINT32_MODULUS in *. lia.
Qed.

Lemma uint32_wrap_small z :
  0 <= z < UINT32_MODULUS -> uint32_wrap z = z.
Proof. intros Hz. unfold uint32_wrap. apply Z.mod_small. exact Hz. Qed.

Lemma uint32_wrap_range z : 0 <= uint32_wrap z < UINT32_MODULUS.
Proof.
  unfold uint32_wrap. apply Z.mod_pos_bound. unfold UINT32_MODULUS. lia.
Qed.

Lemma ParseToken_returns lx : parse.ParseToken lx <> LexOutOfFuel.
Proof.
  unfold parse.ParseToken.
  destruct (util.IsNum _).
  - unfold util.ReadNumber.
    destruct (util.read_while _ _ _) as [num r].
    destruct (String.eqb num EmptyString); [discriminate|].
    unfold util.stoi. destruct (_ <=? INT_MAX); discriminate.
  - destruct (util.IsAlNumLL _); [discriminate|].
    destruct (_ || _)%bool; [|discriminate].
    unfold util.ReadString.
    destruct (parse.input_ lx) as [|first rest]; [discriminate|].
    destruct (util.ReadString_loop _ _ _ _) as [[line c] r].
    destruct c as [c|]; [destruct (Ascii.eqb c first)|]; discriminate.
Qed.

(** With more fuel than characters [ReadNextToken_fuel] does not run out. *)
Lemma ReadNextToken_fuel_enough n lx :
  (length (parse.input_ lx) < n)%nat ->
  parse.ReadNextToken_fuel n lx <> LexOutOfFuel.
Proof.
  revert lx. induction n as [|n IH]; intros lx Hlen; [lia|].
  cbn [parse.ReadNextToken_fuel].
  destruct (Ascii.eqb (util.peek (parse.input_ lx)) util.EOF_char) eqn:Heof;
    [discriminate|].
  destruct (Ascii.eqb (util.peek (parse.input_ lx)) util.line_feed) eqn:Hnl.
  { destruct (peek_is _ _ Hnl eq_refl) as (rest & Hinput).
    unfold parse.ParseLineEnd.
    destruct (parse.start_of_line_ lx); [|discriminate].
    apply IH. unfold parse.NextLine. cbn [parse.input_].
    pose proof (ReadLine_length rest) as Hr.
    rewrite Hinput in *. simpl in *. lia. }
  destruct (Ascii.eqb (util.peek (parse.input_ lx)) "#") eqn:Hhash.
  { destruct (peek_is _ _ Hhash eq_refl) as (rest & Hinput).
    unfold parse.ParseComment. apply IH. cbn [parse.input_].
    pose proof (skip_comment_length rest) as Hr.
    rewrite Hinput in *. simpl in *. lia. }
  destruct (Ascii.eqb (util.peek (parse.input_ lx)) " ") eqn:Hsp.
  { destruct (peek_is _ _ Hsp eq_refl) as (rest & Hinput).
    unfold parse.ParseSpaces, util.CountSpaces.
    pose proof (read_while_consumes (Ascii.eqb " ") EmptyString " " rest
                                    eq_refl) as Hr.
    rewrite Hinput.
    destruct (util.read_while (Ascii.eqb " ") EmptyString (" "%char :: rest))
      as [spaces r].
    apply IH. cbn [parse.input_]. rewrite Hinput in Hlen. simpl in *. lia. }
  destruct (parse.start_of_line_ lx
            && negb (parse.current_indent_ lx =? parse.line_indent_ lx))%bool;
    [discriminate|].
  pose proof (ParseToken_returns lx) as Hret.
  destruct (parse.ParseToken lx) as [lx0|e|]; congruence.
Qed.

(** What one call of [ReadNextToken] does to the counters: they stay
    [uint32_t]s, the indent counter moves by what the token says, [Eof]
    comes only at indent 0 at the end of the input, and any other token
    decreases [measure]. *)
Lemma ReadNextToken_fuel_step n lx lx' :
  counters_ok lx ->
  parse.ReadNextToken_fuel n lx = LexOk lx' ->
  counters_ok lx'
  /\ parse.current_indent_ lx'
     = parse.current_indent_ lx + delta (parse.current_token_ lx')
  /\ (parse.is_Eof (parse.current_token_ lx') = true ->
      parse.current_indent_ lx' = 0
      /\ at_end lx' = true /\ parse.start_of_line_ lx' = true)
  /\ (parse.is_Eof (parse.current_token_ lx') = false ->
      measure lx' < measure lx).
Proof.
  revert lx. induction n as [|n IH]; intros lx Hok; [discriminate|].
  cbn [parse.ReadNextToken_fuel].
  destruct (Ascii.eqb (util.peek (parse.input_ lx)) util.EOF_char) eqn:Heof.
  { (* ParseEOF *)
    intros [= <-]. unfold parse.ParseEOF.
    destruct Hok as [Hc Hl].
    destruct (parse.start_of_line_ lx) eqn:Hsol; cbn [negb].
    - destruct (0 <? parse.current_indent_ lx) eqn:Hpos.
      + apply Z.ltb_lt in Hpos.
        cbn [parse.current_indent_ parse.current_token_ parse.is_Eof delta].
        rewrite uint32_wrap_small by (unfold UINT32_MODULUS in *; lia).
        split; [|split; [|split]].
        * split; cbn; unfold UINT32_MODULUS in *; lia.
        * lia.
        * discriminate.
        * intros _. unfold measure, pending, at_end.
          cbn [parse.input_ parse.start_of_line_ parse.current_indent_].
          rewrite Heof, Hsol. lia.
      + apply Z.ltb_ge in Hpos.
        split; [split; assumption|]. split; [cbn; lia|].
        split; [|discriminate].
        intros _. split; [cbn; lia|]. split; [exact Heof|exact Hsol].
    - unfold parse.set_token, parse.NextLine.
      cbn [parse.current_indent_ parse.current_token_ parse.is_Eof delta
           parse.input_ parse.line_indent_ parse.start_of_line_].
      split; [|split; [|split]].
      + split; cbn; unfold UINT32_MODULUS in *; lia.
      + lia.
      + discriminate.
      + intros _. destruct (parse.input_ lx) as [|c rest] eqn:Hinput.
        * unfold measure, pending, at_end.
          cbn [parse.input_ parse.start_of_line_ parse.current_indent_].
          rewrite Hinput, Hsol. cbn. lia.
        * apply measure_shorter.
          -- split; assumption.
          -- split; cbn; unfold UINT32_MODULUS in *; lia.
          -- cbn [parse.input_]. rewrite Hinput.
             pose proof (ReadLine_length (c :: rest)) as Hr.
             cbn [util.ReadLine] in *.
             destruct (Ascii.eqb c util.line_feed).
             ++ simpl. lia.
             ++ pose proof (ReadLine_length rest). simpl. lia. }
  destruct (Ascii.eqb (util.peek (parse.input_ lx)) util.line_feed) eqn:Hnl.
  { (* ParseLineEnd *)
    destruct (peek_is _ _ Hnl eq_refl) as (rest & Hinput).
    assert (Hok' : counters_ok (parse.NextLine lx)).
    { destruct Hok as [Hc Hl]. split; cbn; unfold UINT32_MODULUS in *; lia. }
    assert (Hshort : (length (parse.input_ (parse.NextLine lx))
                      < length (parse.input_ lx))%nat).
    { cbn [parse.NextLine parse.input_]. rewrite Hinput. simpl. lia. }
    unfold parse.ParseLineEnd.
    destruct (parse.start_of_line_ lx).
    - intros Hrec. destruct (IH _ Hok' Hrec) as (H1 & H2 & H3 & H4).
      split; [exact H1|]. split; [exact H2|]. split; [exact H3|].
      intros Hne. specialize (H4 Hne).
      pose proof (measure_shorter lx (parse.NextLine lx) Hok Hok' Hshort).
      lia.
    - intros [= <-].
      assert (Hok'' : counters_ok
                        (parse.set_token (parse.NextLine lx)
                                         token_type.Newline))
        by exact Hok'.
      split; [exact Hok''|]. split; [cbn; lia|]. split; [discriminate|].
      intros _. apply measure_shorter; [exact Hok|exact Hok''|exact Hshort]. }
  destruct (Ascii.eqb (util.peek (parse.input_ lx)) "#") eqn:Hhash.
  { (* ParseComment *)
    destruct (peek_is _ _ Hhash eq_refl) as (rest & Hinput).
    unfold parse.ParseComment.
    set (lx1 := parse.mkLexer _ _ _ _ _).
    assert (Hok' : counters_ok lx1) by exact Hok.
    assert (Hshort : (length (parse.input_ lx1)
                      < length (parse.input_ lx))%nat).
    { cbn [lx1 parse.input_]. rewrite Hinput.
      pose proof (skip_comment_length rest). simpl. lia. }
    intros Hrec. destruct (IH _ Hok' Hrec) as (H1 & H2 & H3 & H4).
    split; [exact H1|]. split; [exact H2|]. split; [exact H3|].
    intros Hne. specialize (H4 Hne).
    pose proof (measure_shorter lx lx1 Hok Hok' Hshort). lia. }
  destruct (Ascii.eqb (util.peek (parse.input_ lx)) " ") eqn:Hsp.
  { (* ParseSpaces *)
    destruct (peek_is _ _ Hsp eq_refl) as (rest & Hinput).
    unfold parse.ParseSpaces, util.CountSpaces.
    pose proof (read_while_consumes (Ascii.eqb " ") EmptyString " " rest
                                    eq_refl) as Hr.
    rewrite Hinput.
    destruct (util.read_while (Ascii.eqb " ") EmptyString (" "%char :: rest))
      as [spaces r].
    set (lx1 := parse.mkLexer _ _ _ _ _).
    assert (Hok' : counters_ok lx1).
    { destruct Hok as [Hc Hl]. split; [exact Hc|].
      cbn [lx1 parse.line_indent_].
      destruct (parse.start_of_line_ lx); [apply uint32_wrap_range|exact Hl]. }
    assert (Hshort : (length (parse.input_ lx1)
                      < length (parse.input_ lx))%nat).
    { cbn [lx1 parse.input_]. rewrite Hinput. simpl in *. lia. }
    intros Hrec. destruct (IH _ Hok' Hrec) as (H1 & H2 & H3 & H4).
    split; [exact H1|]. split; [exact H2|]. split; [exact H3|].
    intros Hne. specialize (H4 Hne).
    pose proof (measure_shorter lx lx1 Hok Hok' Hshort). lia. }
  destruct (parse.start_of_line_ lx
            && negb (parse.current_indent_ lx =? parse.line_indent_ lx))%bool
           eqn:Hind.
  { (* ParseIndent *)
    apply andb_true_iff in Hind as [Hsol Hneq].
    apply negb_true_iff, Z.eqb_neq in Hneq.
    intros [= <-]. unfold parse.ParseIndent. destruct Hok as [Hc Hl].
    destruct (parse.current_indent_ lx <? parse.line_indent_ lx) eqn:Hlt.
    - apply Z.ltb_lt in Hlt.
      cbn [parse.current_indent_ parse.current_token_ parse.is_Eof delta].
      rewrite uint32_wrap_small by (unfold UINT32_MODULUS in *; lia).
      split; [split; cbn; unfold UINT32_MODULUS in *; lia|].
      split; [lia|]. split; [discriminate|].
      intros _. unfold measure, pending, at_end.
      cbn [parse.input_ parse.start_of_line_ parse.current_indent_
           parse.line_indent_].
      rewrite Heof, Hsol. lia.
    - apply Z.ltb_ge in Hlt.
      assert (Hgt : parse.line_indent_ lx < parse.current_indent_ lx) by lia.
      apply Z.ltb_lt in Hgt. rewrite Hgt. apply Z.ltb_lt in Hgt.
      cbn [parse.current_indent_ parse.current_token_ parse.is_Eof delta].
      rewrite uint32_wrap_small by (unfold UINT32_MODULUS in *; lia).
      split; [split; cbn; unfold UINT32_MODULUS in *; lia|].
      split; [lia|]. split; [discriminate|].
      intros _. unfold measure, pending, at_end.
      cbn [parse.input_ parse.start_of_line_ parse.current_indent_
           parse.line_indent_].
      rewrite Heof, Hsol. lia. }
  (* ParseToken *)
  pose proof (ParseToken_plain lx) as Hplain.
  destruct (parse.ParseToken lx) as [lx0|e|]; try discriminate.
  destruct (Hplain lx0 Heof eq_refl) as (Hlen & Hcur & Hline & Hdelta & Hne).
  intros [= <-].
  cbn [parse.current_indent_ parse.current_token_ parse.line_indent_].
  assert (Hok' : counters_ok
                   (parse.mkLexer (parse.input_ lx0) false
                      (parse.current_indent_ lx0) (parse.line_indent_ lx0)
                      (parse.current_token_ lx0))).
  { destruct Hok as [Hc Hl]. split; cbn; congruence. }
  split; [exact Hok'|]. split; [lia|]. split; [congruence|].
  intros _. apply measure_shorter; [exact Hok|exact Hok'|exact Hlen].
Qed.

(** *** The whole stream *)

Lemma count_cons_delta t body :
  parse.is_Eof t = false ->
  Z.of_nat (count is_Indent (t :: body))
  - Z.of_nat (count is_Dedent (t :: body))
  = delta t + (Z.of_nat (count is_Indent body)
               - Z.of_nat (count is_Dedent body)).
Proof.
  intros _. unfold count. destruct t; simpl; lia.
Qed.

Lemma NextToken_returns lx : parse.NextToken lx <> LexOutOfFuel.
Proof.
  unfold parse.NextToken, parse.ReadNextToken.
  apply ReadNextToken_fuel_enough. lia.
Qed.

Lemma stream_ends_at_Eof lx :
  parse.is_Eof (parse.current_token_ lx) = true ->
  parse.current_indent_ lx = 0 ->
  stream_ends lx.
Proof.
  intros Ht Hcur.
  exists 1%nat, [parse.current_token_ lx], parse.at_Eof.
  cbn [parse.tokens_from]. unfold parse.CurrentToken. rewrite Ht.
  split; [reflexivity|]. split; [discriminate|].
  intros _. exists [].
  destruct (parse.current_token_ lx); try discriminate Ht.
  split; [reflexivity|]. split; [reflexivity|]. cbn. lia.
Qed.

(** From a lexer whose counters are sound, finitely many calls of
    [NextToken] end the stream, at [Eof] or on an exception; at [Eof] the
    [Indent]s and [Dedent]s read make up for the indent counter. *)
Lemma tokens_from_ends (m : nat) :
  forall lx,
    (Z.to_nat (measure lx) < m)%nat ->
    counters_ok lx ->
    (parse.is_Eof (parse.current_token_ lx) = true ->
     parse.current_indent_ lx = 0) ->
    stream_ends lx.
Proof.
  induction m as [|m IH]; intros lx Hm Hok Heof0; [lia|].
  destruct (parse.is_Eof (parse.current_token_ lx)) eqn:Ht.
  - apply stream_ends_at_Eof; auto.
  - pose proof (NextToken_returns lx) as Hret.
    destruct (parse.NextToken lx) as [lx'|e|] eqn:Hnext; [| |congruence].
    + destruct (ReadNextToken_fuel_step _ _ _ Hok Hnext)
        as (Hok' & Hcur & Heof' & Hdec).
      assert (Hrec : stream_ends lx').
      { destruct (parse.is_Eof (parse.current_token_ lx')) eqn:Ht'.
        - apply stream_ends_at_Eof; [exact Ht'|]. apply (Heof' eq_refl).
        - apply IH; [|exact Hok'|rewrite Ht'; discriminate].
          specialize (Hdec eq_refl).
          pose proof (measure_nonneg lx' Hok'). lia. }
      destruct Hrec as (calls & toks & e & Hfrom & Hmore & Hbal).
      exists (S calls), (parse.current_token_ lx :: toks), e.
      cbn [parse.tokens_from]. unfold parse.CurrentToken.
      rewrite Ht, Hnext, Hfrom.
      split; [reflexivity|]. split; [exact Hmore|].
      intros He. destruct (Hbal He) as (body & -> & Hno & Hcount).
      exists (parse.current_token_ lx :: body).
      split; [reflexivity|]. split; [cbn; now rewrite Ht|].
      rewrite count_cons_delta by exact Ht. lia.
    + exists 1%nat, [parse.current_token_ lx], (parse.threw e).
      cbn [parse.tokens_from]. unfold parse.CurrentToken.
      rewrite Ht, Hnext.
      split; [reflexivity|]. split; [discriminate|]. discriminate.
Qed.

(** Once [Eof] has been returned, every further call returns it again and
    leaves the lexer as it is. *)
Lemma Eof_is_final lx lx' :
  counters_ok lx ->
  parse.NextToken lx = LexOk lx' ->
  parse.is_Eof (parse.current_token_ lx') = true ->
  parse.NextToken lx' = LexOk lx'.
Proof.
  intros Hok Hnext Ht.
  destruct (ReadNextToken_fuel_step _ _ _ Hok Hnext) as (_ & _ & Heof & _).
  destruct (Heof Ht) as (Hcur & Hend & Hsol).
  unfold parse.NextToken, parse.ReadNextToken.
  cbn [parse.ReadNextToken_fuel]. unfold at_end in Hend. rewrite Hend.
  unfold parse.ParseEOF. rewrite Hsol, Hcur. cbn [negb Z.ltb Z.compare].
  destruct lx' as [i s c l t]. cbn in *.
  destruct t; try discriminate Ht. reflexivity.
Qed.

(** *** End of input *)

Lemma tokens_from_next n lx :
  parse.is_Eof (parse.current_token_ lx) = false ->
  parse.tokens_from (S n) lx
  = let '(ts, e) := parse.tokens_after n lx in
    (parse.current_token_ lx :: ts, e).
Proof.
  intros Ht. cbn [parse.tokens_from]. unfold parse.CurrentToken.
  rewrite Ht. unfold parse.tokens_after.
  destruct (parse.NextToken lx); reflexivity.
Qed.

Lemma NextToken_at_end lx :
  parse.input_ lx = [] -> parse.NextToken lx = LexOk (parse.ParseEOF lx).
Proof.
  intros Hinput. unfold parse.NextToken, parse.ReadNextToken.
  rewrite Hinput. cbn [length parse.ReadNextToken_fuel].
  rewrite Hinput. reflexivity.
Qed.

(** At the end of the input, at the start of a line: one [Dedent] per call
    while the indent counter is positive, then [Eof]. *)
Lemma Dedents_then_Eof k :
  forall lx,
    parse.input_ lx = [] ->
    parse.start_of_line_ lx = true ->
    parse.current_indent_ lx = Z.of_nat k ->
    Z.of_nat k < UINT32_MODULUS ->
    parse.tokens_after (S k) lx
    = (repeat token_type.Dedent k ++ [token_type.Eof], parse.at_Eof).
Proof.
  induction k as [|k IH]; intros lx Hinput Hsol Hcur Hk.
  - unfold parse.tokens_after. rewrite (NextToken_at_end lx Hinput).
    unfold parse.ParseEOF. rewrite Hsol, Hcur. reflexivity.
  - unfold parse.tokens_after. rewrite (NextToken_at_end lx Hinput).
    unfold parse.ParseEOF. rewrite Hsol, Hcur.
    cbn [negb].
    replace (0 <? Z.of_nat (S k)) with true by (symmetry; apply Z.ltb_lt; lia).
    rewrite uint32_wrap_small by lia.
    rewrite tokens_from_next by reflexivity.
    rewrite IH; [reflexivity| | | |];
      cbn [parse.input_ parse.start_of_line_ parse.current_indent_];
      try assumption; lia.
Qed.

(** C5, amended.  Reading any input token by token either ends on an
    exception of the lexer or reaches [Eof]; in the latter case the stream
    read ends with its only [Eof] and holds as many [Indent]s as [Dedent]s
    before it.  At the end of the input the calls of [NextToken] return a
    [Newline] if the last line was not ended, then one [Dedent] per call
    for as long as the indent counter is positive, then [Eof]. *)
Theorem token_stream_ends_balanced :
  (forall input, lexing_throws input \/ lexes_to_Eof input)
  /\ (forall lx,
         parse.input_ lx = [] ->
         counters_ok lx ->
         exists calls,
           parse.tokens_after calls lx
           = ((if parse.start_of_line_ lx then [] else [token_type.Newline])
              ++ repeat token_type.Dedent
                        (Z.to_nat (parse.current_indent_ lx))
              ++ [token_type.Eof],
              parse.at_Eof)).
Proof.
  split.
  - intros input. unfold lexing_throws, lexes_to_Eof, parse.tokenize.
    set (lx0 := parse.mkLexer input true 0 0 (token_type.Number 0)).
    assert (Hok0 : counters_ok lx0) by (split; cbn; unfold UINT32_MODULUS; lia).
    pose proof (NextToken_returns lx0) as Hret.
    unfold parse.Lexer_new. fold lx0.
    change (parse.ReadNextToken lx0) with (parse.NextToken lx0).
    destruct (parse.NextToken lx0) as [lx|e|] eqn:Hnew; [| |congruence].
    + destruct (ReadNextToken_fuel_step _ _ _ Hok0 Hnew)
        as (Hok & Hcur & Heof & _).
      destruct (tokens_from_ends (S (Z.to_nat (measure lx))) lx
                  ltac:(lia) Hok (fun He => proj1 (Heof He)))
        as (calls & toks & e & Hfrom & Hmore & Hbal).
      destruct e as [|e|]; [| |congruence].
      * right. exists calls, toks. split; [exact Hfrom|].
        destruct (Hbal eq_refl) as (body & -> & Hno & Hcount).
        exists body. split; [reflexivity|]. split; [exact Hno|].
        cbn [parse.current_indent_ lx0] in Hcur. lia.
      * left. exists calls, toks, e. exact Hfrom.
    + left. exists 0%nat, [], e. reflexivity.
  - intros lx Hinput [Hc Hl].
    destruct (parse.start_of_line_ lx) eqn:Hsol.
    + exists (S (Z.to_nat (parse.current_indent_ lx))).
      apply Dedents_then_Eof; try assumption; lia.
    + exists (S (S (Z.to_nat (parse.current_indent_ lx)))).
      unfold parse.tokens_after. rewrite (NextToken_at_end lx Hinput).
      unfold parse.ParseEOF. rewrite Hsol. cbn [negb].
      rewrite tokens_from_next by reflexivity.
      rewrite Dedents_then_Eof; [reflexivity| | | |];
        cbn [parse.set_token parse.NextLine parse.input_
             parse.start_of_line_ parse.current_indent_ util.ReadLine];
        try reflexivity; try lia.
      rewrite Hinput. reflexivity.
Qed.

Lemma token_stream_ends_balanced_witness :
  (lexing_throws (list_ascii_of_string "if x:")
   \/ lexes_to_Eof (list_ascii_of_string "if x:"))
  /\ exists calls,
      parse.tokens_after calls
        (parse.mkLexer [] false 2 2 (token_type.Id "x"))
      = ([token_type.Newline; token_type.Dedent; token_type.Dedent;
          token_type.Eof], parse.at_Eof).
Proof.
  split.
  - apply (proj1 token_stream_ends_balanced (list_ascii_of_string "if x:")).
  - apply (proj2 token_stream_ends_balanced
             (parse.mkLexer [] false 2 2 (token_type.Id "x")) eq_refl).
    split; cbn; unfold UINT32_MODULUS; lia.
Defined.

(** C5 as stated fails on an input with an unterminated string literal:
    the lexer throws and no [Eof] is ever read. *)
Lemma unterminated_string_never_reaches_Eof :
  parse.tokenize 5 (list_ascii_of_string "print 'a")
  = ([token_type.Print],
     parse.threw (std_runtime_error "Failed to parse string : a"))
  /\ ~ lexes_to_Eof (list_ascii_of_string "print 'a").
Proof.
  split; [vm_compute; reflexivity|].
  intros (calls & toks & Hread & _).
  destruct calls as [|[|calls]]; vm_compute in Hread; discriminate Hread.
Qed.

End LexerStream.

(** * The sample programs run *)

Section Scenarios.

Example inheritance_program_prints_11 :
  ast.Execute 12 samples.inheritance_program ∅ samples.w0
  = (runtime.Ok runtime.None_,
     <["B" := runtime.Share (runtime.OfClass samples.class_B)]>
       (<["A" := runtime.Share (runtime.OfClass samples.class_A)]> ∅),
     runtime.mkWorld ∅ ("11" +:+ ast.endl)).
Proof. vm_compute. reflexivity. Qed.

Example fallback_program_prints_True :
  runtime.output (snd (ast.Execute 6 samples.fallback_program ∅ samples.w0))
  = "True" +:+ ast.endl.
Proof. vm_compute. reflexivity. Qed.

Example nested_return_program_prints_7_None :
  runtime.output (snd (ast.Execute 12 samples.nested_return_program
                                   ∅ samples.w0))
  = "7 None" +:+ ast.endl.
Proof. vm_compute. reflexivity. Qed.

Example indented_source_tokens :
  parse.tokenize 20 samples.indented_source
  = ([ token_type.Class; token_type.Id "A"; token_type.Char ":";
       token_type.Newline; token_type.Indent; token_type.Def;
       token_type.Id "f"; token_type.Char "("; token_type.Char ")";
       token_type.Char ":"; token_type.Newline; token_type.Indent;
       token_type.Return; token_type.Number 1; token_type.Newline;
       token_type.Dedent; token_type.Dedent; token_type.Eof ],
     parse.at_Eof).
Proof. vm_compute. reflexivity. Qed.

End Scenarios.

(** * Invariants of an evaluation *)

Section Growth.

Import runtime(Closure, World, ObjectHolder, Ok, Raise, Own, Share, None_).
Import invariants.

Lemma keeps_names_refl (c : Closure) : keeps_names c c.
Proof. intros x H. exact H. Qed.

Lemma keeps_names_trans (c1 c2 c3 : Closure) :
  keeps_names c1 c2 -> keeps_names c2 c3 -> keeps_names c1 c3.
Proof. intros H12 H23 x H. apply H23, H12, H. Qed.

Lemma keeps_names_insert (c : Closure) k h : keeps_names c (<[k := h]> c).
Proof.
  intros x H. destruct (decide (k = x)) as [->|Hne].
  - rewrite lookup_insert_eq. eauto.
  - rewrite lookup_insert_ne by exact Hne. exact H.
Qed.

Lemma grows_refl c w : grows c w c w.
Proof.
  split; [apply keeps_names_refl|]. split.
  - intros addr. apply keeps_names_refl.
  - exists EmptyString. now rewrite append_nil_r.
Qed.

Lemma grows_trans c1 w1 c2 w2 c3 w3 :
  grows c1 w1 c2 w2 -> grows c2 w2 c3 w3 -> grows c1 w1 c3 w3.
Proof.
  intros (Hn & Hf & [t Ho]) (Hn' & Hf' & [t' Ho']).
  split; [eapply keeps_names_trans; eauto|]. split.
  - intros addr. eapply keeps_names_trans; [apply Hf|apply Hf'].
  - exists (t +:+ t'). rewrite Ho', Ho. apply append_assoc.
Qed.

Lemma grows_os_write c w text : grows c w c (ast.os_write w text).
Proof.
  split; [apply keeps_names_refl|]. split.
  - intros addr. apply keeps_names_refl.
  - exists text. reflexivity.
Qed.

Lemma grows_insert c w k h : grows c w (<[k := h]> c) w.
Proof.
  split; [apply keeps_names_insert|]. split.
  - intros addr. apply keeps_names_refl.
  - exists EmptyString. now rewrite append_nil_r.
Qed.

Lemma grows_set_field c w addr k h :
  grows c w c
        (runtime.set_Fields w addr (<[k := h]> (runtime.Fields w addr))).
Proof.
  split; [apply keeps_names_refl|]. split.
  - intros a. unfold runtime.Fields, runtime.set_Fields. cbn.
    destruct (decide (addr = a)) as [->|Hne].
    + rewrite lookup_insert_eq. cbn. apply keeps_names_insert.
    + rewrite lookup_insert_ne by exact Hne. apply keeps_names_refl.
  - exists EmptyString. cbn. now rewrite append_nil_r.
Qed.

Lemma world_grows_of c w c' w' : grows c w c' w' -> world_grows w w'.
Proof. intros (_ & Hf & Ho). split; assumption. Qed.

Lemma grows_of_world c w w' : world_grows w w' -> grows c w c w'.
Proof. intros [Hf Ho]. split; [apply keeps_names_refl|]. split; assumption. Qed.

Lemma world_grows_refl w : world_grows w w.
Proof. exact (world_grows_of ∅ w ∅ w (grows_refl ∅ w)). Qed.

Lemma world_grows_trans w1 w2 w3 :
  world_grows w1 w2 -> world_grows w2 w3 -> world_grows w1 w3.
Proof.
  intros H12 H23.
  exact (world_grows_of _ _ _ _
           (grows_trans ∅ w1 ∅ w2 ∅ w3 (grows_of_world ∅ _ _ H12)
                        (grows_of_world ∅ _ _ H23))).
Qed.

Lemma grows_world_step c w c' w' w'' :
  grows c w c' w' -> world_grows w' w'' -> grows c w c' w''.
Proof.
  intros H1 H2. eapply grows_trans; [exact H1|].
  apply grows_of_world. exact H2.
Qed.

Lemma grows_bind {A B : Type} (e : runtime.result A * Closure * World)
      (k : A -> Closure -> World -> runtime.result B * Closure * World)
      c w r c' w' :
  (forall r1 c1 w1, e = (r1, c1, w1) -> grows c w c1 w1) ->
  (forall a c1 w1 r2 c2 w2,
      e = (Ok a, c1, w1) -> k a c1 w1 = (r2, c2, w2) -> grows c1 w1 c2 w2) ->
  ast.bind e k = (r, c', w') ->
  grows c w c' w'.
Proof.
  intros He Hk. destruct e as [[[a|s] c1] w1]; cbn.
  - intros Hrun. eapply grows_trans; [eapply He; reflexivity|].
    eapply Hk; [reflexivity|exact Hrun].
  - intros [= <- <- <-]. eapply He. reflexivity.
Qed.

Lemma Call_grows (exec : runtime.Exec) addr cls_ method actual_args w r w' :
  exec_grows exec ->
  runtime.Call exec addr cls_ method actual_args w = (r, w') ->
  world_grows w w'.
Proof.
  intros Hexec. unfold runtime.Call.
  destruct (negb _).
  - intros [= <- <-]. apply world_grows_refl.
  - destruct (runtime.GetMethod cls_ method) as [mtd|].
    + destruct (exec _ _ w) as [[r0 c0] w0] eqn:Hrun.
      intros [= <- <-]. eapply world_grows_of. eapply Hexec. exact Hrun.
    + intros [= <- <-]. apply world_grows_refl.
Qed.

Lemma write_grows os text buf w :
  world_grows w (snd (runtime.write os text buf w)).
Proof.
  destruct os; cbn.
  - exact (world_grows_of _ _ _ _ (grows_os_write ∅ w text)).
  - apply world_grows_refl.
Qed.

Lemma Object_Print_grows fuel (exec : runtime.Exec) o os buf w r buf' w' :
  exec_grows exec ->
  runtime.Object_Print fuel exec o os buf w = (r, (buf', w')) ->
  world_grows w w'.
Proof.
  intros Hexec. revert o w.
  assert (Hwrite : forall text w,
             (Ok tt, runtime.write os text buf w) = (r, (buf', w')) ->
             world_grows w w').
  { intros text w H. pose proof (write_grows os text buf w) as Hw.
    destruct (runtime.write os text buf w) as [b0 w0].
    injection H as <- <- <-. exact Hw. }
  induction fuel as [|fuel IH]; intros o w;
    destruct o as [v|v|v|cl|addr cls_]; cbn [runtime.Object_Print];
    try apply Hwrite.
  - destruct (runtime.HasMethod _ _ _); [|apply Hwrite].
    intros [= <- <- <-]. apply world_grows_refl.
  - destruct (runtime.HasMethod _ _ _); [|apply Hwrite].
    destruct (runtime.Call exec addr cls_ runtime.STR_METHOD [] w)
      as [[h|s] w1] eqn:Hcall.
    + pose proof (Call_grows _ _ _ _ _ _ _ _ Hexec Hcall) as H1.
      destruct (runtime.Get h) as [o'|].
      * intros Hrec. eapply world_grows_trans; [exact H1|].
        eapply IH. exact Hrec.
      * intros [= <- <- <-]. exact H1.
    + intros [= <- <- <-]. eapply Call_grows; eassumption.
Qed.

Lemma Equal_grows (exec : runtime.Exec) l r w b w' :
  exec_grows exec -> runtime.Equal exec l r w = (b, w') -> world_grows w w'.
Proof.
  intros Hexec. unfold runtime.Equal.
  destruct (runtime.Comp l r runtime.equal_to).
  - intros [= <- <-]. apply world_grows_refl.
  - destruct (runtime.Get l) as [[| | | |addr cls_]|];
      try (destruct (_ && _)%bool; intros [= <- <-]; apply world_grows_refl).
    destruct (runtime.Call _ _ _ _ _ _) as [r0 w0] eqn:Hcall.
    intros [= <- <-]. eapply Call_grows; eassumption.
Qed.

Lemma Less_grows (exec : runtime.Exec) l r w b w' :
  exec_grows exec -> runtime.Less exec l r w = (b, w') -> world_grows w w'.
Proof.
  intros Hexec. unfold runtime.Less.
  destruct (runtime.Comp l r runtime.less).
  - intros [= <- <-]. apply world_grows_refl.
  - destruct (runtime.Get l) as [[| | | |addr cls_]|];
      try (intros [= <- <-]; apply world_grows_refl).
    destruct (runtime.Call _ _ _ _ _ _) as [r0 w0] eqn:Hcall.
    intros [= <- <-]. eapply Call_grows; eassumption.
Qed.

Lemma Greater_grows (exec : runtime.Exec) l r w b w' :
  exec_grows exec -> runtime.Greater exec l r w = (b, w') -> world_grows w w'.
Proof.
  intros Hexec. unfold runtime.Greater.
  destruct (runtime.Less exec l r w) as [[[|]|s] w1] eqn:Hless.
  - intros [= <- <-]. eapply Less_grows; eassumption.
  - destruct (runtime.Equal exec l r w1) as [r0 w2] eqn:Heq.
    intros [= <- <-]. eapply world_grows_trans.
    + eapply Less_grows; eassumption.
    + eapply Equal_grows; eassumption.
  - intros [= <- <-]. eapply Less_grows; eassumption.
Qed.

Lemma apply_Comparator_grows cmp_ (exec : runtime.Exec) l r w b w' :
  exec_grows exec ->
  ast.apply_Comparator cmp_ exec l r w = (b, w') -> world_grows w w'.
Proof.
  intros Hexec. destruct cmp_; cbn [ast.apply_Comparator].
  - apply Equal_grows; assumption.
  - unfold runtime.NotEqual.
    destruct (runtime.Equal exec l r w) as [r0 w0] eqn:H.
    intros [= <- <-]. eapply Equal_grows; eassumption.
  - apply Less_grows; assumption.
  - apply Greater_grows; assumption.
  - unfold runtime.LessOrEqual.
    destruct (runtime.Greater exec l r w) as [r0 w0] eqn:H.
    intros [= <- <-]. eapply Greater_grows; eassumption.
  - unfold runtime.GreaterOrEqual.
    destruct (runtime.Less exec l r w) as [r0 w0] eqn:H.
    intros [= <- <-]. eapply Less_grows; eassumption.
Qed.

(** Each node grows the closure and the world when its children do. *)

Lemma Execute_args_grows (exec : runtime.Exec) args_ :
  exec_grows exec ->
  forall c w r c' w',
    ast.Execute_args exec args_ c w = (r, c', w') -> grows c w c' w'.
Proof.
  intros Hexec. induction args_ as [|arg rest IH]; intros c w r c' w'.
  - intros [= <- <- <-]. apply grows_refl.
  - cbn [ast.Execute_args]. apply grows_bind.
    + intros r1 c1 w1 H. eapply Hexec. exact H.
    + intros a c1 w1 r2 c2 w2 _. apply grows_bind.
      * intros r3 c3 w3 H. eapply IH. exact H.
      * intros hs c3 w3 r4 c4 w4 _ [= <- <- <-]. apply grows_refl.
Qed.

Lemma Compound_loop_grows (exec : runtime.Exec) args_ :
  exec_grows exec ->
  forall c w r c' w',
    ast.Compound_loop exec args_ c w = (r, c', w') -> grows c w c' w'.
Proof.
  intros Hexec. induction args_ as [|arg rest IH]; intros c w r c' w'.
  - intros [= <- <- <-]. apply grows_refl.
  - cbn [ast.Compound_loop]. apply grows_bind.
    + intros r1 c1 w1 H. eapply Hexec. exact H.
    + intros a c1 w1 r2 c2 w2 _ H. eapply IH. exact H.
Qed.

Lemma Print_loop_grows fuel (exec : runtime.Exec) args_ :
  exec_grows exec ->
  forall first c w r c' w',
    ast.Print_loop fuel exec args_ first c w = (r, c', w') ->
    grows c w c' w'.
Proof.
  intros Hexec. induction args_ as [|arg rest IH]; intros first c w r c' w'.
  - intros [= <- <- <-]. apply grows_refl.
  - cbn [ast.Print_loop]. intros Hrun.
    eapply grows_trans with (c2 := c)
                            (w2 := if first then w else ast.os_write w " ").
    { destruct first; [apply grows_refl|apply grows_os_write]. }
    revert Hrun. apply grows_bind.
    + intros r1 c1 w1 H. eapply Hexec. exact H.
    + intros obj c1 w1 r2 c2 w2 _.
      destruct (runtime.Get obj) as [o|].
      * destruct (runtime.Object_Print fuel exec o runtime.context_stream
                                       EmptyString w1)
          as [[u|s] [b w3]] eqn:Hprint.
        -- intros H. eapply grows_trans; [|eapply IH; exact H].
           apply grows_of_world. eapply Object_Print_grows; eassumption.
        -- intros [= <- <- <-]. apply grows_of_world.
           eapply Object_Print_grows; eassumption.
      * intros H. eapply grows_trans; [apply grows_os_write|].
        eapply IH. exact H.
Qed.

Lemma Call_step_grows (exec : runtime.Exec) addr cls_ method actual_args
      c w r c' w' :
  exec_grows exec ->
  (let '(r0, w0) := runtime.Call exec addr cls_ method actual_args w in
   (r0, c, w0)) = (r, c', w') ->
  grows c w c' w'.
Proof.
  intros Hexec.
  destruct (runtime.Call exec addr cls_ method actual_args w)
    as [r0 w0] eqn:Hcall.
  intros [= <- <- <-]. apply grows_of_world. eapply Call_grows; eassumption.
Qed.

(** One level of [Execute] over an evaluator that grows. *)
Lemma Execute_step_grows n :
  exec_grows (ast.Execute n) -> exec_grows (ast.Execute (S n)).
Proof.
  intros Hexec s c w r c' w'.
  destruct s; cbn [ast.Execute].
  - intros [= <- <- <-]. apply grows_refl.
  - intros [= <- <- <-]. apply grows_refl.
  - intros [= <- <- <-]. apply grows_refl.
  - intros [= <- <- <-]. apply grows_refl.
  - intros [= <- <- <-]. apply grows_refl.
  - (* Assignment *)
    unfold ast.Assignment_Execute. apply grows_bind.
    + intros r1 c1 w1 H. eapply Hexec. exact H.
    + intros h c1 w1 r2 c2 w2 _ [= <- <- <-]. apply grows_insert.
  - (* FieldAssignment *)
    unfold ast.FieldAssignment_Execute.
    destruct (ast.VariableValue_Execute _ _ c w) as [h|s0].
    + destruct (runtime.Get h) as [[| | | |addr cls_]|];
        try (intros [= <- <- <-]; apply grows_refl).
      apply grows_bind.
      * intros r1 c1 w1 H. eapply Hexec. exact H.
      * intros v c1 w1 r2 c2 w2 _ [= <- <- <-]. apply grows_set_field.
    + intros [= <- <- <-]. apply grows_refl.
  - (* Print *)
    unfold ast.Print_Execute. apply grows_bind.
    + intros r1 c1 w1 H. eapply Print_loop_grows; eassumption.
    + intros u c1 w1 r2 c2 w2 _ [= <- <- <-]. apply grows_os_write.
  - (* MethodCall *)
    unfold ast.MethodCall_Execute. apply grows_bind.
    + intros r1 c1 w1 H. eapply Hexec. exact H.
    + intros h c1 w1 r2 c2 w2 _.
      destruct (runtime.Get h) as [[| | | |addr cls_]|];
        try (intros [= <- <- <-]; apply grows_refl).
      apply grows_bind.
      * intros r3 c3 w3 H. eapply Execute_args_grows; eassumption.
      * intros actual c3 w3 r4 c4 w4 _. apply Call_step_grows. exact Hexec.
  - (* NewInstance *)
    unfold ast.NewInstance_Execute.
    destruct (runtime.HasMethod _ _ _).
    + apply grows_bind.
      * intros r3 c3 w3 H. eapply Execute_args_grows; eassumption.
      * intros actual c3 w3 r4 c4 w4 _.
        destruct (runtime.Call _ _ _ _ _ _) as [[h|s0] w5] eqn:Hcall;
          intros [= <- <- <-]; apply grows_of_world;
          eapply Call_grows; eassumption.
    + intros [= <- <- <-]. apply grows_refl.
  - (* Stringify *)
    unfold ast.Stringify_Execute. apply grows_bind.
    + intros r1 c1 w1 H. eapply Hexec. exact H.
    + intros obj c1 w1 r2 c2 w2 _.
      destruct (runtime.Get obj) as [o|].
      * destruct (runtime.Object_Print n (ast.Execute n) o
                    runtime.local_buffer EmptyString w1)
          as [[u|s0] [b w3]] eqn:Hprint;
          intros [= <- <- <-]; apply grows_of_world;
          eapply Object_Print_grows; eassumption.
      * intros [= <- <- <-]. apply grows_refl.
  - (* Add *)
    unfold ast.Add_Execute. apply grows_bind.
    + intros r1 c1 w1 H. eapply Hexec. exact H.
    + intros l c1 w1 r2 c2 w2 _. apply grows_bind.
      * intros r3 c3 w3 H. eapply Hexec. exact H.
      * intros rh c3 w3 r4 c4 w4 _.
        destruct (ast.BINARY_OPERATION_Number _ _ _);
          [intros [= <- <- <-]; apply grows_refl|].
        destruct (ast.BINARY_OPERATION_String _ _ _);
          [intros [= <- <- <-]; apply grows_refl|].
        destruct (runtime.Get l) as [[| | | |addr cls_]|];
          try (intros [= <- <- <-]; apply grows_refl).
        apply Call_step_grows. exact Hexec.
  - (* Sub *)
    unfold ast.Sub_Execute. apply grows_bind.
    + intros r1 c1 w1 H. eapply Hexec. exact H.
    + intros l c1 w1 r2 c2 w2 _. apply grows_bind.
      * intros r3 c3 w3 H. eapply Hexec. exact H.
      * intros rh c3 w3 r4 c4 w4 _.
        destruct (ast.BINARY_OPERATION_Number _ _ _);
          intros [= <- <- <-]; apply grows_refl.
  - (* Mult *)
    unfold ast.Mult_Execute. apply grows_bind.
    + intros r1 c1 w1 H. eapply Hexec. exact H.
    + intros l c1 w1 r2 c2 w2 _. apply grows_bind.
      * intros r3 c3 w3 H. eapply Hexec. exact H.
      * intros rh c3 w3 r4 c4 w4 _.
        destruct (ast.BINARY_OPERATION_Number _ _ _);
          intros [= <- <- <-]; apply grows_refl.
  - (* Div *)
    unfold ast.Div_Execute. apply grows_bind.
    + intros r1 c1 w1 H. eapply Hexec. exact H.
    + intros l c1 w1 r2 c2 w2 _. apply grows_bind.
      * intros r3 c3 w3 H. eapply Hexec. exact H.
      * intros rh c3 w3 r4 c4 w4 _.
        destruct (ast.is_Number_zero rh);
          [intros [= <- <- <-]; apply grows_refl|].
        destruct (runtime.Get l) as [[lv| | | |]|];
          destruct (runtime.Get rh) as [[rv| | | |]|];
          try (intros [= <- <- <-]; apply grows_refl).
        destruct (ast.int_div lv rv);
          intros [= <- <- <-]; apply grows_refl.
  - (* Or *)
    unfold ast.Or_Execute. apply grows_bind.
    + intros r1 c1 w1 H. eapply Hexec. exact H.
    + intros l c1 w1 r2 c2 w2 _.
      destruct (runtime.IsTrue l); [intros [= <- <- <-]; apply grows_refl|].
      apply grows_bind.
      * intros r3 c3 w3 H. eapply Hexec. exact H.
      * intros rh c3 w3 r4 c4 w4 _ [= <- <- <-]. apply grows_refl.
  - (* And *)
    unfold ast.And_Execute. apply grows_bind.
    + intros r1 c1 w1 H. eapply Hexec. exact H.
    + intros l c1 w1 r2 c2 w2 _.
      destruct (runtime.IsTrue l); [|intros [= <- <- <-]; apply grows_refl].
      apply grows_bind.
      * intros r3 c3 w3 H. eapply Hexec. exact H.
      * intros rh c3 w3 r4 c4 w4 _ [= <- <- <-]. apply grows_refl.
  - (* Not *)
    unfold ast.Not_Execute. apply grows_bind.
    + intros r1 c1 w1 H. eapply Hexec. exact H.
    + intros a c1 w1 r2 c2 w2 _ [= <- <- <-]. apply grows_refl.
  - (* Compound *)
    unfold ast.Compound_Execute. apply grows_bind.
    + intros r1 c1 w1 H. eapply Compound_loop_grows; eassumption.
    + intros u c1 w1 r2 c2 w2 _ [= <- <- <-]. apply grows_refl.
  - (* MethodBody *)
    unfold ast.MethodBody_Execute.
    destruct (ast.Execute n s c w) as [[[h|s0] c1] w1] eqn:Hrun.
    + intros [= <- <- <-]. eapply Hexec. exact Hrun.
    + destruct s0; intros [= <- <- <-]; eapply Hexec; exact Hrun.
  - (* Return *)
    unfold ast.Return_Execute. apply grows_bind.
    + intros r1 c1 w1 H. eapply Hexec. exact H.
    + intros a c1 w1 r2 c2 w2 _ [= <- <- <-]. apply grows_refl.
  - (* ClassDefinition *)
    intros [= <- <- <-]. apply grows_insert.
  - (* IfElse *)
    unfold ast.IfElse_Execute. apply grows_bind.
    + intros r1 c1 w1 H. eapply Hexec. exact H.
    + intros cond c1 w1 r2 c2 w2 _.
      destruct (runtime.IsTrue cond).
      * intros H. eapply Hexec. exact H.
      * destruct else_body_ as [e|].
        -- intros H. eapply Hexec. exact H.
        -- intros [= <- <- <-]. apply grows_refl.
  - (* Comparison *)
    unfold ast.Comparison_Execute. apply grows_bind.
    + intros r1 c1 w1 H. eapply Hexec. exact H.
    + intros l c1 w1 r2 c2 w2 _. apply grows_bind.
      * intros r3 c3 w3 H. eapply Hexec. exact H.
      * intros rh c3 w3 r4 c4 w4 _.
        destruct (ast.apply_Comparator _ _ _ _ _) as [[b|s0] w5] eqn:Hcmp;
          intros [= <- <- <-]; apply grows_of_world;
          eapply apply_Comparator_grows; eassumption.
Qed.

Lemma Execute_grows n : exec_grows (ast.Execute n).
Proof.
  induction n as [|n IH].
  - intros s c w r c' w' [= <- <- <-]. apply grows_refl.
  - apply Execute_step_grows. exact IH.
Qed.

End Growth.

(** * More on the evaluator *)

Section EvaluatorLaws.

Import runtime(Closure, World, ObjectHolder, Ok, Raise, Own, Share, None_).
Import invariants.

(** X1. No evaluation unbinds a name: a name bound in the closure a node
    is evaluated in is bound in the closure it leaves, whatever the node
    returns or throws. *)
Theorem evaluation_keeps_names n s c w r c' w' x :
  ast.Execute n s c w = (r, c', w') ->
  is_Some (c !! x) ->
  is_Some (c' !! x).
Proof.
  intros Hrun. destruct (Execute_grows n s c w r c' w' Hrun) as (Hn & _).
  apply Hn.
Qed.

Lemma evaluation_keeps_names_witness :
  is_Some ((<["x" := Share (runtime.Number 2)]>
              (<["y" := Own (runtime.Number 1)]> ∅) : Closure) !! "y").
Proof.
  apply (evaluation_keeps_names 3 (Assignment "x" (NumericConst 2))
           (<["y" := Own (runtime.Number 1)]> ∅) samples.w0
           (Ok (Share (runtime.Number 2)))
           (<["x" := Share (runtime.Number 2)]>
              (<["y" := Own (runtime.Number 1)]> ∅))
           samples.w0 "y").
  - vm_compute. reflexivity.
  - exists (Own (runtime.Number 1)). vm_compute. reflexivity.
Defined.

(** X2. No evaluation removes a field: a field an instance has before a
    node is evaluated it still has afterwards. *)
Theorem evaluation_keeps_fields n s c w r c' w' addr x :
  ast.Execute n s c w = (r, c', w') ->
  is_Some (runtime.Fields w addr !! x) ->
  is_Some (runtime.Fields w' addr !! x).
Proof.
  intros Hrun. destruct (Execute_grows n s c w r c' w' Hrun) as (_ & Hf & _).
  apply Hf.
Qed.

Lemma evaluation_keeps_fields_witness :
  is_Some (runtime.Fields
             (runtime.mkWorld
                {[ 3%nat := <["b" := Share (runtime.Number 2)]>
                              (<["a" := Own (runtime.Number 1)]> ∅) ]}
                EmptyString) 3 !! "a").
Proof.
  apply (evaluation_keeps_fields 3
           (FieldAssignment "p" [] "b" (NumericConst 2))
           (<["p" := Share (runtime.ClassInstance 3 samples.class_A)]> ∅)
           (runtime.mkWorld {[ 3%nat := <["a" := Own (runtime.Number 1)]> ∅ ]}
                            EmptyString)
           (Ok (Share (runtime.Number 2)))
           (<["p" := Share (runtime.ClassInstance 3 samples.class_A)]> ∅)
           (runtime.mkWorld
              {[ 3%nat := <["b" := Share (runtime.Number 2)]>
                            (<["a" := Own (runtime.Number 1)]> ∅) ]}
              EmptyString)
           3%nat "a").
  - vm_compute. reflexivity.
  - exists (Own (runtime.Number 1)). vm_compute. reflexivity.
Defined.

(** X3. The output stream is only appended to: the text written before a
    node is evaluated is a prefix of the text written after it, also when
    the node throws. *)
Theorem evaluation_appends_output n s c w r c' w' :
  ast.Execute n s c w = (r, c', w') ->
  exists text, runtime.output w' = runtime.output w +:+ text.
Proof.
  intros Hrun. destruct (Execute_grows n s c w r c' w' Hrun) as (_ & _ & Ho).
  exact Ho.
Qed.

Lemma evaluation_appends_output_witness :
  exists text, ("a" +:+ ast.endl +:+ "b" +:+ ast.endl) = "a" +:+ ast.endl +:+ text.
Proof.
  apply (evaluation_appends_output 3 (Print [StringConst "b"]) ∅
           (runtime.mkWorld ∅ ("a" +:+ ast.endl))
           (Ok None_) ∅
           (runtime.mkWorld ∅ ("a" +:+ ast.endl +:+ "b" +:+ ast.endl))).
  vm_compute. reflexivity.
Defined.

(** ** Variables and fields *)

(** X4. Assignment and lookup.  When [rv_] evaluates to [h], the
    [Assignment] returns [h] and leaves a closure in which the variable
    reads back as [h] and every other variable, with any dotted tail,
    reads as it did in the closure [rv_] left. *)
Theorem Assignment_then_VariableValue n var_ rv_ c w h c1 w1 :
  ast.Execute n rv_ c w = (Ok h, c1, w1) ->
  ast.Execute (S n) (Assignment var_ rv_) c w
  = (Ok h, <[var_ := h]> c1, w1)
  /\ (forall m,
        ast.Execute (S m) (VariableValue var_ []) (<[var_ := h]> c1) w1
        = (Ok h, <[var_ := h]> c1, w1))
  /\ (forall m other tail_,
        other <> var_ ->
        fst (fst (ast.Execute (S m) (VariableValue other tail_)
                              (<[var_ := h]> c1) w1))
        = fst (fst (ast.Execute (S m) (VariableValue other tail_) c1 w1))).
Proof.
  intros Hrv. split; [|split].
  - cbn [ast.Execute]. unfold ast.Assignment_Execute. rewrite Hrv. reflexivity.
  - intros m. cbn [ast.Execute ast.VariableValue_Execute].
    rewrite lookup_insert_eq. reflexivity.
  - intros m other tail_ Hne. cbn [ast.Execute fst].
    destruct tail_ as [|t0 rest]; cbn [ast.VariableValue_Execute];
      rewrite lookup_insert_ne by congruence; reflexivity.
Qed.

Lemma Assignment_then_VariableValue_witness :
  ast.Execute 3 (Assignment "x" (Add (NumericConst 1) (NumericConst 2)))
              ∅ samples.w0
  = (Ok (Own (runtime.Number 3)), <["x" := Own (runtime.Number 3)]> ∅,
     samples.w0).
Proof.
  apply (Assignment_then_VariableValue 2 "x"
           (Add (NumericConst 1) (NumericConst 2)) ∅ samples.w0
           (Own (runtime.Number 3)) ∅ samples.w0).
  vm_compute. reflexivity.
Defined.

(** X5. Fields are shared between the holders of one instance.  After
    [v.f = rv] on a variable that holds the instance at [addr], the field
    reads back as the value assigned through every variable [v'] that
    holds the instance at [addr]; the assignment writes nothing to the
    output. *)
Theorem FieldAssignment_seen_through_alias n v v' f rv_ c w h addr cls_
        val c1 w1 h' cls' :
  c !! v = Some h ->
  runtime.Get h = Some (runtime.ClassInstance addr cls_) ->
  ast.Execute n rv_ c w = (Ok val, c1, w1) ->
  c1 !! v' = Some h' ->
  runtime.Get h' = Some (runtime.ClassInstance addr cls') ->
  exists w2,
    ast.Execute (S n) (FieldAssignment v [] f rv_) c w = (Ok val, c1, w2)
    /\ (forall m, ast.Execute (S m) (VariableValue v' [f]) c1 w2
                  = (Ok val, c1, w2))
    /\ runtime.output w2 = runtime.output w1.
Proof.
  intros Hv Hh Hrv Hv' Hh'.
  exists (runtime.set_Fields w1 addr (<[f := val]> (runtime.Fields w1 addr))).
  split; [|split].
  - cbn [ast.Execute]. unfold ast.FieldAssignment_Execute.
    cbn [ast.VariableValue_Execute]. rewrite Hv, Hh, Hrv. reflexivity.
  - intros m. cbn [ast.Execute ast.VariableValue_Execute].
    rewrite Hv', Hh'.
    unfold runtime.Fields, runtime.set_Fields. cbn [runtime.instances].
    rewrite lookup_insert_eq. cbn [default from_option id].
    rewrite lookup_insert_eq.
    reflexivity.
  - reflexivity.
Qed.

Lemma FieldAssignment_seen_through_alias_witness :
  exists w2,
    ast.Execute 2 (FieldAssignment "p" [] "age" (NumericConst 7))
      (<["q" := Own (runtime.ClassInstance 4 samples.class_A)]>
         (<["p" := Share (runtime.ClassInstance 4 samples.class_A)]> ∅))
      samples.w0
    = (Ok (Share (runtime.Number 7)),
       <["q" := Own (runtime.ClassInstance 4 samples.class_A)]>
         (<["p" := Share (runtime.ClassInstance 4 samples.class_A)]> ∅), w2)
    /\ (forall m,
          ast.Execute (S m) (VariableValue "q" ["age"])
            (<["q" := Own (runtime.ClassInstance 4 samples.class_A)]>
               (<["p" := Share (runtime.ClassInstance 4 samples.class_A)]> ∅))
            w2
          = (Ok (Share (runtime.Number 7)),
             <["q" := Own (runtime.ClassInstance 4 samples.class_A)]>
               (<["p" := Share (runtime.ClassInstance 4 samples.class_A)]> ∅),
             w2))
    /\ runtime.output w2 = runtime.output samples.w0.
Proof.
  apply (FieldAssignment_seen_through_alias 1 "p" "q" "age" (NumericConst 7)
           (<["q" := Own (runtime.ClassInstance 4 samples.class_A)]>
              (<["p" := Share (runtime.ClassInstance 4 samples.class_A)]> ∅))
           samples.w0
           (Share (runtime.ClassInstance 4 samples.class_A)) 4%nat
           samples.class_A (Share (runtime.Number 7))
           (<["q" := Own (runtime.ClassInstance 4 samples.class_A)]>
              (<["p" := Share (runtime.ClassInstance 4 samples.class_A)]> ∅))
           samples.w0
           (Own (runtime.ClassInstance 4 samples.class_A)) samples.class_A);
    vm_compute; reflexivity.
Defined.

(** ** Sequences *)

(** X6. A [Compound] of two lists of statements put end to end is the
    first [Compound] followed, if it completes, by the second in the
    closure and the world the first left; what the first throws leaves the
    whole with nothing of the second run. *)
Theorem Compound_app n xs ys c w :
  ast.Execute (S n) (Compound (xs ++ ys)) c w
  = match ast.Execute (S n) (Compound xs) c w with
    | (Ok _, c1, w1) => ast.Execute (S n) (Compound ys) c1 w1
    | (Raise s, c1, w1) => (Raise s, c1, w1)
    end.
Proof.
  cbn [ast.Execute]. unfold ast.Compound_Execute.
  rewrite Compound_loop_app.
  destruct (ast.Compound_loop (ast.Execute n) xs c w) as [[[u|s] c1] w1];
    reflexivity.
Qed.

(** ** Instances and calls *)

(** X7. Whenever a [NewInstance] node returns, it returns the non-owning
    holder of its own instance: evaluating the node again gives the same
    instance, not a fresh one. *)
Theorem NewInstance_same_instance n addr class_ args_ c w h c' w' :
  ast.Execute n (NewInstance addr class_ args_) c w = (Ok h, c', w') ->
  h = Share (runtime.ClassInstance addr class_).
Proof.
  destruct n as [|n]; [discriminate|].
  cbn [ast.Execute]. unfold ast.NewInstance_Execute.
  destruct (runtime.HasMethod _ _ _).
  - destruct (ast.Execute_args _ _ _ _) as [[[actual|s] c1] w1];
      cbn [ast.bind]; [|discriminate].
    destruct (runtime.Call _ _ _ _ _ _) as [[h0|s] w2]; [|discriminate].
    intros [= <- _ _]. reflexivity.
  - intros [= <- _ _]. reflexivity.
Qed.

Lemma NewInstance_same_instance_witness :
  Share (runtime.ClassInstance 2 samples.class_Base)
  = Share (runtime.ClassInstance 2 samples.class_Base).
Proof.
  apply (NewInstance_same_instance 6 2%nat samples.class_Base
           [NumericConst 5] ∅ samples.w0
           (Share (runtime.ClassInstance 2 samples.class_Base)) ∅
           (runtime.mkWorld
              {[ 2%nat := <["a" := Share (runtime.Number 5)]> ∅ ]}
              EmptyString)).
  vm_compute. reflexivity.
Defined.

(** X8. A method cannot reach the variables of its caller: whatever the
    call returns or throws, the closure a [MethodCall] leaves is the one
    its object expression and its arguments left. *)
Theorem MethodCall_keeps_caller_closure n object_ method_ args_ c w h c1 w1
        addr cls_ actual_args c2 w2 r c' w' :
  ast.Execute n object_ c w = (Ok h, c1, w1) ->
  runtime.Get h = Some (runtime.ClassInstance addr cls_) ->
  ast.Execute_args (ast.Execute n) args_ c1 w1 = (Ok actual_args, c2, w2) ->
  ast.Execute (S n) (MethodCall object_ method_ args_) c w = (r, c', w') ->
  c' = c2.
Proof.
  intros Hobj Hinst Hargs. cbn [ast.Execute]. unfold ast.MethodCall_Execute.
  rewrite Hobj. cbn [ast.bind]. rewrite Hinst, Hargs. cbn [ast.bind].
  destruct (runtime.Call _ _ _ _ _ _) as [r0 w3].
  intros [= _ <- _]. reflexivity.
Qed.

Lemma MethodCall_keeps_caller_closure_witness :
  (<["s" := Share (runtime.ClassInstance 0 more_samples.class_Setter)]>
     (<["x" := Own (runtime.Number 1)]> ∅) : Closure)
  = <["s" := Share (runtime.ClassInstance 0 more_samples.class_Setter)]>
      (<["x" := Own (runtime.Number 1)]> ∅).
Proof.
  apply (MethodCall_keeps_caller_closure 5
           (VariableValue "s" []) "run" [VariableValue "x" []]
           (<["s" := Share (runtime.ClassInstance 0 more_samples.class_Setter)]>
              (<["x" := Own (runtime.Number 1)]> ∅))
           samples.w0
           (Share (runtime.ClassInstance 0 more_samples.class_Setter))
           (<["s" := Share (runtime.ClassInstance 0 more_samples.class_Setter)]>
              (<["x" := Own (runtime.Number 1)]> ∅))
           samples.w0 0%nat more_samples.class_Setter
           [Own (runtime.Number 1)]
           (<["s" := Share (runtime.ClassInstance 0 more_samples.class_Setter)]>
              (<["x" := Own (runtime.Number 1)]> ∅))
           samples.w0 (Ok None_)
           (<["s" := Share (runtime.ClassInstance 0 more_samples.class_Setter)]>
              (<["x" := Own (runtime.Number 1)]> ∅))
           samples.w0);
    vm_compute; reflexivity.
Defined.

(** X9. A target that is no instance is rejected before anything else
    runs.  When the dotted variable a [MethodCall] or a [FieldAssignment]
    is aimed at evaluates to a holder of anything but a class instance,
    the node throws its error and leaves the closure and the world as they
    were: no argument and no right-hand side has been evaluated. *)
Theorem non_instance_target_rejected n var_name_ tail_ c w h :
  ast.VariableValue_Execute var_name_ tail_ c w = Ok h ->
  (forall addr cls_, runtime.Get h <> Some (runtime.ClassInstance addr cls_)) ->
  (forall method_ args_,
      ast.Execute (S (S n)) (MethodCall (VariableValue var_name_ tail_)
                                        method_ args_) c w
      = (Raise (runtime.runtime_error "Object is not class instance"), c, w))
  /\ (forall field_name_ rv_,
        ast.Execute (S n) (FieldAssignment var_name_ tail_ field_name_ rv_) c w
        = (Raise (runtime.runtime_error "Object is not class!"), c, w)).
Proof.
  intros Hvar Hnot. split.
  - intros method_ args_.
    change (ast.Execute (S (S n)) (MethodCall (VariableValue var_name_ tail_)
                                              method_ args_) c w)
      with (ast.MethodCall_Execute (ast.Execute (S n))
              (VariableValue var_name_ tail_) method_ args_ c w).
    unfold ast.MethodCall_Execute. cbn [ast.Execute]. rewrite Hvar.
    cbn [ast.bind].
    destruct (runtime.Get h) as [[| | | |addr cls_]|]; try reflexivity.
    exfalso. eapply Hnot. reflexivity.
  - intros field_name_ rv_. cbn [ast.Execute].
    unfold ast.FieldAssignment_Execute. rewrite Hvar.
    destruct (runtime.Get h) as [[| | | |addr cls_]|]; try reflexivity.
    exfalso. eapply Hnot. reflexivity.
Qed.

Lemma non_instance_target_rejected_witness :
  ast.Execute 2 (MethodCall (VariableValue "n" []) "f" [samples.noisy])
              (<["n" := Own (runtime.Number 1)]> ∅) samples.w0
  = (Raise (runtime.runtime_error "Object is not class instance"),
     <["n" := Own (runtime.Number 1)]> ∅, samples.w0)
  /\ ast.Execute 1 (FieldAssignment "n" [] "a" samples.noisy)
                 (<["n" := Own (runtime.Number 1)]> ∅) samples.w0
     = (Raise (runtime.runtime_error "Object is not class!"),
        <["n" := Own (runtime.Number 1)]> ∅, samples.w0).
Proof.
  destruct (non_instance_target_rejected 0 "n" []
              (<["n" := Own (runtime.Number 1)]> ∅) samples.w0
              (Own (runtime.Number 1))) as [Hcall Hfield].
  - vm_compute. reflexivity.
  - intros addr cls_. discriminate.
  - split; [apply Hcall|apply Hfield].
Defined.

(** ** The print law *)

Lemma os_write_os_write w a b :
  ast.os_write (ast.os_write w a) b = ast.os_write w (a +:+ b).
Proof.
  unfold ast.os_write. cbn. now rewrite append_assoc.
Qed.

Lemma os_write_nothing w : ast.os_write w EmptyString = w.
Proof.
  unfold ast.os_write. cbn. rewrite append_nil_r. destruct w; reflexivity.
Qed.

(** A dotted lookup depends on the world through the instances only. *)
Lemma VariableValue_Execute_instances tail_ :
  forall var_name_ c w w0,
    runtime.instances w0 = runtime.instances w ->
    ast.VariableValue_Execute var_name_ tail_ c w0
    = ast.VariableValue_Execute var_name_ tail_ c w.
Proof.
  induction tail_ as [|t0 rest IH]; intros v c w w0 Hinst;
    cbn [ast.VariableValue_Execute]; [reflexivity|].
  destruct (c !! v) as [h|]; [|reflexivity].
  destruct (runtime.Get h) as [[| | | |addr cls_]|]; try reflexivity.
  replace (runtime.Fields w0 addr) with (runtime.Fields w addr)
    by (unfold runtime.Fields; now rewrite Hinst).
  apply IH. exact Hinst.
Qed.

(** An atom returns its value and changes nothing, at any fuel. *)
Lemma atom_Execute n s c w w0 :
  printing.is_atom s = true ->
  runtime.instances w0 = runtime.instances w ->
  ast.Execute (S n) s c w0 = (fst (fst (ast.Execute 1 s c w)), c, w0).
Proof.
  intros Hatom Hinst. destruct s; try discriminate Hatom; try reflexivity.
  cbn [ast.Execute fst].
  now rewrite (VariableValue_Execute_instances _ _ _ w w0 Hinst).
Qed.

Lemma Object_Print_str fuel (exec : runtime.Exec) h o text buf w :
  printing.str h = Some text ->
  runtime.Get h = Some o ->
  runtime.Object_Print fuel exec o runtime.context_stream buf w
  = (Ok tt, (buf, ast.os_write w text)).
Proof.
  unfold printing.str. intros Hstr Hget. rewrite Hget in Hstr.
  destruct fuel, o as [v|v|v|cl|addr cls_]; cbn [runtime.Object_Print];
    try (injection Hstr as <-; reflexivity);
    destruct (runtime.HasMethod _ _ _); try discriminate Hstr;
    injection Hstr as <-; reflexivity.
Qed.

Lemma Print_loop_spaced fuel n args_ texts c w :
  Forall2 (printing.prints_as c w) args_ texts ->
  forall w0,
    runtime.instances w0 = runtime.instances w ->
    ast.Print_loop fuel (ast.Execute (S n)) args_ false c w0
    = (Ok tt, c, ast.os_write w0 (printing.spaced texts)).
Proof.
  induction 1 as [|arg text args_ texts (Hatom & h & Hval & Hstr) _ IH];
    intros w0 Hinst.
  - cbn [ast.Print_loop printing.spaced]. now rewrite os_write_nothing.
  - cbn [ast.Print_loop printing.spaced].
    rewrite (atom_Execute n arg c w (ast.os_write w0 " ") Hatom Hinst), Hval.
    cbn [ast.bind].
    destruct (runtime.Get h) as [o|] eqn:Hget.
    + rewrite (Object_Print_str _ _ h o text _ _ Hstr Hget).
      rewrite IH by exact Hinst.
      now rewrite !os_write_os_write.
    + unfold printing.str in Hstr. rewrite Hget in Hstr.
      injection Hstr as <-.
      rewrite IH by exact Hinst.
      now rewrite !os_write_os_write.
Qed.

(** X10. The print law.  When every argument of a [Print] is a literal or a
    variable whose value prints without a call into the program, the node
    returns the empty holder, leaves the closure alone and appends to the
    output the texts of the values, separated by single spaces and ended
    by a line feed. *)
Theorem Print_law n args_ texts c w :
  Forall2 (printing.prints_as c w) args_ texts ->
  ast.Execute (S (S n)) (Print args_) c w
  = (Ok None_, c, ast.os_write w (printing.join texts +:+ ast.endl)).
Proof.
  intros Hargs.
  change (ast.Execute (S (S n)) (Print args_) c w)
    with (ast.Print_Execute (S n) (ast.Execute (S n)) args_ c w).
  unfold ast.Print_Execute.
  destruct Hargs as [|arg text args_ texts (Hatom & h & Hval & Hstr) Hrest].
  - reflexivity.
  - cbn [ast.Print_loop printing.join].
    rewrite (atom_Execute n arg c w w Hatom eq_refl), Hval. cbn [ast.bind].
    destruct (runtime.Get h) as [o|] eqn:Hget.
    + rewrite (Object_Print_str _ _ h o text _ _ Hstr Hget).
      rewrite (Print_loop_spaced _ n _ _ c w Hrest) by reflexivity.
      cbn [ast.bind]. now rewrite !os_write_os_write, append_assoc.
    + unfold printing.str in Hstr. rewrite Hget in Hstr.
      injection Hstr as <-.
      rewrite (Print_loop_spaced _ n _ _ c w Hrest) by reflexivity.
      cbn [ast.bind]. now rewrite !os_write_os_write, append_assoc.
Qed.

Lemma Print_law_witness :
  ast.Execute 2 (Print [VariableValue "x" []; StringConst "b"; NoneConst])
              (<["x" := Own (runtime.Number (-4))]> ∅) samples.w0
  = (Ok None_, <["x" := Own (runtime.Number (-4))]> ∅,
     ast.os_write samples.w0 ("-4 b None" +:+ ast.endl)).
Proof.
  apply (Print_law 0 [VariableValue "x" []; StringConst "b"; NoneConst]
           ["-4"; "b"; "None"]%string).
  repeat constructor.
  - exists (Own (runtime.Number (-4))). split; vm_compute; reflexivity.
  - exists (Share (runtime.String "b")). split; vm_compute; reflexivity.
  - exists None_. split; vm_compute; reflexivity.
Defined.

(** X11. [Stringify] of a [Stringify] is the inner [Stringify]: the same
    holder of the same text, the same closure and the same world, and the
    same exception if the inner one throws. *)
Theorem Stringify_idempotent n argument_ c w :
  ast.Execute (S (S n)) (Stringify (Stringify argument_)) c w
  = ast.Execute (S n) (Stringify argument_) c w.
Proof.
  change (ast.Execute (S (S n)) (Stringify (Stringify argument_)) c w)
    with (ast.Stringify_Execute (S n) (ast.Execute (S n))
            (Stringify argument_) c w).
  unfold ast.Stringify_Execute at 1.
  destruct (ast.Execute (S n) (Stringify argument_) c w)
    as [[[h|s] c1] w1] eqn:Hinner; [|reflexivity].
  cbn [ast.bind].
  assert (Hh : exists text, h = Own (runtime.String text)).
  { revert Hinner. cbn [ast.Execute]. unfold ast.Stringify_Execute.
    destruct (ast.Execute n argument_ c w) as [[[v|s] c2] w2];
      cbn [ast.bind]; [|discriminate].
    destruct (runtime.Get v) as [o|].
    - destruct (runtime.Object_Print _ _ _ _ _ _) as [[u|s] [b w3]];
        [|discriminate].
      intros [= <- _ _]. eexists. reflexivity.
    - intros [= <- _ _]. eexists. reflexivity. }
  destruct Hh as [text ->]. reflexivity.
Qed.

End EvaluatorLaws.

(** * More on the runtime *)

Section RuntimeLaws.

Import runtime(Closure, World, ObjectHolder, Ok, Raise, Own, Share, None_).

(** ** Classes and calls *)

(** X12. The method [GetMethod] finds on a class, through any number of
    parents, bears the name that was asked for. *)
Theorem GetMethod_returns_named cls_ name mtd :
  runtime.GetMethod cls_ name = Some mtd ->
  Method_name mtd = name.
Proof.
  revert cls_. fix IH 1. intros [name_ methods_ [p|]];
    cbn [runtime.GetMethod];
    destruct (find (fun m => String.eqb (Method_name m) name) methods_)
      as [res|] eqn:Hfind.
  - clear IH. intros [= <-]. apply find_some in Hfind as [_ Heq].
    apply String.eqb_eq. exact Heq.
  - exact (IH p).
  - clear IH. intros [= <-]. apply find_some in Hfind as [_ Heq].
    apply String.eqb_eq. exact Heq.
  - clear IH. discriminate.
Qed.

Lemma GetMethod_returns_named_witness :
  Method_name
    (mkMethod "f" [] (MethodBody (Compound [Return (NumericConst 1)])))
  = "f".
Proof.
  apply (GetMethod_returns_named samples.class_B "f"
           (mkMethod "f" [] (MethodBody (Compound [Return (NumericConst 1)])))).
  reflexivity.
Defined.

Lemma bind_params_other (formal_params : list string) :
  forall (args : Closure) actual_args x,
    x ∉ formal_params ->
    runtime.bind_params args formal_params actual_args !! x = args !! x.
Proof.
  induction formal_params as [|p ps IH]; intros args actual_args x Hx;
    [reflexivity|].
  destruct actual_args as [|a rest]; [reflexivity|].
  cbn [runtime.bind_params]. rewrite IH.
  - apply lookup_insert_ne. intros ->. apply Hx. left.
  - intros Hin. apply Hx. right. exact Hin.
Qed.

Lemma bind_params_bound (formal_params : list string) :
  forall (args : Closure) (actual_args : list ObjectHolder) i p a,
    NoDup formal_params ->
    formal_params !! i = Some p ->
    actual_args !! i = Some a ->
    runtime.bind_params args formal_params actual_args !! p = Some a.
Proof.
  induction formal_params as [|p0 ps IH];
    intros args actual_args i p a Hnd Hp Ha; [destruct i; discriminate|].
  destruct actual_args as [|a0 rest]; [destruct i; discriminate|].
  apply NoDup_cons in Hnd as [Hnotin Hnd].
  cbn [runtime.bind_params]. destruct i as [|i]; cbn in Hp, Ha.
  - injection Hp as <-. injection Ha as <-.
    rewrite bind_params_other by exact Hnotin. apply lookup_insert_eq.
  - eapply IH; eassumption.
Qed.

(** X13. [Call] on a method found with as many formals as there are
    actuals runs its body in a closure of its own, in which (the formals
    being distinct) every formal is bound to the actual at its position,
    [self] to a non-owning holder of the instance unless a formal is
    called [self], and no other name is bound. *)
Theorem Call_binds_parameters (exec : runtime.Exec) addr cls_ method mtd
        actual_args w :
  runtime.GetMethod cls_ method = Some mtd ->
  length (Method_formal_params mtd) = length actual_args ->
  NoDup (Method_formal_params mtd) ->
  exists args : Closure,
    runtime.Call exec addr cls_ method actual_args w
    = (let '(r, _, w') := exec (Method_body mtd) args w in (r, w'))
    /\ (forall i p a,
          Method_formal_params mtd !! i = Some p ->
          actual_args !! i = Some a ->
          args !! p = Some a)
    /\ ("self" ∉ Method_formal_params mtd ->
        args !! "self" = Some (Share (runtime.ClassInstance addr cls_)))
    /\ (forall x,
          x <> "self" -> x ∉ Method_formal_params mtd -> args !! x = None).
Proof.
  intros Hget Hlen Hnd. eexists. split; [|split; [|split]].
  - apply Call_runs_body; eassumption.
  - intros i p a Hp Ha. eapply bind_params_bound; eassumption.
  - intros Hself. rewrite bind_params_other by exact Hself.
    apply lookup_insert_eq.
  - intros x Hx Hnotin. rewrite bind_params_other by exact Hnotin.
    rewrite lookup_insert_ne by congruence. apply lookup_empty.
Qed.

Lemma Call_binds_parameters_witness :
  exists args : Closure,
    runtime.Call (ast.Execute 4) 0 more_samples.class_Setter "run"
                 [Own (runtime.Number 1)] samples.w0
    = (let '(r, _, w') :=
         ast.Execute 4
           (MethodBody (Compound [ Assignment "x" (NumericConst 2);
                                   Assignment "y" (NumericConst 3) ]))
           args samples.w0 in (r, w'))
    /\ args !! "x" = Some (Own (runtime.Number 1))
    /\ args !! "self"
       = Some (Share (runtime.ClassInstance 0 more_samples.class_Setter))
    /\ args !! "y" = None.
Proof.
  destruct (Call_binds_parameters (ast.Execute 4) 0%nat
              more_samples.class_Setter "run"
              (mkMethod "run" ["x"]
                 (MethodBody (Compound [ Assignment "x" (NumericConst 2);
                                         Assignment "y" (NumericConst 3) ])))
              [Own (runtime.Number 1)] samples.w0 eq_refl eq_refl)
    as (args & Hcall & Hbound & Hself & Hother).
  - repeat constructor. intros Hin. inversion Hin.
  - exists args. split; [exact Hcall|]. split; [|split].
    + apply (Hbound 0%nat); reflexivity.
    + apply Hself. cbn. intros Hin. apply list_elem_of_singleton in Hin.
      discriminate Hin.
    + apply Hother; [discriminate|]. cbn. intros Hin.
      apply list_elem_of_singleton in Hin. discriminate Hin.
Defined.

(** ** Comparisons of primitives *)

Lemma String_ltb_flip l r :
  (if String.ltb l r then false else negb (String.eqb l r)) = String.ltb r l.
Proof.
  unfold String.ltb.
  pose proof (String.compare_antisym l r) as Hanti.
  destruct (String.compare l r) eqn:Hc;
    destruct (String.compare r l) eqn:Hc'; simpl in Hanti;
    try discriminate; try reflexivity.
  - apply String.compare_eq_iff in Hc. subst r. now rewrite String.eqb_refl.
  - destruct (String.eqb l r) eqn:He; [|reflexivity].
    apply String.eqb_eq in He. subst r.
    rewrite String_compare_refl in Hc. discriminate.
Qed.

(** X14. On two primitives of one kind [Greater(a, b)] is [Less(b, a)]
    and [LessOrEqual(a, b)] is [GreaterOrEqual(b, a)]. *)
Theorem Greater_is_Less_flipped (exec : runtime.Exec) w a b :
  properties.same_primitive_kind a b = true ->
  runtime.Greater exec a b w = runtime.Less exec b a w
  /\ runtime.LessOrEqual exec a b w = runtime.GreaterOrEqual exec b a w.
Proof.
  unfold properties.same_primitive_kind.
  unfold runtime.LessOrEqual, runtime.GreaterOrEqual, runtime.Greater,
    runtime.Less, runtime.Equal, runtime.Comp.
  intros Hkind.
  destruct (runtime.Get a) as [[l|l|l|l|l1 l2]|]; try discriminate;
    destruct (runtime.Get b) as [[r|r|r|r|r1 r2]|]; try discriminate;
    cbn [runtime.on_bool runtime.on_int runtime.on_string
         runtime.less runtime.equal_to runtime.result_map].
  - assert (H : (if l <? r then false else negb (l =? r)) = (r <? l)).
    { destruct (Z.ltb_spec l r), (Z.eqb_spec l r), (Z.ltb_spec r l);
        simpl; try reflexivity; lia. }
    destruct (l <? r); cbn [runtime.result_map]; rewrite <- H; split;
      reflexivity.
  - pose proof (String_ltb_flip l r) as H.
    destruct (String.ltb l r); cbn [runtime.result_map]; rewrite <- H; split;
      reflexivity.
  - destruct l, r; split; reflexivity.
Qed.

Lemma Greater_is_Less_flipped_witness :
  runtime.Greater (ast.Execute 0) (Own (runtime.String "b"))
                  (Share (runtime.String "a")) samples.w0
  = runtime.Less (ast.Execute 0) (Share (runtime.String "a"))
                 (Own (runtime.String "b")) samples.w0.
Proof.
  apply (Greater_is_Less_flipped (ast.Execute 0) samples.w0
           (Own (runtime.String "b")) (Share (runtime.String "a"))).
  reflexivity.
Defined.

(** X15. On two primitives of one kind [Equal] returns whether they hold
    the same value, be the holders owning or not, and [NotEqual] the
    opposite; neither touches the world. *)
Theorem Equal_decides_value (exec : runtime.Exec) w a b :
  properties.same_primitive_kind a b = true ->
  exists eq : bool,
    runtime.Equal exec a b w = (Ok eq, w)
    /\ runtime.NotEqual exec a b w = (Ok (negb eq), w)
    /\ (eq = true <-> runtime.Get a = runtime.Get b).
Proof.
  unfold properties.same_primitive_kind.
  unfold runtime.NotEqual, runtime.Equal, runtime.Comp.
  intros Hkind.
  destruct (runtime.Get a) as [[l|l|l|l|l1 l2]|]; try discriminate;
    destruct (runtime.Get b) as [[r|r|r|r|r1 r2]|]; try discriminate;
    cbn [runtime.on_bool runtime.on_int runtime.on_string runtime.equal_to];
    eexists; (split; [reflexivity|]); (split; [reflexivity|]).
  - rewrite Z.eqb_eq. split; [intros ->; reflexivity|intros [= ->]; reflexivity].
  - rewrite String.eqb_eq.
    split; [intros ->; reflexivity|intros [= ->]; reflexivity].
  - rewrite Bool.eqb_true_iff.
    split; [intros ->; reflexivity|intros [= ->]; reflexivity].
Qed.

Lemma Equal_decides_value_witness :
  exists eq : bool,
    runtime.Equal (ast.Execute 0) (Own (runtime.Number 3))
                  (Share (runtime.Number 3)) samples.w0 = (Ok eq, samples.w0)
    /\ runtime.NotEqual (ast.Execute 0) (Own (runtime.Number 3))
                        (Share (runtime.Number 3)) samples.w0
       = (Ok (negb eq), samples.w0)
    /\ (eq = true <-> Some (runtime.Number 3) = Some (runtime.Number 3)).
Proof.
  apply (Equal_decides_value (ast.Execute 0) samples.w0
           (Own (runtime.Number 3)) (Share (runtime.Number 3))).
  reflexivity.
Defined.

Lemma Ascii_compare_refl x : Ascii.compare x x = Datatypes.Eq.
Proof. unfold Ascii.compare. apply N.compare_refl. Qed.

Lemma String_ltb_trans a :
  forall b c,
    String.ltb a b = true -> String.ltb b c = true -> String.ltb a c = true.
Proof.
  unfold String.ltb.
  induction a as [|x a IH]; intros [|y b] [|z c]; cbn [String.compare];
    try discriminate; try reflexivity.
  destruct (Ascii.compare x y) eqn:Hxy; try discriminate.
  - apply Ascii.compare_eq_iff in Hxy. subst y.
    destruct (Ascii.compare x z) eqn:Hxz; try discriminate; [|reflexivity].
    apply IH.
  - intros _.
    destruct (Ascii.compare y z) eqn:Hyz; try discriminate.
    + apply Ascii.compare_eq_iff in Hyz. subst z. now rewrite Hxy.
    + intros _. unfold Ascii.compare in *.
      rewrite N.compare_lt_iff in Hxy, Hyz.
      assert (Hxz : (N_of_ascii x ?= N_of_ascii z)%N = Lt)
        by (apply N.compare_lt_iff; lia).
      now rewrite Hxz.
Qed.

(** X16. On primitives of one kind [Less] is transitive. *)
Theorem Less_transitive (exec : runtime.Exec) w a b c :
  properties.same_primitive_kind a b = true ->
  properties.same_primitive_kind b c = true ->
  runtime.Less exec a b w = (Ok true, w) ->
  runtime.Less exec b c w = (Ok true, w) ->
  runtime.Less exec a c w = (Ok true, w).
Proof.
  unfold properties.same_primitive_kind.
  unfold runtime.Less, runtime.Comp.
  intros Hab Hbc.
  destruct (runtime.Get a) as [[x|x|x|x|x1 x2]|]; try discriminate;
    destruct (runtime.Get b) as [[y|y|y|y|y1 y2]|]; try discriminate;
    destruct (runtime.Get c) as [[z|z|z|z|z1 z2]|]; try discriminate;
    cbn [runtime.on_bool runtime.on_int runtime.on_string runtime.less].
  - intros [= H1] [= H2]. apply Z.ltb_lt in H1, H2.
    replace (x <? z) with true by (symmetry; apply Z.ltb_lt; lia).
    reflexivity.
  - intros [= H1] [= H2]. now rewrite (String_ltb_trans x y z H1 H2).
  - intros [= H1] [= H2]. destruct x, y, z; try discriminate; reflexivity.
Qed.

Lemma Less_transitive_witness :
  runtime.Less (ast.Execute 0) (Own (runtime.String "a"))
               (Own (runtime.String "b")) samples.w0 = (Ok true, samples.w0).
Proof.
  apply (Less_transitive (ast.Execute 0) samples.w0
           (Own (runtime.String "a")) (Share (runtime.String "ab"))
           (Own (runtime.String "b"))); reflexivity.
Defined.

(** X17. With an empty holder on the left nothing is dispatched:
    [Equal] is true when the right holder is empty too and throws
    otherwise, and [Less], [LessOrEqual], [Greater] and [GreaterOrEqual]
    throw whatever is on the right, two empty holders included. *)
Theorem empty_holder_comparisons (exec : runtime.Exec) w a b :
  runtime.Get a = None ->
  runtime.Equal exec a b w
  = ((if runtime.holds b then Raise runtime.Cannot_compare else Ok true), w)
  /\ runtime.Less exec a b w = (Raise runtime.Cannot_compare, w)
  /\ runtime.Greater exec a b w = (Raise runtime.Cannot_compare, w)
  /\ runtime.LessOrEqual exec a b w = (Raise runtime.Cannot_compare, w)
  /\ runtime.GreaterOrEqual exec a b w = (Raise runtime.Cannot_compare, w).
Proof.
  intros Ha.
  assert (Hless : runtime.Less exec a b w = (Raise runtime.Cannot_compare, w)).
  { unfold runtime.Less, runtime.Comp. rewrite Ha. reflexivity. }
  split; [|split; [exact Hless|]].
  - unfold runtime.Equal, runtime.Comp, runtime.holds. rewrite Ha.
    destruct (runtime.Get b); reflexivity.
  - unfold runtime.LessOrEqual, runtime.GreaterOrEqual, runtime.Greater.
    rewrite Hless. repeat split; reflexivity.
Qed.

Lemma empty_holder_comparisons_witness :
  runtime.Equal (ast.Execute 0) None_ None_ samples.w0 = (Ok true, samples.w0)
  /\ runtime.LessOrEqual (ast.Execute 0) None_ None_ samples.w0
     = (Raise runtime.Cannot_compare, samples.w0).
Proof.
  destruct (empty_holder_comparisons (ast.Execute 0) samples.w0 None_ None_
              eq_refl) as (Heq & _ & _ & Hle & _).
  split; [exact Heq|exact Hle].
Defined.

End RuntimeLaws.

(** * More on the lexer *)

Section LexerLaws.

Import properties.

(** ** Tokens *)

(** X18. [operator==] on tokens holds exactly of equal tokens: same
    alternative and, for [Number], [Id], [Char] and [String], same
    payload; [operator!=] is its negation. *)
Theorem Token_eq_decides lhs rhs :
  (token_ops.Token_eq lhs rhs = true <-> lhs = rhs)
  /\ (token_ops.Token_ne lhs rhs = true <-> lhs <> rhs).
Proof.
  assert (H : token_ops.Token_eq lhs rhs = true <-> lhs = rhs).
  { destruct lhs, rhs; cbn; split; intros H; try discriminate H;
      try reflexivity.
    - apply Z.eqb_eq in H. now subst.
    - injection H as ->. apply Z.eqb_refl.
    - apply String.eqb_eq in H. now subst.
    - injection H as ->. apply String.eqb_refl.
    - apply Ascii.eqb_eq in H. now subst.
    - injection H as ->. apply Ascii.eqb_refl.
    - apply String.eqb_eq in H. now subst.
    - injection H as ->. apply String.eqb_refl. }
  split; [exact H|].
  unfold token_ops.Token_ne. rewrite negb_true_iff.
  destruct (token_ops.Token_eq lhs rhs).
  - split; [discriminate|]. intros Hne. exfalso. apply Hne, H. reflexivity.
  - split; [|reflexivity]. intros _ Heq. apply H in Heq. discriminate.
Qed.

(** ** String literals *)






Lemma push_back_append line c s :
  util.push_back line c +:+ s = line +:+ String.String c s.
Proof. unfold util.push_back. now rewrite append_assoc. Qed.

Lemma ReadString_loop_escaped first rest s :
  (first = util.quote \/ first = util.apostrophe) ->
  literals.no_backslash s = true ->
  forall line c,
    util.ReadString_loop first line c (literals.escape_all s ++ first :: rest)
    = (line +:+ s, Some first, rest).
Proof.
  intros Hfirst. induction s as [|x s IH]; intros Hs line c.
  - cbn [literals.escape_all app util.ReadString_loop].
    rewrite append_nil_r.
    destruct Hfirst as [-> | ->]; reflexivity.
  - cbn [literals.no_backslash] in Hs. apply andb_true_iff in Hs as [Hx Hs].
    unfold literals.not_backslash in Hx. apply negb_true_iff in Hx.
    cbn [literals.escape_all]. unfold literals.escape.
    destruct (Ascii.eqb x util.quote) eqn:Hq.
    { apply Ascii.eqb_eq in Hq. subst x. simpl.
      rewrite (IH Hs). unfold util.push_back. now rewrite append_assoc. }
    destruct (Ascii.eqb x util.apostrophe) eqn:Ha.
    { apply Ascii.eqb_eq in Ha. subst x. simpl.
      rewrite (IH Hs). unfold util.push_back. now rewrite append_assoc. }
    destruct (Ascii.eqb x util.line_feed) eqn:Hl.
    { apply Ascii.eqb_eq in Hl. subst x. simpl.
      rewrite (IH Hs). unfold util.push_back. now rewrite append_assoc. }
    destruct (Ascii.eqb x util.tab) eqn:Ht.
    { apply Ascii.eqb_eq in Ht. subst x. simpl.
      rewrite (IH Hs). unfold util.push_back. now rewrite append_assoc. }
    cbn [app util.ReadString_loop]. rewrite Hx.
    assert (Hne : Ascii.eqb x first = false).
    { destruct Hfirst as [-> | ->]; assumption. }
    rewrite Hne, (IH Hs). now rewrite push_back_append.
Qed.

(** X20. Every text without a backslash can be written as a literal and
    read back: between two quotes of one kind, with both kinds of quote,
    the line feed and the tab written as escapes, [ReadString] returns the
    text and leaves the input right after the closing quote. *)
Theorem ReadString_reads_escaped first s rest :
  first = util.quote \/ first = util.apostrophe ->
  literals.no_backslash s = true ->
  util.ReadString (first :: literals.escape_all s ++ first :: rest)
  = (LexOk s, rest).
Proof.
  intros Hfirst Hs. unfold util.ReadString.
  rewrite (ReadString_loop_escaped first rest s Hfirst Hs).
  rewrite Ascii.eqb_refl. reflexivity.
Qed.

Lemma ReadString_reads_escaped_witness :
  util.ReadString
    (util.quote
       :: literals.escape_all ("it's" +:+ String.String util.tab "ok")
       ++ util.quote :: list_ascii_of_string ")")
  = (LexOk ("it's" +:+ String.String util.tab "ok"),
     list_ascii_of_string ")").
Proof.
  apply (ReadString_reads_escaped util.quote
           ("it's" +:+ String.String util.tab "ok")
           (list_ascii_of_string ")")).
  - left. reflexivity.
  - reflexivity.
Defined.

Lemma ReadString_loop_open first body :
  forallb (fun c => negb (Ascii.eqb c first) && literals.not_backslash c)%bool
          body = true ->
  forall line c,
    util.ReadString_loop first line c body
    = (line +:+ string_of_list_ascii body,
       match rev body with [] => c | last :: _ => Some last end, []).
Proof.
  induction body as [|x body IH]; intros Hbody line c.
  - cbn. now rewrite append_nil_r.
  - cbn [forallb] in Hbody. apply andb_true_iff in Hbody as [Hx Hbody].
    apply andb_true_iff in Hx as [Hfirst Hback].
    unfold literals.not_backslash in Hback.
    apply negb_true_iff in Hfirst, Hback.
    cbn [util.ReadString_loop]. rewrite Hback, Hfirst.
    rewrite (IH Hbody). cbn [string_of_list_ascii rev].
    rewrite push_back_append. f_equal. f_equal.
    destruct (rev body) as [|l r]; reflexivity.
Qed.

(** X21. A literal that is not closed makes [ReadString] throw: when the
    input ends after an opening quote and at least one character, none of
    them that quote or a backslash, the exception carries the text read
    and nothing is left of the input. *)
Theorem ReadString_unterminated first body :
  body <> [] ->
  forallb (fun c => negb (Ascii.eqb c first) && literals.not_backslash c)%bool
          body = true ->
  util.ReadString (first :: body)
  = (LexThrow (std_runtime_error
                 ("Failed to parse string : " +:+ string_of_list_ascii body)),
     []).
Proof.
  intros Hne Hbody. unfold util.ReadString.
  rewrite (ReadString_loop_open first body Hbody).
  change (EmptyString +:+ string_of_list_ascii body)
    with (string_of_list_ascii body).
  destruct (rev body) as [|last r] eqn:Hrev.
  - exfalso. apply Hne. apply (f_equal (@rev ascii)) in Hrev.
    now rewrite rev_involutive in Hrev.
  - assert (Hin : In last body).
    { apply in_rev. rewrite Hrev. left. reflexivity. }
    rewrite forallb_forall in Hbody. specialize (Hbody last Hin).
    apply andb_true_iff in Hbody as [Hfirst _].
    apply negb_true_iff in Hfirst. rewrite Hfirst. reflexivity.
Qed.

Lemma ReadString_unterminated_witness :
  util.ReadString (list_ascii_of_string "'abc")
  = (LexThrow (std_runtime_error "Failed to parse string : abc"), []).
Proof.
  apply (ReadString_unterminated "'"%char (list_ascii_of_string "abc")).
  - discriminate.
  - reflexivity.
Defined.

End LexerLaws.

(** * More on the token stream *)

Section StreamLaws.

Import properties.

(** ** Fuel *)

(** Any fuel above the number of characters left gives the same token. *)
Lemma ReadNextToken_fuel_stable n :
  forall m lx,
    (length (parse.input_ lx) < n)%nat ->
    (length (parse.input_ lx) < m)%nat ->
    parse.ReadNextToken_fuel n lx = parse.ReadNextToken_fuel m lx.
Proof.
  induction n as [|n IH]; intros m lx Hn Hm; [lia|].
  destruct m as [|m]; [lia|].
  cbn [parse.ReadNextToken_fuel].
  destruct (Ascii.eqb (util.peek (parse.input_ lx)) util.EOF_char) eqn:Heof;
    [reflexivity|].
  destruct (Ascii.eqb (util.peek (parse.input_ lx)) util.line_feed) eqn:Hnl.
  { destruct (peek_is _ _ Hnl eq_refl) as (rest & Hinput).
    unfold parse.ParseLineEnd.
    destruct (parse.start_of_line_ lx); [|reflexivity].
    apply IH; unfold parse.NextLine; cbn [parse.input_];
      pose proof (ReadLine_length rest) as Hr;
      rewrite Hinput in *; simpl in *; lia. }
  destruct (Ascii.eqb (util.peek (parse.input_ lx)) "#") eqn:Hhash.
  { destruct (peek_is _ _ Hhash eq_refl) as (rest & Hinput).
    unfold parse.ParseComment.
    apply IH; cbn [parse.input_];
      pose proof (skip_comment_length rest) as Hr;
      rewrite Hinput in *; simpl in *; lia. }
  destruct (Ascii.eqb (util.peek (parse.input_ lx)) " ") eqn:Hsp.
  { destruct (peek_is _ _ Hsp eq_refl) as (rest & Hinput).
    unfold parse.ParseSpaces, util.CountSpaces.
    pose proof (read_while_consumes (Ascii.eqb " ") EmptyString " " rest
                                    eq_refl) as Hr.
    rewrite Hinput.
    destruct (util.read_while (Ascii.eqb " ") EmptyString (" "%char :: rest))
      as [spaces r].
    apply IH; cbn [parse.input_]; rewrite Hinput in *; simpl in *; lia. }
  reflexivity.
Qed.

Lemma ReadNextToken_fuel_is_NextToken n lx :
  (length (parse.input_ lx) < n)%nat ->
  parse.ReadNextToken_fuel n lx = parse.NextToken lx.
Proof.
  intros Hn. unfold parse.NextToken, parse.ReadNextToken.
  apply ReadNextToken_fuel_stable; lia.
Qed.

(** ** Lines that hold no token *)

Lemma NextToken_line_feed lx rest :
  parse.input_ lx = util.line_feed :: rest ->
  parse.NextToken lx
  = if parse.start_of_line_ lx then
      parse.NextToken (parse.mkLexer rest true (parse.current_indent_ lx) 0
                                     (parse.current_token_ lx))
    else LexOk (parse.mkLexer rest true (parse.current_indent_ lx) 0
                              token_type.Newline).
Proof.
  intros Hinput. unfold parse.NextToken at 1. unfold parse.ReadNextToken.
  cbn [parse.ReadNextToken_fuel]. rewrite Hinput.
  cbn [util.peek].
  change (Ascii.eqb util.line_feed util.EOF_char) with false.
  change (Ascii.eqb util.line_feed util.line_feed) with true.
  cbv iota. unfold parse.ParseLineEnd, parse.NextLine, parse.set_token.
  rewrite Hinput. cbn [util.ReadLine].
  change (Ascii.eqb util.line_feed util.line_feed) with true. cbv iota.
  destruct (parse.start_of_line_ lx); [|reflexivity].
  apply ReadNextToken_fuel_is_NextToken. cbn. lia.
Qed.

Lemma skip_comment_body body rest :
  literals.no_line_feed body = true ->
  match rest with [] => True | c :: _ => c = util.line_feed end ->
  parse.skip_comment (body ++ rest) = rest.
Proof.
  intros Hbody Hrest. induction body as [|x body IH].
  - destruct rest as [|c r]; [reflexivity|]. subst c. reflexivity.
  - cbn [literals.no_line_feed forallb] in Hbody.
    apply andb_true_iff in Hbody as [Hx Hbody]. apply negb_true_iff in Hx.
    cbn [app parse.skip_comment]. rewrite Hx. apply IH. exact Hbody.
Qed.

Lemma NextToken_comment lx body rest :
  parse.input_ lx = "#"%char :: body ++ rest ->
  literals.no_line_feed body = true ->
  match rest with [] => True | c :: _ => c = util.line_feed end ->
  parse.NextToken lx
  = parse.NextToken (parse.mkLexer rest (parse.start_of_line_ lx)
                       (parse.current_indent_ lx) (parse.line_indent_ lx)
                       (parse.current_token_ lx)).
Proof.
  intros Hinput Hbody Hrest. unfold parse.NextToken at 1.
  unfold parse.ReadNextToken.
  cbn [parse.ReadNextToken_fuel]. rewrite Hinput. cbn [util.peek].
  change (Ascii.eqb "#" util.EOF_char) with false.
  change (Ascii.eqb "#" util.line_feed) with false.
  change (Ascii.eqb "#" "#") with true. cbv iota.
  unfold parse.ParseComment. rewrite Hinput.
  change (parse.skip_comment ("#"%char :: body ++ rest))
    with (parse.skip_comment (body ++ rest)).
  rewrite (skip_comment_body body rest Hbody Hrest).
  apply ReadNextToken_fuel_is_NextToken. cbn [parse.input_ length].
  rewrite length_app. lia.
Qed.

Lemma string_of_list_ascii_length l :
  String.length (string_of_list_ascii l) = length l.
Proof. induction l as [|c l IH]; cbn; [reflexivity|]. now rewrite IH. Qed.

Lemma NextToken_spaces lx k rest :
  parse.input_ lx = repeat " "%char (S k) ++ rest ->
  Ascii.eqb " " (util.peek rest) = false ->
  parse.NextToken lx
  = parse.NextToken
      (parse.mkLexer rest (parse.start_of_line_ lx) (parse.current_indent_ lx)
         (if parse.start_of_line_ lx
          then uint32_wrap (Z.of_nat (S k) / 2)
          else parse.line_indent_ lx)
         (parse.current_token_ lx)).
Proof.
  intros Hinput Hstop. unfold parse.NextToken at 1.
  unfold parse.ReadNextToken.
  cbn [parse.ReadNextToken_fuel]. rewrite Hinput.
  cbn [repeat app util.peek].
  change (Ascii.eqb " " util.EOF_char) with false.
  change (Ascii.eqb " " util.line_feed) with false.
  change (Ascii.eqb " " "#") with false.
  change (Ascii.eqb " " " ") with true. cbv iota.
  unfold parse.ParseSpaces, util.CountSpaces. rewrite Hinput.
  rewrite (read_while_run (Ascii.eqb " ") EmptyString
             (repeat " "%char (S k)) rest).
  - change (EmptyString +:+ string_of_list_ascii (repeat " "%char (S k)))
      with (string_of_list_ascii (repeat " "%char (S k))).
    rewrite string_of_list_ascii_length, repeat_length.
    apply ReadNextToken_fuel_is_NextToken. cbn [parse.input_ length].
    rewrite length_app. lia.
  - clear. induction (S k) as [|n IH]; [reflexivity|]. cbn. exact IH.
  - exact Hstop.
  - reflexivity.
Qed.

(** X22. A line that holds nothing but spaces and a comment yields no
    token and leaves no indentation behind.  Before the line feed that
    ends such a line, [NextToken] does what it does after it with the line
    indent reset when the lexer is at the start of a line; when it is not
    (spaces and a comment after the last token of a line) it returns
    [Newline]. *)
Theorem blank_line_yields_no_token lx k comment rest :
  parse.input_ lx = repeat " "%char k ++ comment ++ util.line_feed :: rest ->
  (comment = []
   \/ exists body, comment = "#"%char :: body
                   /\ literals.no_line_feed body = true) ->
  parse.NextToken lx
  = if parse.start_of_line_ lx then
      parse.NextToken (parse.mkLexer rest true (parse.current_indent_ lx) 0
                                     (parse.current_token_ lx))
    else LexOk (parse.mkLexer rest true (parse.current_indent_ lx) 0
                              token_type.Newline).
Proof.
  intros Hinput Hcomment.
  assert (Hafter : forall lx1,
    parse.input_ lx1 = comment ++ util.line_feed :: rest ->
    parse.NextToken lx1
    = if parse.start_of_line_ lx1 then
        parse.NextToken (parse.mkLexer rest true (parse.current_indent_ lx1) 0
                                       (parse.current_token_ lx1))
      else LexOk (parse.mkLexer rest true (parse.current_indent_ lx1) 0
                                token_type.Newline)).
  { intros lx1 Hin1. destruct Hcomment as [-> | (body & -> & Hbody)].
    - apply NextToken_line_feed. exact Hin1.
    - rewrite (NextToken_comment lx1 body (util.line_feed :: rest));
        [|exact Hin1|exact Hbody|reflexivity].
      rewrite (NextToken_line_feed _ rest) by reflexivity. reflexivity. }
  destruct k as [|k].
  - apply Hafter. exact Hinput.
  - rewrite (NextToken_spaces lx k (comment ++ util.line_feed :: rest) Hinput).
    + rewrite Hafter by reflexivity. reflexivity.
    + destruct Hcomment as [-> | (body & -> & _)]; reflexivity.
Qed.

Lemma blank_line_yields_no_token_witness :
  parse.NextToken
    (parse.mkLexer
       (list_ascii_of_string "   # note" ++ util.line_feed
          :: list_ascii_of_string "x")
       true 1 0 token_type.Newline)
  = parse.NextToken
      (parse.mkLexer (list_ascii_of_string "x") true 1 0 token_type.Newline).
Proof.
  apply (blank_line_yields_no_token
           (parse.mkLexer
              (list_ascii_of_string "   # note" ++ util.line_feed
                 :: list_ascii_of_string "x")
              true 1 0 token_type.Newline)
           3 (list_ascii_of_string "# note") (list_ascii_of_string "x")).
  - reflexivity.
  - right. exists (list_ascii_of_string " note"). split; reflexivity.
Defined.

(** ** Indentation *)

Lemma significant_peek c :
  literals.significant c = true ->
  Ascii.eqb c util.EOF_char = false
  /\ Ascii.eqb c util.line_feed = false
  /\ Ascii.eqb c "#" = false
  /\ Ascii.eqb c " " = false.
Proof.
  unfold literals.significant. intros H.
  repeat (apply andb_true_iff in H as [H ?]).
  repeat match goal with
         | Hn : negb _ = true |- _ => apply negb_true_iff in Hn
         end.
  tauto.
Qed.

(** Before a significant character, at the start of a line whose indent
    differs from the current one, each call moves the current indent one
    step towards it and returns [Indent] or [Dedent]. *)
Lemma pending_indentation j :
  forall input cur line tok,
    literals.significant (util.peek input) = true ->
    0 <= cur < UINT32_MODULUS ->
    0 <= line < UINT32_MODULUS ->
    Z.of_nat (S j) <= Z.abs (line - cur) ->
    token_ops.advance (S j) (parse.mkLexer input true cur line tok)
    = LexOk (parse.mkLexer input true
               (if cur <? line then cur + Z.of_nat (S j)
                else cur - Z.of_nat (S j))
               line
               (if cur <? line then token_type.Indent
                else token_type.Dedent)).
Proof.
  induction j as [|j IH]; intros input cur line tok Hsig Hcur Hline Hj.
  - cbn [token_ops.advance]. unfold parse.NextToken, parse.ReadNextToken.
    cbn [parse.ReadNextToken_fuel parse.input_ parse.start_of_line_
         parse.current_indent_ parse.line_indent_].
    destruct (significant_peek _ Hsig) as (-> & -> & -> & ->).
    replace (cur =? line) with false by (symmetry; apply Z.eqb_neq; lia).
    cbn [negb andb]. unfold parse.ParseIndent.
    cbn [parse.input_ parse.start_of_line_ parse.current_indent_
         parse.line_indent_].
    destruct (cur <? line) eqn:Hlt.
    + apply Z.ltb_lt in Hlt.
      rewrite uint32_wrap_small by lia. reflexivity.
    + apply Z.ltb_ge in Hlt.
      replace (line <? cur) with true by (symmetry; apply Z.ltb_lt; lia).
      rewrite uint32_wrap_small by lia. reflexivity.
  - change (token_ops.advance (S (S j)) ?lx)
      with (match parse.NextToken lx with
            | LexOk lx' => token_ops.advance (S j) lx'
            | LexThrow e => LexThrow e
            | LexOutOfFuel => LexOutOfFuel
            end).
    unfold parse.NextToken, parse.ReadNextToken.
    cbn [parse.ReadNextToken_fuel parse.input_ parse.start_of_line_
         parse.current_indent_ parse.line_indent_].
    destruct (significant_peek _ Hsig) as (-> & -> & -> & ->).
    replace (cur =? line) with false by (symmetry; apply Z.eqb_neq; lia).
    cbn [negb andb]. unfold parse.ParseIndent.
    cbn [parse.input_ parse.start_of_line_ parse.current_indent_
         parse.line_indent_].
    destruct (cur <? line) eqn:Hlt.
    + apply Z.ltb_lt in Hlt.
      rewrite uint32_wrap_small by lia.
      rewrite IH by (try assumption; lia).
      replace (cur + 1 <? line) with true by (symmetry; apply Z.ltb_lt; lia).
      f_equal. f_equal. lia.
    + apply Z.ltb_ge in Hlt.
      replace (line <? cur) with true by (symmetry; apply Z.ltb_lt; lia).
      rewrite uint32_wrap_small by lia.
      rewrite IH by (try assumption; lia).
      replace (cur - 1 <? line) with false by (symmetry; apply Z.ltb_ge; lia).
      f_equal. f_equal. lia.
Qed.

(** X23. Two spaces make one level.  At the start of a line that opens
    with [k] spaces before a significant character, the level of the line
    is [k / 2], and as long as the current indent differs from it each
    call of [NextToken] returns one [Indent] (the line is deeper) or one
    [Dedent] (it is shallower), moves the current indent by one and
    consumes nothing more than the spaces. *)
Theorem indentation_tokens lx k rest j :
  parse.input_ lx = repeat " "%char k ++ rest ->
  parse.start_of_line_ lx = true ->
  literals.significant (util.peek rest) = true ->
  counters_ok lx ->
  (k = 0%nat -> parse.line_indent_ lx = 0) ->
  Z.of_nat k / 2 < UINT32_MODULUS ->
  (1 <= j)%nat ->
  Z.of_nat j <= Z.abs (Z.of_nat k / 2 - parse.current_indent_ lx) ->
  token_ops.advance j lx
  = LexOk (parse.mkLexer rest true
             (if parse.current_indent_ lx <? Z.of_nat k / 2
              then parse.current_indent_ lx + Z.of_nat j
              else parse.current_indent_ lx - Z.of_nat j)
             (Z.of_nat k / 2)
             (if parse.current_indent_ lx <? Z.of_nat k / 2
              then token_type.Indent else token_type.Dedent)).
Proof.
  intros Hinput Hsol Hsig [Hcur Hline] Hzero Hk Hj1 Hj.
  destruct j as [|j]; [lia|].
  assert (Hlevel : 0 <= Z.of_nat k / 2 < UINT32_MODULUS).
  { split; [apply Z.div_pos; lia|exact Hk]. }
  destruct k as [|k].
  - destruct lx as [input sol cur line tok]. cbn in *. subst input sol.
    rewrite (Hzero eq_refl) in *.
    change (0 / 2) with 0 in *.
    apply pending_indentation; try assumption; lia.
  - change (token_ops.advance (S j) lx)
      with (match parse.NextToken lx with
            | LexOk lx' => token_ops.advance j lx'
            | LexThrow e => LexThrow e
            | LexOutOfFuel => LexOutOfFuel
            end).
    rewrite (NextToken_spaces lx k rest Hinput).
    + rewrite Hsol. rewrite uint32_wrap_small by exact Hlevel.
      change (match parse.NextToken ?l with
              | LexOk lx' => token_ops.advance j lx'
              | LexThrow e => LexThrow e
              | LexOutOfFuel => LexOutOfFuel
              end)
        with (token_ops.advance (S j) l).
      apply pending_indentation; try assumption.
    + destruct (significant_peek _ Hsig) as (_ & _ & _ & Hsp).
      rewrite Ascii.eqb_sym. exact Hsp.
Qed.

Lemma indentation_tokens_witness :
  token_ops.advance 2
    (parse.mkLexer (list_ascii_of_string "     x = 1") true 0 0
                   token_type.Newline)
  = LexOk (parse.mkLexer (list_ascii_of_string "x = 1") true 2 2
                         token_type.Indent).
Proof.
  apply (indentation_tokens
           (parse.mkLexer (list_ascii_of_string "     x = 1") true 0 0
                          token_type.Newline)
           5 (list_ascii_of_string "x = 1") 2).
  - reflexivity.
  - reflexivity.
  - reflexivity.
  - split; cbn; unfold UINT32_MODULUS; lia.
  - discriminate.
  - reflexivity.
  - lia.
  - apply Z.leb_le. reflexivity.
Defined.

(** ** What the tokens are *)

Lemma string_forall_append p a b :
  literals.string_forall p (a +:+ b)
  = (literals.string_forall p a && literals.string_forall p b)%bool.
Proof.
  induction a as [|x a IH]; [reflexivity|].
  change (String.String x a +:+ b) with (String.String x (a +:+ b)).
  cbn [literals.string_forall]. rewrite IH. apply andb_assoc.
Qed.

Lemma read_while_forall p input :
  forall line,
    literals.string_forall p line = true ->
    literals.string_forall p (fst (util.read_while p line input)) = true.
Proof.
  induction input as [|c rest IH]; intros line Hline; cbn [util.read_while].
  - exact Hline.
  - destruct (p c) eqn:Hc; [|exact Hline].
    apply IH. unfold util.push_back. rewrite string_forall_append, Hline.
    cbn. now rewrite Hc.
Qed.

Lemma digit_value_range c :
  util.IsNum c = true -> 0 <= util.digit_value c <= 9.
Proof.
  unfold util.IsNum, util.in_range, util.digit_value, util.code.
  intros H. apply andb_true_iff in H as [Hlo Hhi].
  apply N.leb_le in Hlo, Hhi. cbn in Hlo, Hhi. lia.
Qed.

Lemma decimal_value_nonneg num :
  forall acc,
    literals.string_forall util.IsNum num = true ->
    0 <= acc -> 0 <= util.decimal_value acc num.
Proof.
  induction num as [|c num IH]; intros acc Hnum Hacc;
    cbn [util.decimal_value]; [exact Hacc|].
  cbn [literals.string_forall] in Hnum.
  apply andb_true_iff in Hnum as [Hc Hnum].
  apply IH; [exact Hnum|]. pose proof (digit_value_range c Hc). lia.
Qed.

Lemma KeyWords_plain_token name t :
  util.KeyWords name = Some t -> literals.plain_token t.
Proof.
  unfold util.KeyWords.
  repeat match goal with
         | |- context [if ?b then _ else _] => destruct b
         end; intros [= <-]; exact I.
Qed.

Lemma DualSymbols_plain_token sym_pair t :
  util.DualSymbols sym_pair = Some t -> literals.plain_token t.
Proof.
  unfold util.DualSymbols.
  repeat match goal with
         | |- context [if ?b then _ else _] => destruct b
         end; intros [= <-]; exact I.
Qed.

(** [ParseToken] returns no structural token, and no [Number] outside
    of [0 .. INT_MAX]. *)
Lemma ParseToken_plain_token lx lx' :
  parse.ParseToken lx = LexOk lx' ->
  literals.plain_token (parse.current_token_ lx').
Proof.
  unfold parse.ParseToken.
  destruct (util.IsNum _).
  - unfold util.ReadNumber.
    pose proof (read_while_forall util.IsNum (parse.input_ lx) EmptyString
                                  eq_refl) as Hdigits.
    destruct (util.read_while util.IsNum EmptyString (parse.input_ lx))
      as [num r]. cbn [fst] in Hdigits.
    destruct (String.eqb num EmptyString).
    + intros [= <-]. cbn. unfold INT_MAX. lia.
    + unfold util.stoi.
      destruct (util.decimal_value 0 num <=? INT_MAX) eqn:Hmax;
        [|discriminate].
      intros [= <-]. cbn. apply Z.leb_le in Hmax.
      split; [|exact Hmax]. apply decimal_value_nonneg; [exact Hdigits|lia].
  - destruct (util.IsAlNumLL _).
    + intros [= <-]. unfold parse.ParseName, util.ReadName.
      destruct (util.read_while _ _ _) as [name r]. cbn.
      destruct (util.KeyWords name) eqn:Hkw; [|exact I].
      apply (KeyWords_plain_token _ _ Hkw).
    + destruct (_ || _)%bool.
      * destruct (util.ReadString _) as [[s|e|] r]; try discriminate.
        intros [= <-]. exact I.
      * intros [= <-]. unfold parse.ParseChar.
        destruct (parse.input_ lx) as [|c rest]; [exact I|].
        destruct (util.DualSymbols _) eqn:Hdual; cbn; [|exact I].
        apply (DualSymbols_plain_token _ _ Hdual).
Qed.

(** A property of the lexer a call leaves that holds after each of the
    four ways a call can end holds after every call. *)
Lemma ReadNextToken_fuel_result (P : parse.Lexer -> Prop) :
  (forall lx, P (parse.ParseEOF lx)) ->
  (forall lx, P (parse.set_token (parse.NextLine lx) token_type.Newline)) ->
  (forall lx,
      (parse.start_of_line_ lx
       && negb (parse.current_indent_ lx =? parse.line_indent_ lx))%bool
      = true ->
      P (parse.ParseIndent lx)) ->
  (forall lx lx0,
      parse.ParseToken lx = LexOk lx0 ->
      P (parse.mkLexer (parse.input_ lx0) false (parse.current_indent_ lx0)
                       (parse.line_indent_ lx0) (parse.current_token_ lx0))) ->
  forall n lx lx', parse.ReadNextToken_fuel n lx = LexOk lx' -> P lx'.
Proof.
  intros Heof Hnl Hind Htok. induction n as [|n IH]; intros lx lx';
    [discriminate|].
  cbn [parse.ReadNextToken_fuel].
  destruct (Ascii.eqb _ util.EOF_char); [intros [= <-]; apply Heof|].
  destruct (Ascii.eqb _ util.line_feed).
  { unfold parse.ParseLineEnd. destruct (parse.start_of_line_ lx).
    - apply IH.
    - intros [= <-]. apply Hnl. }
  destruct (Ascii.eqb _ "#"); [unfold parse.ParseComment; apply IH|].
  destruct (Ascii.eqb _ " ").
  { unfold parse.ParseSpaces.
    destruct (util.CountSpaces _) as [count r]. apply IH. }
  destruct (_ && _)%bool eqn:Hcond; [intros [= <-]; apply Hind, Hcond|].
  destruct (parse.ParseToken lx) as [lx0|e|] eqn:Hparse; try discriminate.
  intros [= <-]. eapply Htok. exact Hparse.
Qed.

(** X24. Every [Number] token that [NextToken] returns carries a value
    between 0 and [INT_MAX]. *)
Theorem Number_token_is_int lx lx' v :
  parse.NextToken lx = LexOk lx' ->
  parse.current_token_ lx' = token_type.Number v ->
  0 <= v <= INT_MAX.
Proof.
  unfold parse.NextToken, parse.ReadNextToken. revert lx'.
  apply (ReadNextToken_fuel_result
           (fun lx' => parse.current_token_ lx' = token_type.Number v ->
                       0 <= v <= INT_MAX)).
  - intros l. unfold parse.ParseEOF.
    destruct (negb _); [discriminate|]. destruct (0 <? _); discriminate.
  - discriminate.
  - intros l Hcond. apply andb_true_iff in Hcond as [_ Hne].
    apply negb_true_iff, Z.eqb_neq in Hne. unfold parse.ParseIndent.
    destruct (_ <? _) eqn:H1; [discriminate|].
    destruct (parse.line_indent_ l <? _) eqn:H2; [discriminate|].
    apply Z.ltb_ge in H1, H2. lia.
  - intros l l0 Hparse. cbn [parse.current_token_]. intros Htok.
    pose proof (ParseToken_plain_token l l0 Hparse) as Hplain.
    rewrite Htok in Hplain. exact Hplain.
Qed.

Lemma Number_token_is_int_witness : 0 <= 42 <= INT_MAX.
Proof.
  apply (Number_token_is_int
           (parse.mkLexer (list_ascii_of_string "  0042)") false 0 0
                          (token_type.Char "("))
           (parse.mkLexer (list_ascii_of_string ")") false 0 0
                          (token_type.Number 42))
           42).
  - vm_compute. reflexivity.
  - reflexivity.
Defined.

Lemma Newline_leaves_start_of_line n lx lx' :
  parse.ReadNextToken_fuel n lx = LexOk lx' ->
  literals.is_Newline (parse.current_token_ lx') = true ->
  parse.start_of_line_ lx' = true.
Proof.
  revert n lx lx'.
  apply (ReadNextToken_fuel_result
           (fun lx' => literals.is_Newline (parse.current_token_ lx') = true ->
                       parse.start_of_line_ lx' = true)).
  - intros l. unfold parse.ParseEOF.
    destruct (negb _); [reflexivity|]. destruct (0 <? _); discriminate.
  - reflexivity.
  - intros l Hcond. apply andb_true_iff in Hcond as [Hsol _].
    unfold parse.ParseIndent. intros _.
    destruct (_ <? _); [exact Hsol|]. destruct (_ <? _); exact Hsol.
  - intros l l0 Hparse. cbn [parse.current_token_]. intros Htok.
    pose proof (ParseToken_plain_token l l0 Hparse) as Hplain.
    destruct (parse.current_token_ l0); try discriminate Htok.
    destruct Hplain.
Qed.

Lemma no_Newline_at_start_of_line n :
  forall lx lx',
    parse.start_of_line_ lx = true ->
    parse.ReadNextToken_fuel n lx = LexOk lx' ->
    literals.is_Newline (parse.current_token_ lx') = false.
Proof.
  induction n as [|n IH]; intros lx lx' Hsol; [discriminate|].
  cbn [parse.ReadNextToken_fuel].
  destruct (Ascii.eqb _ util.EOF_char).
  { intros [= <-]. unfold parse.ParseEOF. rewrite Hsol. cbn [negb].
    destruct (0 <? _); reflexivity. }
  destruct (Ascii.eqb _ util.line_feed).
  { unfold parse.ParseLineEnd. rewrite Hsol. apply IH. reflexivity. }
  destruct (Ascii.eqb _ "#").
  { unfold parse.ParseComment. apply IH. exact Hsol. }
  destruct (Ascii.eqb _ " ").
  { unfold parse.ParseSpaces.
    destruct (util.CountSpaces _) as [count r]. apply IH. exact Hsol. }
  destruct (_ && _)%bool eqn:Hcond.
  { intros [= <-]. apply andb_true_iff in Hcond as [_ Hne].
    apply negb_true_iff, Z.eqb_neq in Hne. unfold parse.ParseIndent.
    destruct (_ <? _) eqn:H1; [reflexivity|].
    destruct (parse.line_indent_ lx <? _) eqn:H2; [reflexivity|].
    apply Z.ltb_ge in H1, H2. lia. }
  destruct (parse.ParseToken lx) as [lx0|e|] eqn:Hparse; try discriminate.
  intros [= <-]. cbn [parse.current_token_].
  pose proof (ParseToken_plain_token lx lx0 Hparse) as Hplain.
  destruct (parse.current_token_ lx0); try reflexivity. destruct Hplain.
Qed.

(** X25. The stream never starts with a [Newline] and never holds two
    [Newline]s in a row: empty lines, however many, add no token. *)
Theorem Newline_never_repeats :
  (forall input lx,
      parse.Lexer_new input = LexOk lx ->
      literals.is_Newline (parse.current_token_ lx) = false)
  /\ (forall lx lx1 lx2,
         parse.NextToken lx = LexOk lx1 ->
         parse.NextToken lx1 = LexOk lx2 ->
         literals.is_Newline (parse.current_token_ lx1) = true ->
         literals.is_Newline (parse.current_token_ lx2) = false).
Proof.
  split.
  - intros input lx. unfold parse.Lexer_new, parse.ReadNextToken.
    apply no_Newline_at_start_of_line. reflexivity.
  - intros lx lx1 lx2 H1 H2 Hnl.
    unfold parse.NextToken, parse.ReadNextToken in H1, H2.
    eapply no_Newline_at_start_of_line; [|exact H2].
    eapply Newline_leaves_start_of_line; eassumption.
Qed.

Lemma Newline_never_repeats_witness :
  literals.is_Newline
    (parse.current_token_ (parse.mkLexer [] false 0 0 (token_type.Id "y")))
  = false.
Proof.
  apply (proj2 Newline_never_repeats
           (parse.mkLexer
              (util.line_feed :: util.line_feed :: list_ascii_of_string "y")
              false 0 0 (token_type.Id "x"))
           (parse.mkLexer
              (util.line_feed :: list_ascii_of_string "y") true 0 0
              token_type.Newline)
           (parse.mkLexer [] false 0 0 (token_type.Id "y"))).
  - vm_compute. reflexivity.
  - vm_compute. reflexivity.
  - reflexivity.
Defined.

(** X26. [Eof] is final: once [NextToken] has returned [Eof], any number
    of further calls return [Eof] and leave the lexer as it is. *)
Theorem Eof_repeats lx lx' j :
  counters_ok lx ->
  parse.NextToken lx = LexOk lx' ->
  parse.is_Eof (parse.current_token_ lx') = true ->
  token_ops.advance j lx' = LexOk lx'.
Proof.
  intros Hok Hnext Heof. induction j as [|j IH]; [reflexivity|].
  cbn [token_ops.advance].
  rewrite (Eof_is_final lx lx' Hok Hnext Heof). exact IH.
Qed.

Lemma Eof_repeats_witness :
  token_ops.advance 3 (parse.mkLexer [] true 0 0 token_type.Eof)
  = LexOk (parse.mkLexer [] true 0 0 token_type.Eof).
Proof.
  apply (Eof_repeats (parse.mkLexer [] true 0 0 token_type.Dedent)
           (parse.mkLexer [] true 0 0 token_type.Eof) 3).
  - split; cbn; unfold UINT32_MODULUS; lia.
  - vm_compute. reflexivity.
  - reflexivity.
Defined.

Lemma IsAlNumLL_not_special c :
  util.IsAlNumLL c = true ->
  Ascii.eqb c util.EOF_char = false
  /\ Ascii.eqb c util.line_feed = false
  /\ Ascii.eqb c "#" = false
  /\ Ascii.eqb c " " = false.
Proof.
  destruct c as [[] [] [] [] [] [] [] []]; intros H; try discriminate H;
    repeat split; reflexivity.
Qed.

(** X27. A maximal run of letters, digits and underscores that does not
    start with a digit is one token: the keyword of that very spelling if
    there is one, an [Id] of the whole run otherwise; the input is left
    right after the run. *)
Theorem name_run_is_one_token lx c more rest :
  parse.input_ lx = (c :: more) ++ rest ->
  util.IsNum c = false ->
  forallb util.IsAlNumLL (c :: more) = true ->
  util.IsAlNumLL (util.peek rest) = false ->
  (parse.start_of_line_ lx
   && negb (parse.current_indent_ lx =? parse.line_indent_ lx))%bool = false ->
  parse.NextToken lx
  = LexOk (parse.mkLexer rest false (parse.current_indent_ lx)
             (parse.line_indent_ lx)
             (match util.KeyWords (string_of_list_ascii (c :: more)) with
              | Some kw => kw
              | None => token_type.Id (string_of_list_ascii (c :: more))
              end)).
Proof.
  intros Hinput Hnum Hrun Hstop Hpending.
  unfold parse.NextToken, parse.ReadNextToken.
  cbn [parse.ReadNextToken_fuel].
  assert (Hc : util.IsAlNumLL c = true).
  { cbn [forallb] in Hrun. apply andb_true_iff in Hrun. tauto. }
  assert (Hpeek : util.peek (parse.input_ lx) = c) by (now rewrite Hinput).
  rewrite Hpeek.
  destruct (IsAlNumLL_not_special c Hc) as (-> & -> & -> & ->).
  rewrite Hpending.
  unfold parse.ParseToken. rewrite Hpeek, Hnum, Hc.
  unfold parse.ParseName, util.ReadName. rewrite Hinput.
  rewrite (read_while_run util.IsAlNumLL EmptyString (c :: more) rest
                          Hrun Hstop eq_refl).
  reflexivity.
Qed.

Lemma name_run_is_one_token_witness :
  parse.NextToken
    (parse.mkLexer (list_ascii_of_string "class_1(x)") false 0 0
                   token_type.Def)
  = LexOk (parse.mkLexer (list_ascii_of_string "(x)") false 0 0
                         (token_type.Id "class_1")).
Proof.
  apply (name_run_is_one_token
           (parse.mkLexer (list_ascii_of_string "class_1(x)") false 0 0
                          token_type.Def)
           "c"%char (list_ascii_of_string "lass_1")
           (list_ascii_of_string "(x)")); reflexivity.
Defined.

End StreamLaws.
